(** * Start-up bootstrap of the NLPipeline API: [fastapi_app/db_loader.py]

    A shallow embedding of the database initialisation and corpus loader
    ([set_engine], [_set_documents_sequence], [load_txt_files_to_db]) together
    with the part of its environment the routine talks to: the corpus
    directory, Python's text-mode file reading, the logger and the PostgreSQL
    server reached through a SQLAlchemy connection.

    The routine is written once, as a tree of the requests it makes to that
    environment ([prog]).  Two semantics are given to such trees: [run]
    executes one invocation to completion, [sched] interleaves the invocations
    of several replicas over one shared server.

    The application that calls the loader, [fastapi_app/main.py], is embedded
    on top of it: its start-up hook and the endpoints that list, show, upload,
    download and delete documents and delete an analysis are trees of
    requests of their own ([coroutine]), run by [app_run] against the same server.
    The endpoints that run the spaCy pipeline or carry its JSON are left
    out. *)

From stdpp Require Import base option list gmap strings sorting pretty.
From Stdlib Require Import ZArith NArith Lia.
From Stdlib.Strings Require Import Byte.

Local Open Scope Z_scope.

(** ** Text: what [fh.read()] yields on a file opened with
    [open("r", encoding="utf-8")] *)

(** A text is a sequence of Unicode code points. *)
Definition text := list N.

Definition in_range (lo hi b : N) : bool := ((lo <=? b) && (b <=? hi))%N.

Definition is_continuation (b : N) : bool := in_range 0x80 0xBF b.

(** The second byte of a multi-byte sequence is restricted further for the
    lead bytes E0, ED, F0 and F4: this is what excludes over-long forms,
    surrogates and code points above 10FFFF. *)
Definition second_byte_ok (b0 b1 : N) : bool :=
  if (b0 =? 0xE0)%N then in_range 0xA0 0xBF b1
  else if (b0 =? 0xED)%N then in_range 0x80 0x9F b1
  else if (b0 =? 0xF0)%N then in_range 0x90 0xBF b1
  else if (b0 =? 0xF4)%N then in_range 0x80 0x8F b1
  else is_continuation b1.

Definition low_bits (n b : N) : N := N.land b (N.ones n).

Definition code_point2 (b0 b1 : N) : N :=
  N.lor (N.shiftl (low_bits 5 b0) 6) (low_bits 6 b1).

Definition code_point3 (b0 b1 b2 : N) : N :=
  N.lor (N.shiftl (low_bits 4 b0) 12)
        (N.lor (N.shiftl (low_bits 6 b1) 6) (low_bits 6 b2)).

Definition code_point4 (b0 b1 b2 b3 : N) : N :=
  N.lor (N.shiftl (low_bits 3 b0) 18)
        (N.lor (N.shiftl (low_bits 6 b1) 12)
               (N.lor (N.shiftl (low_bits 6 b2) 6) (low_bits 6 b3))).

(** The strict ["utf-8"] codec: [None] stands for [UnicodeDecodeError]. *)
Fixpoint utf8_decode (bs : list N) : option text :=
  match bs with
  | [] => Some []
  | b0 :: t0 =>
      if (b0 <? 0x80)%N then cons b0 <$> utf8_decode t0
      else if in_range 0xC2 0xDF b0 then
        match t0 with
        | b1 :: t1 =>
            if is_continuation b1
            then cons (code_point2 b0 b1) <$> utf8_decode t1
            else None
        | _ => None
        end
      else if in_range 0xE0 0xEF b0 then
        match t0 with
        | b1 :: b2 :: t2 =>
            if second_byte_ok b0 b1 && is_continuation b2
            then cons (code_point3 b0 b1 b2) <$> utf8_decode t2
            else None
        | _ => None
        end
      else if in_range 0xF0 0xF4 b0 then
        match t0 with
        | b1 :: b2 :: b3 :: t3 =>
            if second_byte_ok b0 b1 && is_continuation b2 && is_continuation b3
            then cons (code_point4 b0 b1 b2 b3) <$> utf8_decode t3
            else None
        | _ => None
        end
      else None
  end.

(** Text mode with the default [newline=None]: CR LF and a lone CR are read
    as LF. *)
Fixpoint universal_newlines (cs : text) : text :=
  match cs with
  | [] => []
  | 13%N :: rest =>
      match rest with
      | 10%N :: rest' => 10%N :: universal_newlines rest'
      | _ => 10%N :: universal_newlines rest
      end
  | c :: rest => c :: universal_newlines rest
  end.

(** ** The corpus directory *)

(** What a name in the directory stands for: a file whose bytes can be read,
    or something [open] or [read] fails on with an [OSError] (a directory
    called [x.txt], a file without read permission, a failing device). *)
Inductive dir_entry :=
  | RegularFile (data : list byte)
  | Unreadable.

(** The state of the path [TEXT_DIR = Path("/app/texts")]. *)
Inductive path_state :=
  | Missing
  | NotADirectory
  | Directory (entries : gmap string dir_entry).

Definition path_exists (p : path_state) : bool :=
  match p with Missing => false | _ => true end.

Definition path_is_dir (p : path_state) : bool :=
  match p with Directory _ => true | _ => false end.

(** [fnmatch] of a name against the pattern ["*.txt"]: any name that ends in
    [.txt], the bare [.txt] included. *)
Definition matches_txt (name : string) : bool :=
  let n := String.length name in
  bool_decide (4 ≤ n)%nat &&
  String.eqb (String.substring (n - 4) 4 name) ".txt".

(** [TEXT_DIR.glob("*.txt")], in the order the directory happens to list its
    entries. *)
Definition path_glob (p : path_state) : list string :=
  match p with
  | Directory entries => filter (λ n, matches_txt n = true) (map_to_list entries).*1
  | _ => []
  end.

(** [sorted(...)] on paths of one directory compares the file names.  The
    names are kept as bytes and compared as bytes, which is how Python orders
    them when they are UTF-8; a name that is not is ordered by Python with
    its offending bytes as lone surrogates, which is not modelled. *)
Definition sorted (names : list string) : list string :=
  merge_sort String.le names.

Definition path_lookup (p : path_state) (name : string) : option dir_entry :=
  match p with
  | Directory entries => entries !! name
  | _ => None
  end.

(** Reading one directory entry as text. *)
Inductive exn :=
  | RuntimeError (msg : string)
  | UnicodeDecodeError
  | OSError
  | DBAPIError (e : pg_error)
with pg_error :=
  | UndefinedTable          (* relation "documents" does not exist *)
  | UniqueViolation         (* duplicate key value violates "documents_pkey" *)
  | NumericValueOutOfRange  (* setval: value out of bounds for sequence *)
  | ConnectionFailure.      (* the connection to the server is lost *)

Definition read_text (e : option dir_entry) : exn + text :=
  match e with
  | Some (RegularFile data) =>
      match utf8_decode (Byte.to_N <$> data) with
      | Some cs => inr (universal_newlines cs)
      | None => inl UnicodeDecodeError
      end
  | Some Unreadable | None => inl OSError
  end.

(** ** The PostgreSQL server *)

(** *** Sequences

    [last_value] and [is_called] are the two fields PostgreSQL keeps for a
    sequence; [seq_min] is its MINVALUE.  The upper bound of a sequence is not
    modelled: identifiers are unbounded above, where the sequence of a
    [SERIAL] column stops at 2147483647 and [nextval] then fails.  The
    properties that speak of a value still to be drawn have that bound as
    their hypothesis. *)
Record sequence := Sequence {
  seq_min : Z;
  last_value : Z;
  is_called : bool
}.

(** The sequence behind a [SERIAL] column: it starts at 1 with MINVALUE 1 and
    has not been called. *)
Definition serial : sequence :=
  {| seq_min := 1; last_value := 1; is_called := false |}.

Definition nextval (s : sequence) : Z * sequence :=
  let v := if is_called s then last_value s + 1 else last_value s in
  (v, {| seq_min := seq_min s; last_value := v; is_called := true |}).

(** [setval(seq, v, called)]: a value below the minimum is refused with
    "setval: value v is out of bounds for sequence". *)
Definition setval (s : sequence) (v : Z) (called : bool) : option sequence :=
  if decide (v < seq_min s) then None
  else Some {| seq_min := seq_min s; last_value := v; is_called := called |}.

(** *** Tables *)

Record document := Document {
  doc_id : Z;
  doc_filename : string;
  doc_content : text
}.

Record documents_table := DocumentsTable {
  doc_rows : list document;
  documents_id_seq : sequence
}.

(** A row of [analyses]; the six JSONB columns play no part in the loader. *)
Record analysis := Analysis {
  analysis_id : Z;
  document_id : Z
}.

Record database := Database {
  documents : option documents_table;
  analyses : option (list analysis);
  idx_analyses_document_id : bool
}.

Definition empty_database : database :=
  {| documents := None; analyses := None; idx_analyses_document_id := false |}.

#[global] Instance document_eq_dec : EqDecision document.
Proof. solve_decision. Defined.

(** [SELECT COALESCE(MAX(id), 0) FROM documents]: the maximum is NULL on a
    table without rows, which [COALESCE] turns into 0. *)
Definition coalesce_max_id (rows : list document) : Z :=
  match rows with
  | [] => 0
  | r :: rest => foldr (λ r' m, Z.max (doc_id r') m) (doc_id r) rest
  end.

Definition set_content (fn : string) (c : text) (r : document) : document :=
  if decide (doc_filename r = fn)
  then {| doc_id := doc_id r; doc_filename := fn; doc_content := c |}
  else r.

(** [INSERT INTO documents (filename, content) VALUES (fn, c)
     ON CONFLICT (filename) DO UPDATE SET content = EXCLUDED.content].

    The default of [id] is evaluated first, so a value is drawn from the
    sequence on every execution, also when the row then conflicts on
    [filename] and is updated instead.  A conflict on the primary key is not
    arbitrated by [ON CONFLICT (filename)] and fails the statement.  That
    the server refuses a text holding U+0000 is not modelled for this
    statement. *)
Definition upsert_document (fn : string) (c : text) (t : documents_table)
  : option pg_error * documents_table :=
  let '(id, seq') := nextval (documents_id_seq t) in
  if decide (fn ∈ doc_filename <$> doc_rows t) then
    (None, {| doc_rows := set_content fn c <$> doc_rows t;
              documents_id_seq := seq' |})
  else if decide (id ∈ doc_id <$> doc_rows t) then
    (Some UniqueViolation, {| doc_rows := doc_rows t; documents_id_seq := seq' |})
  else
    (None, {| doc_rows := doc_rows t ++ [Document id fn c];
              documents_id_seq := seq' |}).

(** *** Statements and their results *)

Inductive sqlval :=
  | SqlNull
  | SqlBool (b : bool)
  | SqlInt (z : Z).

Definition row := list sqlval.

(** The rows a statement returns; [fetchone] takes the first. *)
Definition cursor := list row.

Definition fetchone (res : cursor) : option row := head res.

Definition session := nat.

(** The statements [db_loader.py] sends, with their bound parameters. *)
Inductive statement :=
  | SelectTryAdvisoryLock (k : Z)
  | CreateTableDocuments
  | CreateTableAnalyses
  | CreateIndexAnalysesDocumentId
  | UpsertDocument (fn : string) (content : text)
  | SelectCoalesceMaxId
  | SelectSetval (val : Z).

#[global] Instance statement_eq_dec : EqDecision statement.
Proof. solve_decision. Defined.

(** [pg_try_advisory_lock(k)] is a session-level lock: it is granted when the
    key is free or already held by the asking session, and it is held until
    that session unlocks it or ends; neither commit nor rollback releases
    it. *)
Definition try_advisory_lock (s : session) (k : Z) (locks : gmap Z session)
  : bool * gmap Z session :=
  match locks !! k with
  | None => (true, <[k := s]> locks)
  | Some holder => (bool_decide (holder = s), locks)
  end.

(** One statement of session [s] against the database it sees. *)
Definition exec_statement (s : session) (st : statement)
    (db : database) (locks : gmap Z session)
  : (pg_error + cursor) * database * gmap Z session :=
  match st with
  | SelectTryAdvisoryLock k =>
      let '(granted, locks') := try_advisory_lock s k locks in
      (inr [[SqlBool granted]], db, locks')
  | CreateTableDocuments =>
      match documents db with
      | Some _ => (inr [], db, locks)
      | None =>
          (inr [],
           {| documents := Some {| doc_rows := []; documents_id_seq := serial |};
              analyses := analyses db;
              idx_analyses_document_id := idx_analyses_document_id db |},
           locks)
      end
  | CreateTableAnalyses =>
      match analyses db, documents db with
      | Some _, _ => (inr [], db, locks)
      | None, None => (inl UndefinedTable, db, locks)
      | None, Some _ =>
          (inr [],
           {| documents := documents db;
              analyses := Some [];
              idx_analyses_document_id := idx_analyses_document_id db |},
           locks)
      end
  | CreateIndexAnalysesDocumentId =>
      match analyses db with
      | None => (inl UndefinedTable, db, locks)
      | Some _ =>
          (inr [],
           {| documents := documents db;
              analyses := analyses db;
              idx_analyses_document_id := true |},
           locks)
      end
  | UpsertDocument fn content =>
      match documents db with
      | None => (inl UndefinedTable, db, locks)
      | Some t =>
          let '(err, t') := upsert_document fn content t in
          (match err with Some e => inl e | None => inr [] end,
           {| documents := Some t';
              analyses := analyses db;
              idx_analyses_document_id := idx_analyses_document_id db |},
           locks)
      end
  | SelectCoalesceMaxId =>
      match documents db with
      | None => (inl UndefinedTable, db, locks)
      | Some t => (inr [[SqlInt (coalesce_max_id (doc_rows t))]], db, locks)
      end
  | SelectSetval val =>
      match documents db with
      | None => (inl UndefinedTable, db, locks)
      | Some t =>
          match setval (documents_id_seq t) val true with
          | None => (inl NumericValueOutOfRange, db, locks)
          | Some seq' =>
              (inr [[SqlInt val]],
               {| documents := Some {| doc_rows := doc_rows t;
                                       documents_id_seq := seq' |};
                  analyses := analyses db;
                  idx_analyses_document_id := idx_analyses_document_id db |},
               locks)
          end
      end
  end.

(** *** Transactions

    A transaction that has written nothing sees what is committed and
    commits nothing.  With its first write it gets its own version of the
    database, which it sees from then on and which replaces the committed
    one at commit.  A rollback drops that version, except for what sequences
    have handed out: "the value obtained by nextval is not reclaimed for
    re-use if the calling transaction later aborts", and likewise for setval;
    a sequence created by the transaction itself disappears with its table.
    The loader lets one session at a time write, behind the advisory lock;
    conflicts between transactions that write at the same time are not
    modelled. *)
Record server := Server {
  committed : database;
  open_txn : gmap session (option database);
  advisory_locks : gmap Z session
}.

Definition keep_sequences (before now : database) : database :=
  match documents before, documents now with
  | Some t0, Some t1 =>
      {| documents := Some {| doc_rows := doc_rows t0;
                              documents_id_seq := documents_id_seq t1 |};
         analyses := analyses before;
         idx_analyses_document_id := idx_analyses_document_id before |}
  | _, _ => before
  end.

(** The database as session [s] sees it. *)
Definition view (srv : server) (s : session) : database :=
  match open_txn srv !! s with
  | Some (Some db) => db
  | _ => committed srv
  end.

(** Statements that change the database; the two plain queries do not. *)
Definition writes (st : statement) : bool :=
  match st with
  | SelectTryAdvisoryLock _ | SelectCoalesceMaxId => false
  | _ => true
  end.

Definition begin_txn (s : session) (srv : server) : server :=
  {| committed := committed srv;
     open_txn := <[s := None]> (open_txn srv);
     advisory_locks := advisory_locks srv |}.

Definition commit_txn (s : session) (srv : server) : server :=
  match open_txn srv !! s with
  | Some version =>
      {| committed := default (committed srv) version;
         open_txn := delete s (open_txn srv);
         advisory_locks := advisory_locks srv |}
  | None => srv
  end.

Definition rollback_txn (s : session) (srv : server) : server :=
  match open_txn srv !! s with
  | Some version =>
      {| committed := match version with
                      | Some db => keep_sequences (committed srv) db
                      | None => committed srv
                      end;
         open_txn := delete s (open_txn srv);
         advisory_locks := advisory_locks srv |}
  | None => srv
  end.

(** A statement inside an open transaction changes the session's version;
    outside one it is its own transaction. *)
Definition server_execute (s : session) (st : statement) (srv : server)
  : (pg_error + cursor) * server :=
  let '(resp, db', locks') := exec_statement s st (view srv s) (advisory_locks srv) in
  match open_txn srv !! s with
  | Some version =>
      (resp, {| committed := committed srv;
                open_txn := <[s := if writes st then Some db' else version]>
                              (open_txn srv);
                advisory_locks := locks' |})
  | None =>
      (resp, {| committed := match resp with
                             | inr _ => db'
                             | inl _ => keep_sequences (committed srv) db'
                             end;
                open_txn := open_txn srv;
                advisory_locks := locks' |})
  end.

(** ** The process running the loader *)

(** The engine created by [create_async_engine]; a connection taken from it
    is a session of the server, and the pool keeps that session open after
    the connection is given back. *)
Record AsyncEngine := { engine_session : session }.

Abbreviation connection := session (only parsing).

(** The records [logger] receives. *)
Inductive log_record :=
  | InfoAnotherWorker       (* "Another worker already initialized the DB, skipping." *)
  | WarningNoTextDirectory  (* "Text directory %s does not exist or is not a directory." *)
  | WarningNonUtf8 (file : string)  (* "Skipping non-UTF-8 file: %s" *)
  | InfoInitialized.        (* "Database initialized and TXT files loaded successfully." *)

(** - [_engine] is the module-level variable of [db_loader.py];
    - [text_dir] is what the process finds at [TEXT_DIR];
    - [conn_budget] is the number of statements its connection still
      carries before it breaks ([None]: it never breaks); what the server
      does once the connection is lost (it ends the session, and with it the
      advisory locks of the session) is not modelled, and the properties
      about the lock a call leaves behind are about connections that do not
      break;
    - [issued] lists the statements that reached the server. *)
Record process := Process {
  _engine : option AsyncEngine;
  text_dir : path_state;
  log : list log_record;
  conn_budget : option nat;
  issued : list statement
}.

Definition world : Type := process * server.

(** The requests a program makes to its environment, indexed by the type of
    the answer. *)
Inductive event : Type → Type :=
  | GetEngine : event (option AsyncEngine)
  | SetEngine (e : AsyncEngine) : event unit
  | Begin (e : AsyncEngine) : event connection
  | Commit (c : connection) : event unit
  | Rollback (c : connection) : event unit
  | Execute (c : connection) (st : statement) : event (pg_error + cursor)
  | PathExists : event bool
  | PathIsDir : event bool
  | PathGlob : event (list string)
  | ReadText (name : string) : event (exn + text)
  | Log (r : log_record) : event unit.

Definition with_engine (e : option AsyncEngine) (p : process) : process :=
  {| _engine := e; text_dir := text_dir p; log := log p;
     conn_budget := conn_budget p; issued := issued p |}.

Definition with_log (r : log_record) (p : process) : process :=
  {| _engine := _engine p; text_dir := text_dir p; log := log p ++ [r];
     conn_budget := conn_budget p; issued := issued p |}.

Definition with_issued (st : statement) (p : process) : process :=
  {| _engine := _engine p; text_dir := text_dir p; log := log p;
     conn_budget := pred <$> conn_budget p; issued := issued p ++ [st] |}.

Definition handle {R} (ev : event R) (w : world) : R * world :=
  let '(p, srv) := w in
  match ev in event R return R * world with
  | GetEngine => (_engine p, w)
  | SetEngine e => (tt, (with_engine (Some e) p, srv))
  | Begin e => (engine_session e, (p, begin_txn (engine_session e) srv))
  | Commit c => (tt, (p, commit_txn c srv))
  | Rollback c => (tt, (p, rollback_txn c srv))
  | Execute c st =>
      match conn_budget p with
      | Some O => (inl ConnectionFailure, w)
      | _ =>
          let '(resp, srv') := server_execute c st srv in
          (resp, (with_issued st p, srv'))
      end
  | PathExists => (path_exists (text_dir p), w)
  | PathIsDir => (path_is_dir (text_dir p), w)
  | PathGlob => (path_glob (text_dir p), w)
  | ReadText name => (read_text (path_lookup (text_dir p) name), w)
  | Log r => (tt, (with_log r p, srv))
  end.

(** ** Programs *)

Inductive prog (A : Type) : Type :=
  | Ret (a : A)
  | Raise (e : exn)
  | Vis {R : Type} (ev : event R) (k : R → prog A).

Arguments Ret {A} a.
Arguments Raise {A} e.
Arguments Vis {A R} ev k.

Fixpoint bind {A B} (m : prog A) (f : A → prog B) : prog B :=
  match m with
  | Ret a => f a
  | Raise e => Raise e
  | Vis ev k => Vis ev (λ r, bind (k r) f)
  end.

#[global] Instance prog_ret : MRet prog := @Ret.
#[global] Instance prog_bind : MBind prog := λ A B f m, bind m f.

Definition trigger {R} (ev : event R) : prog R := Vis ev Ret.

(** How a Python block ends when it does not raise: by falling off its end
    or by a [return]. *)
Inductive completion (V : Type) :=
  | Normal
  | Return (v : V).

Arguments Normal {V}.
Arguments Return {V} v.

(** [try: body  except: handler]-like continuation on both ways out. *)
Fixpoint on_exit {A B} (body : prog A)
    (normal : A → prog B) (exceptional : exn → prog B) : prog B :=
  match body with
  | Ret a => normal a
  | Raise e => exceptional e
  | Vis ev k => Vis ev (λ r, on_exit (k r) normal exceptional)
  end.

Inductive outcome (A : Type) :=
  | Returns (a : A)
  | Raises (e : exn).

Arguments Returns {A} a.
Arguments Raises {A} e.

(** One invocation, run to completion. *)
Fixpoint run {A} (m : prog A) (w : world) : outcome A * world :=
  match m with
  | Ret a => (Returns a, w)
  | Raise e => (Raises e, w)
  | Vis ev k => let '(r, w') := handle ev w in run (k r) w'
  end.

(** ** [db_loader.py] *)

Inductive pyval :=
  | PyNone
  | PyBool (b : bool)
  | PyInt (z : Z).

Definition DB_INIT_ADVISORY_LOCK_KEY : Z := 1234567890.

Definition set_engine (engine : AsyncEngine) : prog pyval :=
  trigger (SetEngine engine);;
  Ret PyNone.

(** [await conn.execute(text(...), params)]: an error of the server is raised
    as an exception. *)
Definition execute (conn : connection) (st : statement) : prog cursor :=
  resp ← trigger (Execute conn st);
  match resp with
  | inr res => Ret res
  | inl e => Raise (DBAPIError e)
  end.

(** [async with engine.begin() as conn: body]: commit when the block is left
    normally (a [return] included), roll back and re-raise when it is left by
    an exception. *)
Definition engine_begin {A} (engine : AsyncEngine) (body : connection → prog A)
  : prog A :=
  conn ← trigger (Begin engine);
  on_exit (body conn)
    (λ a, trigger (Commit conn);; Ret a)
    (λ e, trigger (Rollback conn);; Raise e).

(** [bool(x)] on what a cell of a row can hold. *)
Definition py_bool (v : sqlval) : bool :=
  match v with
  | SqlNull => false
  | SqlBool b => b
  | SqlInt z => negb (z =? 0)
  end.

Definition _set_documents_sequence (conn : connection) : prog unit :=
  res ← execute conn SelectCoalesceMaxId;
  let max_id_row := fetchone res in
  let max_id :=
    match max_id_row with
    | Some (SqlInt z :: _) => z
    | Some (SqlBool b :: _) => Z.b2z b
    | _ => 0
    end in
  execute conn (SelectSetval max_id);;
  Ret tt.

(** The body of [for file in sorted(TEXT_DIR.glob("*.txt"))]. *)
Fixpoint load_files (conn : connection) (files : list string) : prog unit :=
  match files with
  | [] => Ret tt
  | file :: rest =>
      r ← trigger (ReadText file);
      match r with
      | inl UnicodeDecodeError =>
          trigger (Log (WarningNonUtf8 file));;
          load_files conn rest
      | inl e => Raise e
      | inr content =>
          execute conn (UpsertDocument file content);;
          load_files conn rest
      end
  end.

Definition load_corpus (conn : connection) : prog unit :=
  ex ← trigger PathExists;
  is_dir ← (if ex then trigger PathIsDir else Ret false);
  if negb ex || negb is_dir then
    trigger (Log WarningNoTextDirectory)
  else
    files ← trigger PathGlob;
    load_files conn (sorted files).

(** What the [async with] block does once the lock is held. *)
Definition initialise (conn : connection) : prog (completion pyval) :=
  execute conn CreateTableDocuments;;
  execute conn CreateTableAnalyses;;
  execute conn CreateIndexAnalysesDocumentId;;
  load_corpus conn;;
  _set_documents_sequence conn;;
  Ret Normal.

(** The block under [async with _engine.begin() as conn], from the answer to
    the lock query on. *)
Definition on_lock_answer (conn : connection) (res : cursor)
  : prog (completion pyval) :=
  let locked_row := fetchone res in
  let locked :=
    match locked_row with
    | Some (v :: _) => match v with SqlNull => false | _ => py_bool v end
    | _ => false
    end in
  if negb locked then
    trigger (Log InfoAnotherWorker);;
    Ret (Return PyNone)
  else
    initialise conn.

(** The block under [async with _engine.begin() as conn]. *)
Definition bootstrap_block (conn : connection) : prog (completion pyval) :=
  res ← execute conn (SelectTryAdvisoryLock DB_INIT_ADVISORY_LOCK_KEY);
  on_lock_answer conn res.

Definition engine_not_set : string :=
  "DB engine not set. Call set_engine(engine) before load_txt_files_to_db().".

Definition load_txt_files_to_db : prog pyval :=
  engine ← trigger GetEngine;
  match engine with
  | None => Raise (RuntimeError engine_not_set)
  | Some _engine =>
      c ← engine_begin _engine bootstrap_block;
      match c with
      | Return v => Ret v
      | Normal =>
          trigger (Log InfoInitialized);;
          Ret PyNone
      end
  end.

(** ** Replicas starting together

    Each replica is a process of its own running a program; the server is
    shared.  A schedule names, step after step, the replica that makes its
    next request. *)
Record replica := Replica {
  proc : process;
  code : prog pyval
}.

Record cluster := Cluster {
  replicas : list replica;
  store : server
}.

Definition step (r : replica) (srv : server) : replica * server :=
  match code r with
  | Vis ev k =>
      let '(a, (p', srv')) := handle ev (proc r, srv) in
      ({| proc := p'; code := k a |}, srv')
  | _ => (r, srv)
  end.

Definition sched_step (c : cluster) (i : nat) : cluster :=
  match replicas c !! i with
  | Some r =>
      let '(r', srv') := step r (store c) in
      {| replicas := <[i := r']> (replicas c); store := srv' |}
  | None => c
  end.

Definition sched (schedule : list nat) (c : cluster) : cluster :=
  foldl sched_step c schedule.

(** A process at its start: the engine is set, nothing is logged or issued,
    and the connection never breaks. *)
Definition fresh_process (e : AsyncEngine) (dir : path_state) : process :=
  {| _engine := Some e; text_dir := dir; log := [];
     conn_budget := None; issued := [] |}.

(** [launch engines dirs srv]: one replica for every engine, each with its
    own corpus directory, all about to call [load_txt_files_to_db] on the
    server [srv]. *)
Definition launch (engines : list AsyncEngine) (dirs : list path_state)
    (srv : server) : cluster :=
  {| replicas :=
       zip_with (λ e d, {| proc := fresh_process e d;
                           code := load_txt_files_to_db |}) engines dirs;
     store := srv |}.

(** ** Vocabulary of the properties *)

(** *** What the database holds *)

(** The content of the tables and the existence of the index: the database
    without the state of its sequences. *)
Definition tables (db : database)
  : option (list document) * option (list analysis) * bool :=
  (doc_rows <$> documents db, analyses db, idx_analyses_document_id db).

Definition with_documents (t : documents_table) (db : database) : database :=
  {| documents := Some t;
     analyses := analyses db;
     idx_analyses_document_id := idx_analyses_document_id db |}.

(** The rows of [documents] that a connection sees. *)
Definition rows_seen (w : world) (c : connection) : option (list document) :=
  doc_rows <$> documents (view w.2 c).

(** The identifier and the file name of every row, in table order. *)
Definition row_keys (rows : list document) : list (Z * string) :=
  (λ r, (doc_id r, doc_filename r)) <$> rows.

(** The file [name] of directory [dir] is in the rows, with its text. *)
Definition stored (dir : path_state) (rows : list document) (name : string) : Prop :=
  ∀ content, read_text (path_lookup dir name) = inr content →
    name ∈ doc_filename <$> rows ∧
    ∀ r, r ∈ rows → doc_filename r = name → doc_content r = content.

(** What a session leaves committed when it replays statements one after the
    other on a database and a lock table. *)
Definition replay (s : session) (sts : list statement)
    (st0 : database * gmap Z session) : database * gmap Z session :=
  foldl (λ acc st,
           let '(_, db', locks') := exec_statement s st acc.1 acc.2 in
           (db', locks'))
        st0 sts.

(** The database after the three [CREATE ... IF NOT EXISTS] statements. *)
Definition create_schema (db : database) : database :=
  {| documents :=
       Some (default {| doc_rows := []; documents_id_seq := serial |} (documents db));
     analyses := Some (default [] (analyses db));
     idx_analyses_document_id := true |}.

(** *** The requests of a program *)

(** Every request of a program satisfies [P], whatever the answers. *)
Inductive all_events (P : ∀ R, event R → Prop) {A} : prog A → Prop :=
  | all_events_Ret a : all_events P (Ret a)
  | all_events_Raise e : all_events P (Raise e)
  | all_events_Vis R (ev : event R) k :
      P R ev → (∀ r, all_events P (k r)) → all_events P (Vis ev k).

(** Requests a block may make while it is inside the transaction of
    session [s]. *)
Definition in_session (s : session) (R : Type) (ev : event R) : Prop :=
  match ev with
  | Execute c _ => c = s
  | Begin _ | Commit _ | Rollback _ | SetEngine _ => False
  | _ => True
  end.

(** Requests that do not look at the corpus directory. *)
Definition fs_free (R : Type) (ev : event R) : Prop :=
  match ev with
  | PathExists | PathIsDir | PathGlob | ReadText _ => False
  | _ => True
  end.

(** Requests of a routine that owns session [s] and no other. *)
Definition disciplined (s : session) (R : Type) (ev : event R) : Prop :=
  match ev with
  | Begin e => engine_session e = s
  | Commit c | Rollback c | Execute c _ => c = s
  | SetEngine _ => False
  | _ => True
  end.

(** Errors that come from the server or from the file system. *)
Definition environment_error (ex : exn) : Prop :=
  ex = OSError ∨ ∃ e, ex = DBAPIError e.

(** How a program that has come to its end has ended. *)
Definition result_of {A} (m : prog A) : option (outcome A) :=
  match m with
  | Ret a => Some (Returns a)
  | Raise e => Some (Raises e)
  | Vis _ _ => None
  end.

(** *** The statements of an attempt *)

(** The upserts a load of directory [dir] sends: one for every matching name,
    in sorted order, whose file can be read and decoded. *)
Definition corpus_upserts (dir : path_state) : list statement :=
  omap (λ name,
          match read_text (path_lookup dir name) with
          | inr content => Some (UpsertDocument name content)
          | inl _ => None
          end)
       (sorted (path_glob dir)).

(** The statements of an attempt that holds the lock and reaches its end;
    [m] is the value handed to [setval]. *)
Definition full_sequence (dir : path_state) (m : Z) : list statement :=
  [SelectTryAdvisoryLock DB_INIT_ADVISORY_LOCK_KEY;
   CreateTableDocuments; CreateTableAnalyses; CreateIndexAnalysesDocumentId]
  ++ corpus_upserts dir
  ++ [SelectCoalesceMaxId; SelectSetval m].

(** The table of documents a load over [files] produces from table [t], and
    the error that stops it, if any; [run_load_files] shows that this is what
    the loop of [load_files] does inside a transaction. *)
Fixpoint load_table (dir : path_state) (files : list string) (t : documents_table)
  : option exn * documents_table :=
  match files with
  | [] => (None, t)
  | file :: rest =>
      match read_text (path_lookup dir file) with
      | inl UnicodeDecodeError => load_table dir rest t
      | inl e => (Some e, t)
      | inr content =>
          match upsert_document file content t with
          | (Some e, t') => (Some (DBAPIError e), t')
          | (None, t') => load_table dir rest t'
          end
      end
  end.

(** *** Inside a transaction *)

(** What a block knows about the world while it runs inside the transaction
    of session [s], begun on server [srv0] by process [p0]: the committed
    database and the other transactions are untouched, and the session sees
    the effect of the statements it has issued since. *)
Definition inside (s : session) (p0 : process) (srv0 : server) (w : world) : Prop :=
  _engine w.1 = _engine p0 ∧
  text_dir w.1 = text_dir p0 ∧
  committed w.2 = committed srv0 ∧
  (∀ s', s' ≠ s → open_txn w.2 !! s' = open_txn srv0 !! s') ∧
  is_Some (open_txn w.2 !! s) ∧
  ∃ sts,
    issued w.1 = issued p0 ++ sts ∧
    view w.2 s = (replay s sts (view srv0 s, advisory_locks srv0)).1 ∧
    advisory_locks w.2 = (replay s sts (view srv0 s, advisory_locks srv0)).2.

(** *** Two runs side by side *)

(** Two processes that differ only in the entry [name] of their corpus
    directory, present for the first and absent for the second, and in what
    they have logged. *)
Definition differ_at (name : string) (entries : gmap string dir_entry)
    (pA pB : process) : Prop :=
  text_dir pA = Directory entries ∧
  text_dir pB = Directory (delete name entries) ∧
  _engine pA = _engine pB ∧
  conn_budget pA = conn_budget pB ∧
  issued pA = issued pB.

(** Two runs that end alike: same outcome, same server, same statements. *)
Definition alike {A} (rel : process → process → Prop)
    (rA rB : outcome A * world) : Prop :=
  rA.1 = rB.1 ∧ rA.2.2 = rB.2.2 ∧ rel rA.2.1 rB.2.1.

(** The process [p] with the entry [name] taken out of its corpus
    directory. *)
Definition without_file (name : string) (p : process) : process :=
  {| _engine := _engine p;
     text_dir := match text_dir p with
                 | Directory entries => Directory (delete name entries)
                 | d => d
                 end;
     log := log p;
     conn_budget := conn_budget p;
     issued := issued p |}.

(** Two servers that session [s] cannot tell apart. *)
Definition same_for (s : session) (srv srv' : server) : Prop :=
  committed srv = committed srv' ∧
  advisory_locks srv = advisory_locks srv' ∧
  open_txn srv !! s = open_txn srv' !! s.

Definition alike_for {A} (s : session) (rA rB : outcome A * world) : Prop :=
  rA.1 = rB.1 ∧ rA.2.1 = rB.2.1 ∧ same_for s rA.2.2 rB.2.2.

(** *** The routine at its successive requests

    [load_txt_files_to_db] asks for the engine, begins, asks for the lock;
    a replica that is refused logs, commits and returns. *)

(** What follows the [async with] block. *)
Definition after_block (c : completion pyval) : prog pyval :=
  match c with
  | Return v => Ret v
  | Normal =>
      trigger (Log InfoInitialized);;
      Ret PyNone
  end.

Definition in_block (s : session) (body : prog (completion pyval)) : prog pyval :=
  c ← on_exit body
        (λ a, trigger (Commit s);; Ret a)
        (λ ex, trigger (Rollback s);; Raise ex);
  after_block c.

Definition after_engine (e : AsyncEngine) : prog pyval :=
  c ← engine_begin e bootstrap_block;
  after_block c.

Definition after_begin (s : session) : prog pyval :=
  in_block s (bootstrap_block s).

Definition after_lock (s : session) (resp : pg_error + cursor) : prog pyval :=
  in_block s
    (res ← match resp with
           | inr res => Ret res
           | inl e => Raise (DBAPIError e)
           end;
     on_lock_answer s res).

Definition refused_commit (s : session) : prog pyval :=
  Vis (Commit s) (λ _, Ret PyNone).

Definition refused_log (s : session) : prog pyval :=
  Vis (Log InfoAnotherWorker) (λ _, refused_commit s).

(** Where a replica that does not hold the lock can be. *)
Inductive waiting :=
  | AtStart
  | AfterEngine
  | AfterBegin
  | Refused
  | RefusedLogged
  | Finished.

Definition waiting_code (e : AsyncEngine) (ph : waiting) : prog pyval :=
  match ph with
  | AtStart => load_txt_files_to_db
  | AfterEngine => after_engine e
  | AfterBegin => after_begin (engine_session e)
  | Refused => refused_log (engine_session e)
  | RefusedLogged => refused_commit (engine_session e)
  | Finished => Ret PyNone
  end.

Definition waiting_proc (p0 : process) (ph : waiting) : process :=
  match ph with
  | AtStart | AfterEngine | AfterBegin => p0
  | Refused => with_issued (SelectTryAdvisoryLock DB_INIT_ADVISORY_LOCK_KEY) p0
  | RefusedLogged | Finished =>
      with_log InfoAnotherWorker
        (with_issued (SelectTryAdvisoryLock DB_INIT_ADVISORY_LOCK_KEY) p0)
  end.

Definition in_transaction (ph : waiting) : bool :=
  match ph with
  | AfterBegin | Refused | RefusedLogged => true
  | _ => false
  end.

Definition was_refused (ph : waiting) : bool :=
  match ph with
  | Refused | RefusedLogged | Finished => true
  | _ => false
  end.

(** A replica with engine [e] and directory [dir] that does not hold the
    lock, on server [srv]. *)
Definition bystander (e : AsyncEngine) (dir : path_state) (srv : server)
    (r : replica) : Prop :=
  ∃ ph,
    proc r = waiting_proc (fresh_process e dir) ph ∧
    code r = waiting_code e ph ∧
    advisory_locks srv !! DB_INIT_ADVISORY_LOCK_KEY ≠ Some (engine_session e) ∧
    (in_transaction ph = true → open_txn srv !! engine_session e = Some None) ∧
    (was_refused ph = true →
       is_Some (advisory_locks srv !! DB_INIT_ADVISORY_LOCK_KEY)).

(** A replica that holds the lock: from where it is, it ends as it would
    have ended running alone on the server [srv0] of the launch. *)
Definition winner (e : AsyncEngine) (dir : path_state) (srv0 srv : server)
    (r : replica) : Prop :=
  advisory_locks srv !! DB_INIT_ADVISORY_LOCK_KEY = Some (engine_session e) ∧
  all_events (disciplined (engine_session e)) (code r) ∧
  alike_for (engine_session e)
    (run (code r) (proc r, srv))
    (run load_txt_files_to_db (fresh_process e dir, srv0)).

(** What holds of a cluster at every moment after its launch. *)
Definition launched (engines : list AsyncEngine) (dirs : list path_state)
    (srv0 : server) (c : cluster) : Prop :=
  (advisory_locks (store c) !! DB_INIT_ADVISORY_LOCK_KEY = None →
     committed (store c) = committed srv0 ∧
     advisory_locks (store c) = advisory_locks srv0) ∧
  (∀ h, advisory_locks (store c) !! DB_INIT_ADVISORY_LOCK_KEY = Some h →
     ∃ w e, engines !! w = Some e ∧ engine_session e = h ∧
            is_Some (replicas c !! w)) ∧
  (∀ i r, replicas c !! i = Some r →
     ∃ e d, engines !! i = Some e ∧ dirs !! i = Some d ∧
            (bystander e d (store c) r ∨ winner e d srv0 (store c) r)).

(** *** The call that holds the lock *)

(** What a bootstrap that holds the lock makes of the database it finds, or
    the error that stops it; [run_load_granted] shows that this is what
    [load_txt_files_to_db] commits. *)
Definition bootstrap_database (dir : path_state) (db : database) : exn + database :=
  let t0 := default {| doc_rows := []; documents_id_seq := serial |} (documents db) in
  match load_table dir (sorted (path_glob dir)) t0 with
  | (Some ex, _) => inl ex
  | (None, t1) =>
      match setval (documents_id_seq t1) (coalesce_max_id (doc_rows t1)) true with
      | None => inl (DBAPIError NumericValueOutOfRange)
      | Some seq' =>
          inr (with_documents {| doc_rows := doc_rows t1; documents_id_seq := seq' |}
                 (create_schema db))
      end
  end.

(** The name and the text an upsert carries. *)
Definition upsert_of (st : statement) : option (string * text) :=
  match st with
  | UpsertDocument fn content => Some (fn, content)
  | _ => None
  end.

(** The warnings of a load of directory [dir]. *)
Definition corpus_warnings (dir : path_state) : list log_record :=
  if path_exists dir && path_is_dir dir then
    omap (λ name,
            match read_text (path_lookup dir name) with
            | inl UnicodeDecodeError => Some (WarningNonUtf8 name)
            | _ => None
            end)
         (sorted (path_glob dir))
  else [WarningNoTextDirectory].

(** The lock is free or held by session [s] itself. *)
Definition grantable (s : session) (locks : gmap Z session) : Prop :=
  ∀ h, locks !! DB_INIT_ADVISORY_LOCK_KEY = Some h → h = s.

(** *** Coming to an end *)

(** [ends_within d n m]: run by a process whose corpus directory is [d], the
    program [m] comes to its end after at most [n] requests, whatever the
    server answers. *)
Fixpoint ends_within {A} (d : path_state) (n : nat) (m : prog A) {struct m}
  : Prop :=
  match m with
  | Vis ev k =>
      match n with
      | O => False
      | S n' =>
          ∀ p srv, text_dir p = d → ends_within d n' (k (handle ev (p, srv)).1)
      end
  | _ => True
  end.

(** The requests [load_txt_files_to_db] makes at most. *)
Definition load_bound (d : path_state) : nat :=
  (13 + 2 * length (path_glob d))%nat.

(** How often replica [i] is scheduled. *)
Definition turns (i : nat) (schedule : list nat) : nat :=
  length (filter (λ j, j = i) schedule).

(** ** Text going out: [str.encode("utf-8")] *)

(** A code point a Python [str] can be encoded from: not a surrogate, and not
    above 10FFFF. *)
Definition is_scalar_value (c : N) : bool :=
  ((c <? 0xD800) || (0xDFFF <? c))%N && (c <=? 0x10FFFF)%N.

Definition encode_code_point (c : N) : list N :=
  if (c <? 0x80)%N then [c]
  else if (c <? 0x800)%N then
    [N.lor 0xC0 (N.shiftr c 6); N.lor 0x80 (low_bits 6 c)]
  else if (c <? 0x10000)%N then
    [N.lor 0xE0 (N.shiftr c 12); N.lor 0x80 (low_bits 6 (N.shiftr c 6));
     N.lor 0x80 (low_bits 6 c)]
  else
    [N.lor 0xF0 (N.shiftr c 18); N.lor 0x80 (low_bits 6 (N.shiftr c 12));
     N.lor 0x80 (low_bits 6 (N.shiftr c 6)); N.lor 0x80 (low_bits 6 c)].

(** The strict ["utf-8"] codec, encoding: [None] stands for
    [UnicodeEncodeError]. *)
Fixpoint utf8_encode (cs : text) : option (list N) :=
  match cs with
  | [] => Some []
  | c :: rest =>
      if is_scalar_value c
      then app (encode_code_point c) <$> utf8_encode rest
      else None
  end.

(** ** The range of identifiers, and of the characters of a header *)

(** The values of the type [integer] of PostgreSQL: the column
    [documents.id], the column [analyses.document_id], and the sequence
    behind a [SERIAL] column, whose MAXVALUE is [int4_max].  The model of the
    server above leaves identifiers unbounded; where a property would reach
    past this range, the range is its hypothesis. *)
Definition int4_min : Z := -2147483648.
Definition int4_max : Z := 2147483647.

Definition int4 (z : Z) : Prop := int4_min ≤ z ≤ int4_max.

#[global] Instance int4_dec (z : Z) : Decision (int4 z).
Proof. unfold int4. apply _. Defined.

(** The bytes of a file name. *)
Fixpoint string_bytes (s : string) : list N :=
  match s with
  | EmptyString => []
  | String a rest => Ascii.N_of_ascii a :: string_bytes rest
  end.

(** A file name is kept as the bytes of its UTF-8 encoding.  The name of a
    file on disk need not be UTF-8: Python then carries the offending bytes
    as lone surrogates, and orders the names by their code points, which is
    the order of the bytes for the names that are UTF-8. *)
Definition utf8_name (name : string) : Prop :=
  is_Some (utf8_decode (string_bytes name)).

(** [name.encode("latin-1")] succeeds: every character of the name has a
    code below 256.  This is what Starlette does to the value of a header. *)
Definition latin1_encodable (name : string) : bool :=
  match utf8_decode (string_bytes name) with
  | Some cs => forallb (λ c, (c <=? 0xFF)%N) cs
  | None => false
  end.

(** ** [main.py]: the application around the loader *)

(** *** File names *)

(** File names are strings of bytes, as in the loader. *)
Definition lower_ascii (a : Ascii.ascii) : Ascii.ascii :=
  let n := Ascii.N_of_ascii a in
  if in_range 65 90 n then Ascii.ascii_of_N (n + 32) else a.

Fixpoint string_map (f : Ascii.ascii → Ascii.ascii) (s : string) : string :=
  match s with
  | EmptyString => EmptyString
  | String a rest => String (f a) (string_map f rest)
  end.

(** [name.lower().endswith(".txt")].  Only the last four characters count,
    and the only characters that [str.lower] maps to a character of [".txt"]
    are those characters and the capitals T and X. *)
Definition lower_endswith_txt (name : string) : bool :=
  matches_txt
    (string_map lower_ascii
       (String.substring (String.length name - 4) 4 name)).

Definition slash : Ascii.ascii := Ascii.ascii_of_nat 47.

Fixpoint has_slash (name : string) : bool :=
  match name with
  | EmptyString => false
  | String a rest => Ascii.eqb a slash || has_slash rest
  end.

(** [name.rsplit("/", 1)[-1]]: what follows the last slash, the whole name
    when it has none. *)
Fixpoint rsplit_slash_last (name : string) : string :=
  match name with
  | EmptyString => EmptyString
  | String a rest =>
      if has_slash rest then rsplit_slash_last rest
      else if Ascii.eqb a slash then rest
      else name
  end.

(** *** Exceptions *)

(** What [main.py] raises or lets through: the exceptions of the loader, the
    errors of the two codecs and of the server on a value it cannot store,
    and the HTTP errors it answers with. *)
Inductive exception :=
  | Exn (e : exn)
  | DataError                (* asyncpg's DataError: a value the driver or
                                the server does not take for its parameter *)
  | UnicodeEncodeError
  | HTTPException (status_code : nat) (detail : string).

(** *** The statements of [main.py]

    Each statement is indexed by what its result holds: the rows a [SELECT]
    returns, nothing for the others.  As for the loader, identifiers are
    unbounded (the range of the [integer] column is not modelled), and the
    connections of one engine are one session of the server. *)
Inductive query : Type → Type :=
  | SelectOne : query (list Z)
  | SelectIdFilenameOrderById : query (list (Z * string))
  | SelectDocumentById (id : Z) : query (list (Z * string * text))
  | SelectMaxId : query (list Z)
  | SelectOneByFilename (fn : string) : query (list Z)
  | InsertDocument (id : Z) (fn : string) (content : text) : query unit
  | Setval (val : Z) : query (list Z)
  | SelectFilenameById (id : Z) : query (list string)
  | DeleteDocumentById (id : Z) : query unit
  | SelectFilenameContentById (id : Z) : query (list (string * text))
  | SelectOneAnalysisByDocument (id : Z) : query (list Z)
  | DeleteAnalysisByDocument (id : Z) : query unit.

(** What a statement is refused with: the errors the loader knows, an
    argument that the driver cannot send as an [integer] ("value out of
    int32 range"), and a parameter that holds the character of code 0
    ("invalid byte sequence for encoding UTF8: 0x00"). *)
Inductive query_error :=
  | PgError (e : pg_error)
  | ArgumentOutOfRange
  | CharacterNotInRepertoire.

Definition raised (e : query_error) : exception :=
  match e with
  | PgError e => Exn (DBAPIError e)
  | ArgumentOutOfRange => DataError
  | CharacterNotInRepertoire => DataError
  end.

(** A [text] value cannot hold the character of code 0. *)
Fixpoint has_nul_char (s : string) : bool :=
  match s with
  | EmptyString => false
  | String a rest => Ascii.eqb a Ascii.zero || has_nul_char rest
  end.

Definition has_nul (cs : text) : bool := bool_decide (0%N ∈ cs).

Definition id_le (r1 r2 : document) : Prop := doc_id r1 ≤ doc_id r2.

#[global] Instance id_le_dec : RelDecision id_le.
Proof. intros r1 r2. unfold id_le. apply _. Defined.

(** [ORDER BY id]. *)
Definition order_by_id (rows : list document) : list document :=
  merge_sort id_le rows.

Definition with_analyses (a : option (list analysis)) (db : database) : database :=
  {| documents := documents db;
     analyses := a;
     idx_analyses_document_id := idx_analyses_document_id db |}.

(** [INSERT INTO documents (id, filename, content) VALUES (...)]: the
    identifier is given, so the sequence is not touched.  The driver sends
    the identifier as an [integer] or refuses it; the server then checks the
    texts, the primary key and the [UNIQUE] constraint on [filename]. *)
Definition insert_document (id : Z) (fn : string) (content : text)
    (t : documents_table) : option query_error * documents_table :=
  if decide (¬ int4 id) then (Some ArgumentOutOfRange, t)
  else if has_nul_char fn || has_nul content then (Some CharacterNotInRepertoire, t)
  else if decide (id ∈ doc_id <$> doc_rows t) then (Some (PgError UniqueViolation), t)
  else if decide (fn ∈ doc_filename <$> doc_rows t) then
    (Some (PgError UniqueViolation), t)
  else
    (None, {| doc_rows := doc_rows t ++ [Document id fn content];
              documents_id_seq := documents_id_seq t |}).

(** A statement on [documents] fails when the table is not there. *)
Definition on_documents {R} (db : database)
    (f : documents_table → (query_error + R) * database)
  : (query_error + R) * database :=
  match documents db with
  | None => (inl (PgError UndefinedTable), db)
  | Some t => f t
  end.

(** What a statement returns and leaves, on the database its session sees.
    A statement is prepared before its parameters are bound, so a missing
    table is reported first.  Deleting a document deletes its analyses
    ([ON DELETE CASCADE]).  The identifier a [SELECT] or a [DELETE] looks
    for is compared as it is: that the driver refuses one outside [int4] is
    not modelled, and the properties of these statements on an identifier
    that is not in the table take [int4] as their hypothesis. *)
Definition exec_query {R} (q : query R) (db : database)
  : (query_error + R) * database :=
  match q in query R return (query_error + R) * database with
  | SelectOne => (inr [1], db)
  | SelectIdFilenameOrderById =>
      on_documents db (λ t,
        (inr ((λ r, (doc_id r, doc_filename r)) <$> order_by_id (doc_rows t)), db))
  | SelectDocumentById id =>
      on_documents db (λ t,
        (inr ((λ r, (doc_id r, doc_filename r, doc_content r))
                <$> filter (λ r, doc_id r = id) (doc_rows t)), db))
  | SelectMaxId =>
      on_documents db (λ t, (inr [coalesce_max_id (doc_rows t)], db))
  | SelectOneByFilename fn =>
      on_documents db (λ t,
        if has_nul_char fn then (inl CharacterNotInRepertoire, db)
        else (inr ((λ _, 1) <$> filter (λ r, doc_filename r = fn) (doc_rows t)), db))
  | InsertDocument id fn content =>
      on_documents db (λ t,
        let '(err, t') := insert_document id fn content t in
        (match err with Some e => inl e | None => inr () end,
         with_documents t' db))
  | Setval val =>
      on_documents db (λ t,
        match setval (documents_id_seq t) val true with
        | None => (inl (PgError NumericValueOutOfRange), db)
        | Some seq' =>
            (inr [val],
             with_documents {| doc_rows := doc_rows t; documents_id_seq := seq' |} db)
        end)
  | SelectFilenameById id =>
      on_documents db (λ t,
        (inr (doc_filename <$> filter (λ r, doc_id r = id) (doc_rows t)), db))
  | DeleteDocumentById id =>
      on_documents db (λ t,
        (inr (),
         with_analyses (filter (λ a, document_id a ≠ id) <$> analyses db)
           (with_documents
              {| doc_rows := filter (λ r, doc_id r ≠ id) (doc_rows t);
                 documents_id_seq := documents_id_seq t |} db)))
  | SelectFilenameContentById id =>
      on_documents db (λ t,
        (inr ((λ r, (doc_filename r, doc_content r))
                <$> filter (λ r, doc_id r = id) (doc_rows t)), db))
  | SelectOneAnalysisByDocument id =>
      match analyses db with
      | None => (inl (PgError UndefinedTable), db)
      | Some rows => (inr ((λ _, 1) <$> filter (λ a, document_id a = id) rows), db)
      end
  | DeleteAnalysisByDocument id =>
      match analyses db with
      | None => (inl (PgError UndefinedTable), db)
      | Some rows =>
          (inr (), with_analyses (Some (filter (λ a, document_id a ≠ id) rows)) db)
      end
  end.

(** The statements that change the database. *)
Definition query_writes {R} (q : query R) : bool :=
  match q with
  | InsertDocument _ _ _ | Setval _ | DeleteDocumentById _
  | DeleteAnalysisByDocument _ => true
  | _ => false
  end.

(** A statement of [main.py] on the server: as [server_execute], inside the
    transaction of the session when it has one. *)
Definition server_query {R} (s : session) (q : query R) (srv : server)
  : (query_error + R) * server :=
  let '(resp, db') := exec_query q (view srv s) in
  match open_txn srv !! s with
  | Some version =>
      (resp, {| committed := committed srv;
                open_txn := <[s := if query_writes q then Some db' else version]>
                              (open_txn srv);
                advisory_locks := advisory_locks srv |})
  | None =>
      (resp, {| committed := match resp with
                             | inr _ => db'
                             | inl _ => keep_sequences (committed srv) db'
                             end;
                open_txn := open_txn srv;
                advisory_locks := advisory_locks srv |})
  end.

(** *** The application process *)

(** The records the logger of [main.py] receives. *)
Inductive app_log_record :=
  | InfoWaitingForDatabase    (* "Waiting for database (async)..." *)
  | ExceptionInitFailed       (* "DB initialization failed on startup. ..." *)
  | ExceptionListingFiles     (* "DB error while listing files." *)
  | ExceptionFetchingDocument (doc_id : Z)  (* "DB error while fetching document id %s" *)
  | ExceptionReadingUpload.   (* "Error reading uploaded file." *)

(** - [unreachable] is the number of connection attempts the server will
      still let fail before it accepts connections;
    - [slept] counts the seconds spent in [asyncio.sleep];
    - [app_log] is what the logger [nlp_pipeline] has received. *)
Record app_state := AppState {
  unreachable : nat;
  slept : nat;
  app_log : list app_log_record
}.

Definition app_world : Type := app_state * world.

(** The requests of [main.py]: those of the loader it calls, and its own. *)
Inductive request : Type → Type :=
  | Loader {R} (ev : event R) : request R
  | Connect (e : AsyncEngine) : request (option connection)
  | Close (c : connection) : request unit
  | Query {R} (c : connection) (q : query R) : request (query_error + R)
  | Sleep (seconds : nat) : request unit
  | AppLog (r : app_log_record) : request unit.

(** The environment's answer to a request.  A connection is refused while
    the server is unreachable; once made it is inside a transaction (the
    connection begins one on its first statement), and giving it back rolls
    back what it has not committed. *)
Definition serve {R} (rq : request R) (aw : app_world) : R * app_world :=
  let '(a, w) := aw in
  match rq in request R return R * app_world with
  | Loader ev => let '(r, w') := handle ev w in (r, (a, w'))
  | Connect e =>
      match unreachable a with
      | O => (Some (engine_session e), (a, (w.1, begin_txn (engine_session e) w.2)))
      | S n =>
          (None, ({| unreachable := n; slept := slept a; app_log := app_log a |}, w))
      end
  | Close c => (tt, (a, (w.1, rollback_txn c w.2)))
  | Query c q =>
      let '(resp, srv') := server_query c q w.2 in (resp, (a, (w.1, srv')))
  | Sleep seconds =>
      (tt, ({| unreachable := unreachable a; slept := slept a + seconds;
               app_log := app_log a |}, w))
  | AppLog r =>
      (tt, ({| unreachable := unreachable a; slept := slept a;
               app_log := app_log a ++ [r] |}, w))
  end.

(** *** Programs of the application *)

(** An [async def] of [main.py], as the tree of the requests it makes: it
    returns, raises, or asks and goes on with the answer. *)
Inductive coroutine (A : Type) : Type :=
  | Done (a : A)
  | Fail (e : exception)
  | Ask {R : Type} (rq : request R) (k : R → coroutine A).

Arguments Done {A} a.
Arguments Fail {A} e.
Arguments Ask {A R} rq k.

Fixpoint app_bind {A B} (m : coroutine A) (f : A → coroutine B) : coroutine B :=
  match m with
  | Done a => f a
  | Fail e => Fail e
  | Ask rq k => Ask rq (λ r, app_bind (k r) f)
  end.

#[global] Instance app_ret : MRet coroutine := @Done.
#[global] Instance app_mbind : MBind coroutine := λ A B f m, app_bind m f.

Definition ask {R} (rq : request R) : coroutine R := Ask rq Done.

(** [try: body  except Exception as e: handler e], with what follows the
    [try] on the way out without exception. *)
Fixpoint try_except {A B} (body : coroutine A)
    (normal : A → coroutine B) (handler : exception → coroutine B) : coroutine B :=
  match body with
  | Done a => normal a
  | Fail e => handler e
  | Ask rq k => Ask rq (λ r, try_except (k r) normal handler)
  end.

(** A call into [db_loader]. *)
Fixpoint call {A} (m : prog A) : coroutine A :=
  match m with
  | Ret a => Done a
  | Raise e => Fail (Exn e)
  | Vis ev k => Ask (Loader ev) (λ r, call (k r))
  end.

(** How a call ends. *)
Inductive answer (A : Type) :=
  | Responds (a : A)
  | Throws (e : exception).

Arguments Responds {A} a.
Arguments Throws {A} e.

Fixpoint app_run {A} (m : coroutine A) (aw : app_world) : answer A * app_world :=
  match m with
  | Done a => (Responds a, aw)
  | Fail e => (Throws e, aw)
  | Ask rq k => let '(r, aw') := serve rq aw in app_run (k r) aw'
  end.

(** *** The functions of [main.py] *)

Definition double_quote : string := String (Ascii.ascii_of_nat 34) EmptyString.

(** [f"{stem}_{suffix}.txt"]. *)
Definition numbered_name (stem : string) (suffix : nat) : string :=
  stem +:+ "_" +:+ pretty suffix +:+ ".txt".

Section main.

(** [engine], the engine [main.py] creates and hands to [db_loader]. *)
Variable engine : AsyncEngine.

(** [Path(name).stem] on a name without slash.  What [pathlib] takes for the
    stem of a name whose only dot-free part is its extension has changed
    between versions of Python; nothing below depends on it. *)
Variable path_stem : string → string.

(** [await conn.execute(text(...), params)]. *)
Definition execute_query {R} (conn : connection) (q : query R) : coroutine R :=
  resp ← ask (Query conn q);
  match resp with
  | inr res => Done res
  | inl e => Fail (raised e)
  end.

(** [async with engine.connect() as conn: body]: the connection is given back
    on the way out, and what it has not committed is rolled back. *)
Definition engine_connect {A} (body : connection → coroutine A) : coroutine A :=
  conn ← ask (Connect engine);
  match conn with
  | None => Fail (Exn OSError)
  | Some conn =>
      try_except (body conn)
        (λ a, ask (Close conn);; Done a)
        (λ e, ask (Close conn);; Fail e)
  end.

(** [async with engine.begin() as conn: body] in [main.py]. *)
Definition engine_begin_commit {A} (body : connection → coroutine A) : coroutine A :=
  conn ← ask (Connect engine);
  match conn with
  | None => Fail (Exn OSError)
  | Some conn =>
      try_except (body conn)
        (λ a, ask (Loader (Commit conn));; Done a)
        (λ e, ask (Loader (Rollback conn));; Fail e)
  end.

(** [while True] of [wait_for_db_ready]; [fuel] bounds the number of rounds,
    and [None] says that the loop is still going when they are used up. *)
Fixpoint wait_for_db_ready (fuel : nat) : coroutine (option unit) :=
  match fuel with
  | O => Done None
  | S fuel' =>
      try_except
        (engine_connect (λ conn, execute_query conn SelectOne;; Done ()))
        (λ _, Done (Some ()))
        (λ _, ask (AppLog InfoWaitingForDatabase);;
              ask (Sleep 1);;
              wait_for_db_ready fuel')
  end.

Definition startup_event (fuel : nat) : coroutine (option unit) :=
  ready ← wait_for_db_ready fuel;
  match ready with
  | None => Done None
  | Some _ =>
      try_except (call load_txt_files_to_db)
        (λ _, Done (Some ()))
        (λ _, ask (AppLog ExceptionInitFailed);; Done (Some ()))
  end.

Definition fetch_all_files : coroutine (list (Z * string)) :=
  engine_connect (λ conn,
    rows ← execute_query conn SelectIdFilenameOrderById;
    Done rows).

Definition fetch_document (doc_id : Z) : coroutine (option (Z * string * text)) :=
  engine_connect (λ conn,
    result ← execute_query conn (SelectDocumentById doc_id);
    Done (head result)).

Definition list_txt_files : coroutine (list (Z * string)) :=
  try_except fetch_all_files Done
    (λ _, ask (AppLog ExceptionListingFiles);;
          Fail (HTTPException 500 "Database error while listing files.")).

Definition view_text (doc_id : Z) : coroutine (Z * string * text) :=
  row ← try_except (fetch_document doc_id) Done
          (λ _, ask (AppLog (ExceptionFetchingDocument doc_id));;
                Fail (HTTPException 500 "Database error while fetching document."));
  match row with
  | None => Fail (HTTPException 404 "Document not found.")
  | Some row => Done row
  end.

(** The [while True] of [upload_text] that looks for a file name not in use;
    [None] says that the loop is still going when [fuel] is used up. *)
Fixpoint free_filename (fuel : nat) (conn : connection) (base_name : string)
    (suffix : nat) (candidate : string) : coroutine (option string) :=
  res ← execute_query conn (SelectOneByFilename candidate);
  match head res with
  | None => Done (Some candidate)
  | Some _ =>
      match fuel with
      | O => Done None
      | S fuel' =>
          let suffix := S suffix in
          free_filename fuel' conn base_name suffix
            (numbered_name (path_stem base_name) suffix)
      end
  end.

(** The name [upload_text] works with: [filename] when it is given, and must
    then end in [.txt]; the name of the uploaded file otherwise, completed
    with [.txt] when it does not end so. *)
Definition upload_safe_filename (file_filename filename : option string)
  : coroutine string :=
  let orig_name :=
    match file_filename with
    | Some (String _ _ as name) => name
    | _ => "upload.txt"
    end in
  match filename with
  | Some (String _ _ as filename) =>
      if lower_endswith_txt filename then Done filename
      else Fail (HTTPException 400 "Provided filename must end with .txt")
  | _ =>
      Done (if lower_endswith_txt orig_name then orig_name
            else orig_name +:+ ".txt")
  end.

(** [content_bytes = await file.read(); content_bytes.decode("utf-8")] under
    its two [except] clauses. *)
Definition upload_content (file_read : exn + list byte) : coroutine text :=
  match file_read with
  | inr content_bytes =>
      match utf8_decode (Byte.to_N <$> content_bytes) with
      | Some content_str => Done content_str
      | None => Fail (HTTPException 400 "Uploaded file must be UTF-8 encoded .txt")
      end
  | inl UnicodeDecodeError =>
      Fail (HTTPException 400 "Uploaded file must be UTF-8 encoded .txt")
  | inl _ =>
      ask (AppLog ExceptionReadingUpload);;
      Fail (HTTPException 500 "Failed to read uploaded file.")
  end.

(** The block of [upload_text] under [async with engine.begin() as conn]. *)
Definition upload_insert (fuel : nat) (safe_filename : string)
    (content_str : text) (conn : connection) : coroutine (option (Z * string)) :=
  result ← execute_query conn SelectMaxId;
  let next_id := default 0 (head result) + 1 in
  let base_name := rsplit_slash_last safe_filename in
  stored ← free_filename fuel conn base_name 0 base_name;
  match stored with
  | None => Done None
  | Some stored_filename =>
      execute_query conn (InsertDocument next_id stored_filename content_str);;
      execute_query conn (Setval next_id);;
      Done (Some (next_id, stored_filename))
  end.

(** [upload_text(file, filename)]: [file_filename] is [file.filename],
    [file_read] what [await file.read()] gives or raises; the answer is the
    identifier and the name the document is stored under. *)
Definition upload_text (file_filename : option string)
    (file_read : exn + list byte) (filename : option string) (fuel : nat)
  : coroutine (option (Z * string)) :=
  safe_filename ← upload_safe_filename file_filename filename;
  content_str ← upload_content file_read;
  engine_begin_commit (upload_insert fuel safe_filename content_str).

Definition delete_text (doc_id : Z) : coroutine string :=
  filename ← engine_begin_commit (λ conn,
    res ← execute_query conn (SelectFilenameById doc_id);
    match head res with
    | None => Fail (HTTPException 404 "Document not found.")
    | Some filename =>
        execute_query conn (DeleteDocumentById doc_id);;
        Done filename
    end);
  Done ("Document " +:+ pretty doc_id +:+ " (" +:+ filename
        +:+ ") deleted (analysis removed via cascade if present).").

(** The headers and the body of the [StreamingResponse].  The response
    encodes its headers as latin-1 when it is made, and raises
    [UnicodeEncodeError] on a file name that has a character beyond. *)
Definition download_text (doc_id : Z) : coroutine (list (string * string) * list N) :=
  row ← engine_connect (λ conn,
    res ← execute_query conn (SelectFilenameContentById doc_id);
    Done (head res));
  match row with
  | None => Fail (HTTPException 404 "Document not found.")
  | Some (filename, content) =>
      match utf8_encode content with
      | None => Fail UnicodeEncodeError
      | Some data =>
          if latin1_encodable filename then
            Done ([("Content-Disposition",
                    "attachment; filename=" +:+ double_quote +:+ filename
                    +:+ double_quote);
                   ("Content-Type", "text/plain; charset=utf-8")],
                  data)
          else Fail UnicodeEncodeError
      end
  end.

Definition delete_analysis (doc_id : Z) : coroutine string :=
  engine_begin_commit (λ conn,
    res ← execute_query conn (SelectOneAnalysisByDocument doc_id);
    match head res with
    | None => Fail (HTTPException 404 "Analysis not found for this document")
    | Some _ =>
        execute_query conn (DeleteAnalysisByDocument doc_id);;
        Done tt
    end);;
  Done ("Analysis for document " +:+ pretty doc_id +:+ " deleted successfully.").

End main.

(** ** Vocabulary of the properties of [main.py] *)

(** *** The application and its documents *)

(** The state of the application after [n] rounds of waiting. *)
Definition waited (n : nat) (a : app_state) : app_state :=
  {| unreachable := (unreachable a - n)%nat;
     slept := (slept a + n)%nat;
     app_log := app_log a ++ replicate n InfoWaitingForDatabase |}.

(** What [DELETE FROM documents WHERE id = :id] leaves. *)
Definition without_document (id : Z) (db : database) : database :=
  {| documents :=
       (λ t, {| doc_rows := filter (λ r, doc_id r ≠ id) (doc_rows t);
                documents_id_seq := documents_id_seq t |}) <$> documents db;
     analyses := filter (λ a, document_id a ≠ id) <$> analyses db;
     idx_analyses_document_id := idx_analyses_document_id db |}.

(** The database after the [INSERT] and the [setval] of an upload. *)
Definition with_upload (id : Z) (name : string) (content : text)
    (t : documents_table) (db : database) : database :=
  with_documents
    {| doc_rows := doc_rows t ++ [Document id name content];
       documents_id_seq :=
         {| seq_min := seq_min (documents_id_seq t);
            last_value := id; is_called := true |} |}
    db.


(** At most [m] of the numbered names after the [k]th are in use. *)
Definition crowded (names : list string) (stem : string) (k m : nat) : Prop :=
  ∀ l, NoDup l →
    (∀ n, n ∈ l → n ∈ names ∧ ∃ j, (k < j)%nat ∧ n = numbered_name stem j) →
    (length l ≤ m)%nat.

(** *** Bytes and code points *)

(** The bytes [lo], [lo + 1], ..., [lo + n - 1]. *)
Definition bytes_from (lo : N) (n : nat) : list N :=
  N.of_nat <$> seq (N.to_nat lo) n.

(** The code point [h] followed by the six low bits of the byte [b]. *)
Definition push6 (h b : N) : N := N.lor (N.shiftl h 6) (low_bits 6 b).

(** ** Sample worlds *)

Definition sample_engine : AsyncEngine := {| engine_session := 2%nat |}.

Definition process_with (dir : path_state) : process :=
  fresh_process sample_engine dir.

Definition fresh_server : server :=
  {| committed := empty_database; open_txn := ∅; advisory_locks := ∅ |}.

(** A server on which session 1 holds the bootstrap lock. *)
Definition locked_server : server :=
  {| committed := empty_database; open_txn := ∅;
     advisory_locks := {[ DB_INIT_ADVISORY_LOCK_KEY := 1%nat ]} |}.

(** The tables as the loader's DDL creates them, without any document. *)
Definition empty_tables : database :=
  {| documents := Some {| doc_rows := []; documents_id_seq := serial |};
     analyses := Some [];
     idx_analyses_document_id := true |}.

Definition empty_tables_server : server :=
  {| committed := empty_tables; open_txn := ∅; advisory_locks := ∅ |}.

(** A database the loader has initialised before: one document, its
    identifier drawn from the sequence. *)
Definition seeded_database : database :=
  {| documents :=
       Some {| doc_rows := [Document 1 "a.txt" [120%N]];
               documents_id_seq :=
                 {| seq_min := 1; last_value := 1; is_called := true |} |};
     analyses := Some [];
     idx_analyses_document_id := true |}.

Definition seeded_server : server :=
  {| committed := seeded_database; open_txn := ∅; advisory_locks := ∅ |}.

(** A database holding a document that is not in the corpus directory. *)
Definition stale_database : database :=
  {| documents :=
       Some {| doc_rows := [Document 1 "old.txt" [111%N]];
               documents_id_seq :=
                 {| seq_min := 1; last_value := 1; is_called := true |} |};
     analyses := Some [];
     idx_analyses_document_id := true |}.

Definition stale_server : server :=
  {| committed := stale_database; open_txn := ∅; advisory_locks := ∅ |}.

(** Three documents inserted with the explicit identifiers 5, 12 and 3; the
    sequence has never been used. *)
Definition explicit_ids : database :=
  {| documents :=
       Some {| doc_rows := [Document 5 "five.txt" []; Document 12 "twelve.txt" [];
                            Document 3 "three.txt" []];
               documents_id_seq := serial |};
     analyses := Some [];
     idx_analyses_document_id := true |}.

Definition explicit_ids_server : server :=
  {| committed := explicit_ids; open_txn := ∅; advisory_locks := ∅ |}.

(** One readable file, [a.txt], holding the letter x. *)
Definition dir_with_one_file : path_state :=
  Directory (<["a.txt" := RegularFile [x78]]> ∅).

(** [a.txt] holds the letter x; [b.txt] cannot be opened. *)
Definition dir_with_unreadable : path_state :=
  Directory (<["a.txt" := RegularFile [x78]]> (<["b.txt" := Unreadable]> ∅)).

(** One file that is not UTF-8 and one that is. *)
Definition dir_with_malformed : path_state :=
  Directory (<["bad.txt" := RegularFile [xff; xfe]]>
             (<["good.txt" := RegularFile [x68; x69]]> ∅)).

(** Repair, then an insert that takes its identifier from the sequence. *)
Definition repair_then_insert (engine : AsyncEngine) (fn : string) : prog unit :=
  engine_begin engine (λ conn,
    _set_documents_sequence conn;;
    execute conn (UpsertDocument fn []);;
    Ret ()).

(** Two replicas, of sessions 1 and 2, that take turns. *)
Definition two_engines : list AsyncEngine :=
  [{| engine_session := 1%nat |}; {| engine_session := 2%nat |}].

Definition taking_turns (n : nat) : list nat := concat (replicate n [0; 1]%nat).

(** The application once the server accepts connections. *)
Definition ready_app : app_state :=
  {| unreachable := 0; slept := 0; app_log := [] |}.

(** The application while the server still refuses two connections. *)
Definition starting_app : app_state :=
  {| unreachable := 2; slept := 0; app_log := [] |}.

(** The stem of a name with an extension of three letters. *)
Definition stem_of_txt (name : string) : string :=
  String.substring 0 (String.length name - 4) name.

Definition seeded_table : documents_table :=
  {| doc_rows := [Document 1 "a.txt" [120%N]];
     documents_id_seq := {| seq_min := 1; last_value := 1; is_called := true |} |}.

(** The seeded database with an analysis of its document. *)
Definition analysed_server : server :=
  {| committed :=
       {| documents := Some seeded_table;
          analyses := Some [Analysis 1 1];
          idx_analyses_document_id := true |};
     open_txn := ∅; advisory_locks := ∅ |}.

(** * Properties *)

(** ** Running programs *)

Lemma run_bind {A B} (m : prog A) (f : A → prog B) (w : world) :
  run (m ≫= f) w =
  match run m w with
  | (Returns a, w') => run (f a) w'
  | (Raises e, w') => (Raises e, w')
  end.
Proof.
  revert w. induction m as [a|e|R ev k IH]; intros w; simpl; try done.
  destruct (handle ev w) as [r w']. apply IH.
Qed.

Lemma run_on_exit {A B} (m : prog A) (f : A → prog B) (g : exn → prog B) w :
  run (on_exit m f g) w =
  match run m w with
  | (Returns a, w') => run (f a) w'
  | (Raises e, w') => run (g e) w'
  end.
Proof.
  revert w. induction m as [a|e|R ev k IH]; intros w; simpl; try done.
  destruct (handle ev w) as [r w']. apply IH.
Qed.

Lemma run_trigger {R} (ev : event R) (w : world) :
  run (trigger ev) w = (Returns (handle ev w).1, (handle ev w).2).
Proof. unfold trigger. simpl. by destruct (handle ev w). Qed.

Lemma run_execute (c : connection) (st : statement) (p : process) (srv : server) :
  run (execute c st) (p, srv) =
  match conn_budget p with
  | Some O => (Raises (DBAPIError ConnectionFailure), (p, srv))
  | _ =>
      (match (server_execute c st srv).1 with
       | inr res => Returns res
       | inl e => Raises (DBAPIError e)
       end,
       (with_issued st p, (server_execute c st srv).2))
  end.
Proof.
  unfold execute. rewrite run_bind, run_trigger. simpl.
  destruct (conn_budget p) as [[|n]|]; simpl; try done;
    destruct (server_execute c st srv) as [[e|res] srv']; done.
Qed.

Lemma all_events_bind P {A B} (m : prog A) (f : A → prog B) :
  all_events P m → (∀ a, all_events P (f a)) → all_events P (m ≫= f).
Proof.
  intros Hm Hf. induction Hm as [a|e|R ev k HP Hk IH]; simpl.
  - apply Hf.
  - constructor.
  - constructor; [done|]. intros r. apply IH.
Qed.

Lemma all_events_trigger (P : ∀ R, event R → Prop) {R} (ev : event R) :
  P R ev → all_events P (trigger ev).
Proof. intros HP. constructor; [done|]. intros r. constructor. Qed.

(** An invariant kept by every admitted request is kept by the program. *)
Lemma run_all_events (P : ∀ R, event R → Prop) (I : world → Prop) {A} (m : prog A) :
  (∀ R (ev : event R) w, P R ev → I w → I (handle ev w).2) →
  all_events P m → ∀ w, I w → I (run m w).2.
Proof.
  intros Hstep Hm. induction Hm as [a|e|R ev k HP Hk IH]; intros w Hw; simpl; try done.
  specialize (Hstep R ev w HP Hw).
  destruct (handle ev w) as [r w']. by apply IH.
Qed.

(** ** The shape of [load_txt_files_to_db] *)

Lemma run_load_without_engine (p : process) (srv : server) :
  _engine p = None →
  run load_txt_files_to_db (p, srv) = (Raises (RuntimeError engine_not_set), (p, srv)).
Proof.
  intros He. unfold load_txt_files_to_db.
  rewrite run_bind, run_trigger. simpl. by rewrite He.
Qed.

(** With an engine, the routine is its block between [Begin] and [Commit]
    or [Rollback]. *)
Lemma run_load_with_engine (p : process) (srv : server) (e : AsyncEngine) :
  _engine p = Some e →
  run load_txt_files_to_db (p, srv) =
  let s := engine_session e in
  match run (bootstrap_block s) (p, begin_txn s srv) with
  | (Returns (Return v), (p', srv')) => (Returns v, (p', commit_txn s srv'))
  | (Returns Normal, (p', srv')) =>
      (Returns PyNone, (with_log InfoInitialized p', commit_txn s srv'))
  | (Raises ex, (p', srv')) => (Raises ex, (p', rollback_txn s srv'))
  end.
Proof.
  intros He. unfold load_txt_files_to_db.
  rewrite run_bind, run_trigger. cbn [handle fst snd]. rewrite He.
  rewrite run_bind. unfold engine_begin.
  rewrite run_bind, run_trigger. cbn [handle fst snd].
  rewrite run_on_exit.
  destruct (run (bootstrap_block (engine_session e)) (p, begin_txn (engine_session e) srv))
    as [[[|v]|ex] [p' srv']]; rewrite !run_bind, !run_trigger; done.
Qed.

(** ** The advisory lock *)

(** [pg_try_advisory_lock] answers false exactly when another session holds
    the key. *)
Lemma try_advisory_lock_refused (s : session) (k : Z) (locks : gmap Z session) :
  (try_advisory_lock s k locks).1 = false ↔
  ∃ holder, locks !! k = Some holder ∧ holder ≠ s.
Proof.
  unfold try_advisory_lock. destruct (locks !! k) as [h|]; simpl.
  - rewrite bool_decide_eq_false. split.
    + intros Hne. by exists h.
    + intros (h' & [= <-] & Hne). done.
  - split; [done|]. by intros (h' & [=] & _).
Qed.

Lemma try_advisory_lock_refused_same (s : session) (k : Z) (locks : gmap Z session) :
  (try_advisory_lock s k locks).1 = false → (try_advisory_lock s k locks).2 = locks.
Proof. unfold try_advisory_lock. by destruct (locks !! k). Qed.

Lemma server_execute_lock (s : session) (k : Z) (srv : server)
    (version : option database) :
  open_txn srv !! s = Some version →
  server_execute s (SelectTryAdvisoryLock k) srv =
  (inr [[SqlBool (try_advisory_lock s k (advisory_locks srv)).1]],
   {| committed := committed srv;
      open_txn := open_txn srv;
      advisory_locks := (try_advisory_lock s k (advisory_locks srv)).2 |}).
Proof.
  intros Hs. unfold server_execute. rewrite Hs. cbn [exec_statement writes].
  destruct (try_advisory_lock s k (advisory_locks srv)) as [g l]. cbn [fst snd].
  by rewrite insert_id.
Qed.

(** The block, split at the answer of the lock statement. *)
Lemma run_bootstrap_block (s : session) (p : process) (srv : server)
    (version : option database) :
  open_txn srv !! s = Some version →
  conn_budget p ≠ Some 0%nat →
  let granted := (try_advisory_lock s DB_INIT_ADVISORY_LOCK_KEY (advisory_locks srv)).1 in
  let p1 := with_issued (SelectTryAdvisoryLock DB_INIT_ADVISORY_LOCK_KEY) p in
  let srv1 :=
    {| committed := committed srv;
       open_txn := open_txn srv;
       advisory_locks :=
         (try_advisory_lock s DB_INIT_ADVISORY_LOCK_KEY (advisory_locks srv)).2 |} in
  run (bootstrap_block s) (p, srv) =
  if granted then run (initialise s) (p1, srv1)
  else (Returns (Return PyNone), (with_log InfoAnotherWorker p1, srv1)).
Proof.
  intros Hs Hb. unfold bootstrap_block, on_lock_answer.
  rewrite run_bind, run_execute, (server_execute_lock _ _ _ _ Hs).
  destruct (conn_budget p) as [[|n]|] eqn:Hp; try done; cbn [fst snd fetchone head py_bool];
    destruct (try_advisory_lock s DB_INIT_ADVISORY_LOCK_KEY (advisory_locks srv)) as [[] l];
    cbn [fst snd negb]; try done;
    by rewrite run_bind, run_trigger.
Qed.

(** C1.  When another session holds the advisory lock, so that
    [pg_try_advisory_lock] answers false, [load_txt_files_to_db] returns
    [None] normally; the lock query is the only statement it has sent (no
    DDL, no upsert, no [setval]), and the committed database and the lock
    table are what they were before the call. *)
Theorem lock_not_acquired_is_a_successful_noop
    (p : process) (srv : server) (e : AsyncEngine) (holder : session) :
  _engine p = Some e →
  advisory_locks srv !! DB_INIT_ADVISORY_LOCK_KEY = Some holder →
  holder ≠ engine_session e →
  conn_budget p ≠ Some 0%nat →
  let r := run load_txt_files_to_db (p, srv) in
  r.1 = Returns PyNone ∧
  issued r.2.1 = issued p ++ [SelectTryAdvisoryLock DB_INIT_ADVISORY_LOCK_KEY] ∧
  log r.2.1 = log p ++ [InfoAnotherWorker] ∧
  committed r.2.2 = committed srv ∧
  advisory_locks r.2.2 = advisory_locks srv ∧
  open_txn r.2.2 = delete (engine_session e) (open_txn srv).
Proof.
  intros He Hl Hne Hb r. subst r.
  rewrite (run_load_with_engine _ _ _ He). cbn zeta.
  set (s := engine_session e).
  assert (Hs : open_txn (begin_txn s srv) !! s = Some None)
    by apply lookup_insert_eq.
  rewrite (run_bootstrap_block _ _ _ _ Hs Hb). cbn zeta.
  assert (Hr : (try_advisory_lock s DB_INIT_ADVISORY_LOCK_KEY
                  (advisory_locks (begin_txn s srv))).1 = false).
  { apply try_advisory_lock_refused. by exists holder. }
  rewrite Hr, (try_advisory_lock_refused_same _ _ _ Hr).
  unfold commit_txn. cbn [open_txn begin_txn committed advisory_locks fst snd].
  rewrite lookup_insert_eq. cbn [fst snd committed advisory_locks open_txn issued log
    with_log with_issued].
  by rewrite delete_insert_eq.
Qed.

Lemma lock_not_acquired_is_a_successful_noop_witness :
  (run load_txt_files_to_db (process_with Missing, locked_server)).1 = Returns PyNone ∧
  committed (run load_txt_files_to_db (process_with Missing, locked_server)).2.2 =
    empty_database.
Proof.
  destruct (lock_not_acquired_is_a_successful_noop
              (process_with Missing) locked_server sample_engine 1%nat)
    as (Hr & _ & _ & Hc & _).
  - reflexivity.
  - reflexivity.
  - discriminate.
  - discriminate.
  - split; [exact Hr | exact Hc].
Defined.

(** ** Inside the transaction *)

Lemma in_session_execute (s : session) (st : statement) :
  all_events (in_session s) (execute s st).
Proof.
  unfold execute. apply all_events_bind.
  - by apply all_events_trigger.
  - intros [e|res]; constructor.
Qed.

Lemma in_session_load_files (s : session) (files : list string) :
  all_events (in_session s) (load_files s files).
Proof.
  induction files as [|file rest IH]; simpl; [constructor|].
  constructor; [done|]. intros [[msg| | |e]|content]; try apply all_events_Raise.
  - apply (all_events_bind _ (trigger (Log (WarningNonUtf8 file)))).
    + by apply all_events_trigger.
    + intros _. apply IH.
  - apply (all_events_bind _ (execute s (UpsertDocument file content))).
    + apply in_session_execute.
    + intros _. apply IH.
Qed.

Lemma in_session_load_corpus (s : session) :
  all_events (in_session s) (load_corpus s).
Proof.
  unfold load_corpus. apply all_events_bind; [by apply all_events_trigger|].
  intros ex. apply all_events_bind.
  - destruct ex; [by apply all_events_trigger|constructor].
  - intros is_dir. destruct (negb ex || negb is_dir).
    + by apply all_events_trigger.
    + apply all_events_bind; [by apply all_events_trigger|].
      intros files. apply in_session_load_files.
Qed.

Lemma in_session_set_documents_sequence (s : session) :
  all_events (in_session s) (_set_documents_sequence s).
Proof.
  unfold _set_documents_sequence.
  apply all_events_bind; [apply in_session_execute|]. intros res.
  apply all_events_bind; [apply in_session_execute|]. intros _. constructor.
Qed.

Lemma in_session_initialise (s : session) :
  all_events (in_session s) (initialise s).
Proof.
  unfold initialise.
  repeat (apply all_events_bind; [apply in_session_execute|]; intros _).
  apply all_events_bind; [apply in_session_load_corpus|]. intros _.
  apply all_events_bind; [apply in_session_set_documents_sequence|]. intros _.
  constructor.
Qed.

Lemma in_session_bootstrap_block (s : session) :
  all_events (in_session s) (bootstrap_block s).
Proof.
  unfold bootstrap_block, on_lock_answer.
  apply all_events_bind; [apply in_session_execute|]. intros res.
  match goal with |- context [negb ?b] => destruct (negb b) end.
  - apply all_events_bind; [by apply all_events_trigger|]. intros _. constructor.
  - apply in_session_initialise.
Qed.

Lemma replay_snoc (s : session) (sts : list statement) (st : statement) st0 :
  replay s (sts ++ [st]) st0 =
  let '(_, db', locks') :=
    exec_statement s st (replay s sts st0).1 (replay s sts st0).2 in
  (db', locks').
Proof. unfold replay. by rewrite foldl_app. Qed.

Lemma inside_start (s : session) (p : process) (srv : server) :
  is_Some (open_txn srv !! s) → inside s p srv (p, srv).
Proof.
  intros Hs. repeat split; try done. exists []. by rewrite app_nil_r.
Qed.

Lemma server_execute_in_txn (s : session) (st : statement) (srv : server)
    (version : option database) :
  open_txn srv !! s = Some version →
  server_execute s st srv =
  ((exec_statement s st (view srv s) (advisory_locks srv)).1.1,
   {| committed := committed srv;
      open_txn :=
        <[s := if writes st
               then Some (exec_statement s st (view srv s) (advisory_locks srv)).1.2
               else version]> (open_txn srv);
      advisory_locks := (exec_statement s st (view srv s) (advisory_locks srv)).2 |}).
Proof.
  intros Hs. unfold server_execute. rewrite Hs.
  by destruct (exec_statement s st (view srv s) (advisory_locks srv))
    as [[resp db'] locks'].
Qed.

Lemma exec_statement_reads (s : session) (st : statement) (db : database) locks :
  writes st = false → (exec_statement s st db locks).1.2 = db.
Proof.
  destruct st; try done; intros _; cbn [exec_statement].
  - by destruct (try_advisory_lock s k locks).
  - by destruct (documents db).
Qed.

Lemma view_insert (s : session) (db : database) committed0 txns locks :
  view {| committed := committed0; open_txn := <[s := Some db]> txns;
          advisory_locks := locks |} s = db.
Proof. unfold view. cbn [open_txn]. by rewrite lookup_insert_eq. Qed.

(** After a statement in a transaction, the session sees what the statement
    left. *)
Lemma view_server_execute (s : session) (st : statement) (srv : server) :
  is_Some (open_txn srv !! s) →
  view (server_execute s st srv).2 s
  = (exec_statement s st (view srv s) (advisory_locks srv)).1.2.
Proof.
  intros [version Hs]. rewrite (server_execute_in_txn _ _ _ _ Hs). cbn [snd].
  destruct (writes st) eqn:Hw; [apply view_insert|].
  rewrite exec_statement_reads by done. rewrite insert_id by done.
  unfold view. by cbn [open_txn committed].
Qed.

Lemma inside_handle (s : session) p0 srv0 R (ev : event R) (w : world) :
  in_session s R ev → inside s p0 srv0 w → inside s p0 srv0 (handle ev w).2.
Proof.
  destruct w as [p srv]. intros Hev (He & Hd & Hc & Ho & Hs & sts & Hi & Hv & Hl).
  cbn [fst snd] in He, Hd, Hc, Ho, Hs, Hi, Hv, Hl.
  destruct ev; simpl in Hev; try done;
    try (repeat split; try done; by exists sts).
  subst c. cbn [handle].
  destruct (conn_budget p) as [[|n]|] eqn:Hb;
    try (repeat split; try done; by exists sts).
  all: pose proof (view_server_execute s st srv Hs) as Hv';
    destruct Hs as [version Hs];
    rewrite (server_execute_in_txn _ _ _ _ Hs) in Hv' |- *; cbn [fst snd] in Hv' |- *;
    (repeat split; cbn [fst snd committed open_txn advisory_locks
                        _engine text_dir issued with_issued]; try done;
     [ intros s' Hne; rewrite lookup_insert_ne by done; by apply Ho
     | by rewrite lookup_insert_eq
     | exists (sts ++ [st]); rewrite replay_snoc, <- Hl, <- Hv, Hv';
       destruct (exec_statement s st (view srv s) (advisory_locks srv))
         as [[resp db'] locks'];
       cbn [fst snd]; split_and!; [ by rewrite Hi, app_assoc | done | done ] ]).
Qed.

Lemma inside_run (s : session) {A} (m : prog A) (p : process) (srv : server) :
  all_events (in_session s) m →
  is_Some (open_txn srv !! s) →
  inside s p srv (run m (p, srv)).2.
Proof.
  intros Hm Hs.
  apply (run_all_events (in_session s) (inside s p srv) m); [|done|].
  - intros R ev w. apply inside_handle.
  - by apply inside_start.
Qed.

Lemma tables_keep_sequences (before now : database) :
  tables (keep_sequences before now) = tables before.
Proof.
  unfold keep_sequences, tables.
  destruct (documents before) as [t0|] eqn:H0; [|by rewrite H0].
  destruct (documents now) as [t1|]; [done|]. by rewrite H0.
Qed.

(** ** The lock and the transaction after a call *)

(** Nothing takes the advisory lock away from its holder. *)
Lemma exec_statement_holder (s : session) (st : statement) (db : database)
    (locks : gmap Z session) (k : Z) (h : session) :
  locks !! k = Some h → (exec_statement s st db locks).2 !! k = Some h.
Proof.
  intros Hk. destruct st; cbn [exec_statement].
  - unfold try_advisory_lock.
    destruct (locks !! k0) as [h'|] eqn:Hk0; cbn [snd]; [done|].
    rewrite lookup_insert_ne; [done|]. intros ->. congruence.
  - by destruct (documents db).
  - by destruct (analyses db), (documents db).
  - by destruct (analyses db).
  - destruct (documents db) as [t|]; [|done].
    by destruct (upsert_document fn content t).
  - by destruct (documents db).
  - destruct (documents db) as [t|]; [|done].
    by destruct (setval (documents_id_seq t) val true).
Qed.

Lemma server_execute_locks (s : session) (st : statement) (srv : server) :
  advisory_locks (server_execute s st srv).2
  = (exec_statement s st (view srv s) (advisory_locks srv)).2.
Proof.
  unfold server_execute.
  destruct (exec_statement s st (view srv s) (advisory_locks srv))
    as [[resp db'] locks'].
  by destruct (open_txn srv !! s).
Qed.

Lemma handle_holder R (ev : event R) (p : process) (srv : server) (k : Z) (h : session) :
  advisory_locks srv !! k = Some h →
  advisory_locks (handle ev (p, srv)).2.2 !! k = Some h.
Proof.
  intros Hk. destruct ev; cbn [handle fst snd]; try done.
  - unfold commit_txn. by destruct (open_txn srv !! c).
  - unfold rollback_txn. by destruct (open_txn srv !! c).
  - destruct (conn_budget p) as [[|n]|]; [done| |];
      pose proof (server_execute_locks c st srv) as Hl;
      destruct (server_execute c st srv) as [resp srv']; cbn [fst snd] in *;
      rewrite Hl; by apply exec_statement_holder.
Qed.

(** No request of any program takes an advisory lock from its holder. *)
Lemma run_holder {A} (m : prog A) (p : process) (srv : server) (k : Z) (h : session) :
  advisory_locks srv !! k = Some h →
  advisory_locks (run m (p, srv)).2.2 !! k = Some h.
Proof.
  revert p srv. induction m as [a|ex|R ev f IH]; intros p srv Hh; [done..|].
  cbn [run]. pose proof (handle_holder R ev p srv k h Hh) as Hh'.
  destruct (handle ev (p, srv)) as [r [p' srv']]. by apply IH.
Qed.

Lemma advisory_locks_commit_txn (s : session) (srv : server) :
  advisory_locks (commit_txn s srv) = advisory_locks srv.
Proof. unfold commit_txn. by destruct (open_txn srv !! s). Qed.

Lemma advisory_locks_rollback_txn (s : session) (srv : server) :
  advisory_locks (rollback_txn s srv) = advisory_locks srv.
Proof. unfold rollback_txn. by destruct (open_txn srv !! s). Qed.

(** A call that finds the lock free and gets its query through holds the lock
    when it ends. *)
Lemma load_takes_the_lock (p : process) (srv : server) (e : AsyncEngine) :
  _engine p = Some e →
  conn_budget p ≠ Some 0%nat →
  advisory_locks srv !! DB_INIT_ADVISORY_LOCK_KEY = None →
  advisory_locks (run load_txt_files_to_db (p, srv)).2.2
    !! DB_INIT_ADVISORY_LOCK_KEY = Some (engine_session e).
Proof.
  intros He Hb Hfree. rewrite (run_load_with_engine _ _ _ He). cbn zeta.
  set (s := engine_session e).
  assert (Hs : open_txn (begin_txn s srv) !! s = Some None)
    by apply lookup_insert_eq.
  rewrite (run_bootstrap_block _ _ _ _ Hs Hb). cbn zeta.
  unfold try_advisory_lock. cbn [begin_txn advisory_locks]. rewrite Hfree.
  cbn [fst snd].
  match goal with |- context [run (initialise s) (?p1, ?srv1)] =>
    pose proof (run_holder (initialise s) p1 srv1 DB_INIT_ADVISORY_LOCK_KEY s) as Hh
  end.
  cbn [advisory_locks] in Hh. rewrite lookup_insert_eq in Hh. specialize (Hh eq_refl).
  destruct (run (initialise s) _) as [[[|v]|ex] [p' srv']]; cbn [fst snd] in *;
    by rewrite ?advisory_locks_commit_txn, ?advisory_locks_rollback_txn.
Qed.

Lemma open_txn_commit_txn (s : session) (srv : server) :
  is_Some (open_txn srv !! s) →
  open_txn (commit_txn s srv) = delete s (open_txn srv).
Proof. intros [version Hv]. unfold commit_txn. by rewrite Hv. Qed.

Lemma open_txn_rollback_txn (s : session) (srv : server) :
  is_Some (open_txn srv !! s) →
  open_txn (rollback_txn s srv) = delete s (open_txn srv).
Proof. intros [version Hv]. unfold rollback_txn. by rewrite Hv. Qed.

(** A call made with an engine leaves no transaction open on the session of
    the engine, and the transactions of the other sessions as they were. *)
Lemma load_closes_the_transaction (p : process) (srv : server) (e : AsyncEngine) :
  _engine p = Some e →
  open_txn (run load_txt_files_to_db (p, srv)).2.2 !! engine_session e = None ∧
  ∀ s', s' ≠ engine_session e →
    open_txn (run load_txt_files_to_db (p, srv)).2.2 !! s' = open_txn srv !! s'.
Proof.
  intros He. rewrite (run_load_with_engine _ _ _ He). cbn zeta.
  set (s := engine_session e).
  assert (Hs : is_Some (open_txn (begin_txn s srv) !! s)).
  { exists None. apply lookup_insert_eq. }
  pose proof (inside_run s (bootstrap_block s) p (begin_txn s srv)
                (in_session_bootstrap_block s) Hs) as (_ & _ & _ & Hoth & Hs' & _).
  destruct (run (bootstrap_block s) _) as [[[|v]|ex] [p' srv']]; cbn [fst snd] in *;
    rewrite ?open_txn_commit_txn, ?open_txn_rollback_txn by done;
    (split; [apply lookup_delete_eq|]);
    intros s' Hne; rewrite lookup_delete_ne by done; rewrite (Hoth s' Hne);
    cbn [begin_txn open_txn]; by rewrite lookup_insert_ne.
Qed.

(** Without a transaction of its own, a session sees what is committed. *)
Lemma view_closed (srv : server) (s : session) :
  open_txn srv !! s = None → view srv s = committed srv.
Proof. unfold view. by intros ->. Qed.

(** ** Atomicity of a bootstrap attempt *)

(** C2 as the specification states it would make a failed attempt leave the
    committed database as it was, sequence included.  On a database that
    already has its tables, with [a.txt] readable and [b.txt] not, the upsert
    of [a.txt] draws a value from [documents_id_seq] before [b.txt] raises;
    the rollback does not give the value back. *)
Lemma rollback_keeps_drawn_sequence_values :
  (run load_txt_files_to_db (process_with dir_with_unreadable, seeded_server)).1
    = Raises OSError ∧
  committed (run load_txt_files_to_db
               (process_with dir_with_unreadable, seeded_server)).2.2
    ≠ committed seeded_server.
Proof.
  split; [by vm_compute|].
  intros H. apply (f_equal documents) in H. vm_compute in H. discriminate H.
Qed.

(** Between [Begin] and the end of the block. *)
Lemma block_inside (s : session) (p : process) (srv : server) :
  committed (run (bootstrap_block s) (p, begin_txn s srv)).2.2 = committed srv ∧
  ∃ version sts,
    open_txn (run (bootstrap_block s) (p, begin_txn s srv)).2.2 !! s = Some version ∧
    issued (run (bootstrap_block s) (p, begin_txn s srv)).2.1 = issued p ++ sts ∧
    default (committed srv) version
      = (replay s sts (committed srv, advisory_locks srv)).1.
Proof.
  assert (Hs : is_Some (open_txn (begin_txn s srv) !! s)).
  { exists None. apply lookup_insert_eq. }
  destruct (inside_run s (bootstrap_block s) p _ (in_session_bootstrap_block s) Hs)
    as (_ & _ & Hc & _ & [version Ho] & sts & Hi & Hv & _).
  split; [done|]. exists version, sts. split_and!; [done..|].
  assert (Hv0 : view (begin_txn s srv) s = committed srv).
  { unfold view, begin_txn. cbn [open_txn committed]. by rewrite lookup_insert_eq. }
  rewrite Hv0 in Hv. cbn [advisory_locks begin_txn] in Hv. rewrite <- Hv.
  unfold view. rewrite Ho. cbn [begin_txn committed] in Hc.
  destruct version; cbn [default from_option id]; done.
Qed.

Lemma keep_sequences_same (db : database) : keep_sequences db db = db.
Proof.
  unfold keep_sequences. destruct db as [[[rows seq]|] an ix]; done.
Qed.

Lemma keep_sequences_fresh (before now : database) :
  documents before = None → keep_sequences before now = before.
Proof. unfold keep_sequences. by intros ->. Qed.

(** What an attempt that raises leaves committed differs from what was
    committed before by the state of the sequence at most. *)
Lemma load_Raises_committed (p : process) (srv : server) (ex : exn) :
  (run load_txt_files_to_db (p, srv)).1 = Raises ex →
  ∃ now, committed (run load_txt_files_to_db (p, srv)).2.2
         = keep_sequences (committed srv) now.
Proof.
  destruct (_engine p) as [e|] eqn:He.
  - rewrite (run_load_with_engine _ _ _ He). cbn zeta.
    destruct (block_inside (engine_session e) p srv)
      as (Hc & version & sts & Ho & _ & _).
    destruct (run (bootstrap_block (engine_session e)) _) as [[[|v]|ex'] [p' srv']];
      try done.
    cbn [fst snd] in *. intros _. unfold rollback_txn. rewrite Ho. cbn [committed].
    destruct version as [db|]; rewrite Hc.
    + by exists db.
    + exists (committed srv). by rewrite keep_sequences_same.
  - rewrite (run_load_without_engine _ _ He). intros _.
    exists (committed srv). by rewrite keep_sequences_same.
Qed.

(** It leaves the tables as they were. *)
Lemma load_Raises_tables (p : process) (srv : server) (ex : exn) :
  (run load_txt_files_to_db (p, srv)).1 = Raises ex →
  tables (committed (run load_txt_files_to_db (p, srv)).2.2) = tables (committed srv).
Proof.
  intros [now ->]%load_Raises_committed. apply tables_keep_sequences.
Qed.

(** C2, amended.  Whatever makes [load_txt_files_to_db] raise (the missing
    engine, a statement failing during schema creation, corpus loading or
    sequence repair, a file that cannot be read), the transaction of the call
    is rolled back: no transaction is left open on the session of the engine,
    which from then on sees what is committed, and the tables and the index
    are exactly what was committed before the call.  On a database that had
    no table [documents], the committed database is what it was; on one that
    had, only the values already drawn from its sequence stay drawn.  When
    the call returns, its transaction is closed as well and what is committed
    is the effect of all the statements it issued, in order.  No attempt
    commits a part of its writes to the tables.  An exception raised inside
    the [async with] block is the exception the caller gets.  The advisory
    lock is no part of the transaction: over a connection that does not
    break, an attempt that found the lock free still holds it when it ends,
    rolled back or not. *)
Theorem bootstrap_attempt_is_all_or_nothing (p : process) (srv : server) :
  (∀ ex, (run load_txt_files_to_db (p, srv)).1 = Raises ex →
     tables (committed (run load_txt_files_to_db (p, srv)).2.2)
       = tables (committed srv) ∧
     (documents (committed srv) = None →
      committed (run load_txt_files_to_db (p, srv)).2.2 = committed srv) ∧
     (∀ e, _engine p = Some e →
        open_txn (run load_txt_files_to_db (p, srv)).2.2 !! engine_session e = None ∧
        view (run load_txt_files_to_db (p, srv)).2.2 (engine_session e)
          = committed (run load_txt_files_to_db (p, srv)).2.2 ∧
        ∀ s', s' ≠ engine_session e →
          open_txn (run load_txt_files_to_db (p, srv)).2.2 !! s' = open_txn srv !! s')) ∧
  (∀ v e, (run load_txt_files_to_db (p, srv)).1 = Returns v →
     _engine p = Some e →
     open_txn (run load_txt_files_to_db (p, srv)).2.2 !! engine_session e = None ∧
     ∃ sts,
       issued (run load_txt_files_to_db (p, srv)).2.1 = issued p ++ sts ∧
       committed (run load_txt_files_to_db (p, srv)).2.2
         = (replay (engine_session e) sts (committed srv, advisory_locks srv)).1) ∧
  (∀ e ex, _engine p = Some e →
     (run (bootstrap_block (engine_session e))
          (p, begin_txn (engine_session e) srv)).1 = Raises ex →
     (run load_txt_files_to_db (p, srv)).1 = Raises ex) ∧
  (∀ e, _engine p = Some e →
     conn_budget p = None →
     advisory_locks srv !! DB_INIT_ADVISORY_LOCK_KEY = None →
     advisory_locks (run load_txt_files_to_db (p, srv)).2.2
       !! DB_INIT_ADVISORY_LOCK_KEY = Some (engine_session e)).
Proof.
  split_and!.
  - intros ex Hex. split_and!.
    + destruct (load_Raises_committed _ _ _ Hex) as [now ->].
      apply tables_keep_sequences.
    + destruct (load_Raises_committed _ _ _ Hex) as [now ->].
      apply keep_sequences_fresh.
    + intros e He. destruct (load_closes_the_transaction p srv e He) as [Hc Ho].
      split_and!; [done|by apply view_closed|done].
  - intros v e Hv He. split; [by apply load_closes_the_transaction|].
    revert Hv. rewrite (run_load_with_engine _ _ _ He). cbn zeta.
    destruct (block_inside (engine_session e) p srv)
      as (Hc & version & sts & Ho & Hi & Hr).
    destruct (run (bootstrap_block (engine_session e)) _) as [[c|ex] [p' srv']];
      [|done].
    cbn [fst snd] in *. intros _. exists sts.
    destruct c as [|v']; cbn [fst snd]; unfold commit_txn; rewrite Ho;
      cbn [committed issued with_log]; by rewrite Hc.
  - intros e ex He. rewrite (run_load_with_engine _ _ _ He). cbn zeta.
    destruct (run (bootstrap_block (engine_session e)) _) as [[c|ex'] [p' srv']];
      cbn [fst snd]; [by destruct c|by intros [= ->]].
  - intros e He Hb Hfree. apply load_takes_the_lock; [done| |done]. by rewrite Hb.
Qed.

(** On a fresh server, with [a.txt] readable and [b.txt] not: the schema is
    created and [a.txt] upserted before [b.txt] raises, and nothing of it is
    committed. *)
Lemma bootstrap_attempt_is_all_or_nothing_witness :
  (run load_txt_files_to_db (process_with dir_with_unreadable, fresh_server)).1
    = Raises OSError ∧
  issued (run load_txt_files_to_db
            (process_with dir_with_unreadable, fresh_server)).2.1
    = [SelectTryAdvisoryLock DB_INIT_ADVISORY_LOCK_KEY; CreateTableDocuments;
       CreateTableAnalyses; CreateIndexAnalysesDocumentId;
       UpsertDocument "a.txt" [120%N]] ∧
  committed (run load_txt_files_to_db
               (process_with dir_with_unreadable, fresh_server)).2.2
    = empty_database ∧
  open_txn (run load_txt_files_to_db
              (process_with dir_with_unreadable, fresh_server)).2.2
    !! engine_session sample_engine = None.
Proof.
  assert (Hr : (run load_txt_files_to_db
                  (process_with dir_with_unreadable, fresh_server)).1
               = Raises OSError) by (by vm_compute).
  destruct (proj1 (bootstrap_attempt_is_all_or_nothing
                     (process_with dir_with_unreadable) fresh_server) OSError Hr)
    as (_ & Hfresh & Hclosed).
  split_and!.
  - exact Hr.
  - by vm_compute.
  - exact (Hfresh eq_refl).
  - exact (proj1 (Hclosed sample_engine eq_refl)).
Defined.

(** ** Sequence repair *)

Lemma coalesce_max_id_ge (rows : list document) (r : document) :
  r ∈ rows → doc_id r ≤ coalesce_max_id rows.
Proof.
  destruct rows as [|r0 rest]; [by intros ?%elem_of_nil|].
  simpl. revert r0 r. induction rest as [|r1 rest IH]; intros r0 r Hr; simpl.
  - apply list_elem_of_singleton in Hr as ->. lia.
  - apply elem_of_cons in Hr as [->|Hr].
    + specialize (IH r0 r0 ltac:(left)). lia.
    + apply elem_of_cons in Hr as [->|Hr]; [lia|].
      specialize (IH r0 r ltac:(by right)). lia.
Qed.

Lemma server_execute_response (s : session) (st : statement) (srv : server) :
  (server_execute s st srv).1
  = (exec_statement s st (view srv s) (advisory_locks srv)).1.1.
Proof.
  unfold server_execute.
  destruct (exec_statement s st (view srv s) (advisory_locks srv))
    as [[resp db'] locks'].
  by destruct (open_txn srv !! s).
Qed.

Lemma is_Some_server_execute (s : session) (st : statement) (srv : server) :
  is_Some (open_txn srv !! s) → is_Some (open_txn (server_execute s st srv).2 !! s).
Proof.
  intros [version Hs]. rewrite (server_execute_in_txn _ _ _ _ Hs). cbn [snd open_txn].
  rewrite lookup_insert_eq. by eexists.
Qed.

(** [_set_documents_sequence] inside a transaction that sees the table [t]:
    it asks for [COALESCE(MAX(id), 0)] and passes the answer to [setval],
    which refuses it when it lies below the minimum of the sequence. *)
Lemma run_set_documents_sequence (c : connection) (p : process) (srv : server)
    (t : documents_table) :
  is_Some (open_txn srv !! c) →
  documents (view srv c) = Some t →
  conn_budget p = None →
  let m := coalesce_max_id (doc_rows t) in
  let r := run (_set_documents_sequence c) (p, srv) in
  issued r.2.1 = issued p ++ [SelectCoalesceMaxId; SelectSetval m] ∧
  if decide (m < seq_min (documents_id_seq t)) then
    r.1 = Raises (DBAPIError NumericValueOutOfRange) ∧
    view r.2.2 c = view srv c
  else
    r.1 = Returns () ∧
    view r.2.2 c =
      with_documents
        {| doc_rows := doc_rows t;
           documents_id_seq :=
             {| seq_min := seq_min (documents_id_seq t);
                last_value := m; is_called := true |} |}
        (view srv c).
Proof.
  intros Hs Ht Hb m r. subst r. unfold _set_documents_sequence.
  rewrite run_bind, run_execute, Hb, server_execute_response.
  cbn [exec_statement]. rewrite Ht. cbn [fst snd fetchone head].
  pose proof (is_Some_server_execute c SelectCoalesceMaxId srv Hs) as Hs1.
  pose proof (view_server_execute c SelectCoalesceMaxId srv Hs) as Hv1.
  rewrite exec_statement_reads in Hv1 by done.
  set (srv1 := (server_execute c SelectCoalesceMaxId srv).2) in *.
  rewrite run_bind, run_execute. cbn [conn_budget with_issued]. rewrite Hb.
  cbn [fmap option_fmap option_map].
  rewrite server_execute_response.
  pose proof (view_server_execute c (SelectSetval m) srv1 Hs1) as Hv2.
  rewrite Hv1 in Hv2 |- *. revert Hv2. cbn [exec_statement]. rewrite Ht.
  unfold setval. fold m.
  destruct (decide (m < seq_min (documents_id_seq t))); cbn [fst snd run];
    cbn [issued with_issued]; intros ->; by rewrite <- app_assoc.
Qed.

(** After a repair that succeeds, the next value of the sequence is
    [max(id) + 1], above every identifier in the table. *)
Lemma nextval_after_repair (t : documents_table) (seq' : sequence) :
  setval (documents_id_seq t) (coalesce_max_id (doc_rows t)) true = Some seq' →
  (nextval seq').1 = coalesce_max_id (doc_rows t) + 1 ∧
  ∀ r, r ∈ doc_rows t → doc_id r < (nextval seq').1.
Proof.
  unfold setval. case_decide; [done|]. intros [= <-]. simpl. split; [done|].
  intros r Hr. apply coalesce_max_id_ge in Hr. lia.
Qed.

(** With the identifiers 5, 12 and 3 in the table and a sequence never used,
    repair succeeds and the next row takes the identifier 13. *)
Lemma repair_after_explicit_ids :
  (run (repair_then_insert sample_engine "new.txt")
       (process_with Missing, explicit_ids_server)).1 = Returns () ∧
  doc_rows <$> documents (committed
    (run (repair_then_insert sample_engine "new.txt")
         (process_with Missing, explicit_ids_server)).2.2)
  = Some [Document 5 "five.txt" []; Document 12 "twelve.txt" [];
          Document 3 "three.txt" []; Document 13 "new.txt" []].
Proof. by vm_compute. Qed.

(** C3 fails on the table without rows.  [COALESCE(MAX(id), 0)] is 0 there,
    and [setval(pg_get_serial_sequence('documents', 'id'), 0, true)] is out of
    the bounds of a [SERIAL] sequence, whose minimum is 1: the repair raises
    and nothing is set. *)
Theorem repair_raises_on_table_without_rows :
  (run (engine_begin sample_engine _set_documents_sequence)
       (process_with Missing, empty_tables_server)).1
    = Raises (DBAPIError NumericValueOutOfRange) ∧
  issued (run (engine_begin sample_engine _set_documents_sequence)
              (process_with Missing, empty_tables_server)).2.1
    = [SelectCoalesceMaxId; SelectSetval 0] ∧
  committed (run (engine_begin sample_engine _set_documents_sequence)
                 (process_with Missing, empty_tables_server)).2.2
    = empty_tables.
Proof. by vm_compute. Qed.

(** ** The statements of an attempt *)

Lemma run_bind_Returns {A B} (m : prog A) (f : A → prog B) w b w2 :
  run (m ≫= f) w = (Returns b, w2) →
  ∃ a w1, run m w = (Returns a, w1) ∧ run (f a) w1 = (Returns b, w2).
Proof.
  rewrite run_bind. destruct (run m w) as [[a|e] w1]; [|done].
  intros H. by exists a, w1.
Qed.

Lemma run_execute_Returns (c : connection) (st : statement) p srv res p' srv' :
  run (execute c st) (p, srv) = (Returns res, (p', srv')) →
  p' = with_issued st p.
Proof.
  rewrite run_execute.
  destruct (conn_budget p) as [[|n]|]; [done| |];
    destruct ((server_execute c st srv).1); by intros [= ? <- ?].
Qed.

Lemma run_trigger_Log (r : log_record) p srv :
  run (trigger (Log r)) (p, srv) = (Returns (), (with_log r p, srv)).
Proof. by rewrite run_trigger. Qed.

Lemma load_files_issued (c : connection) (files : list string) p srv p' srv' :
  run (load_files c files) (p, srv) = (Returns (), (p', srv')) →
  text_dir p' = text_dir p ∧
  issued p' = issued p ++
    omap (λ name,
            match read_text (path_lookup (text_dir p) name) with
            | inr content => Some (UpsertDocument name content)
            | inl _ => None
            end) files.
Proof.
  revert p srv. induction files as [|file rest IH]; intros p srv.
  - simpl. intros [= <- <-]. by rewrite app_nil_r.
  - cbn [load_files]. intros H.
    apply run_bind_Returns in H as (r & [p1 srv1] & H1 & H2).
    rewrite run_trigger in H1. cbn [handle fst snd] in H1.
    injection H1 as <- <- <-. cbn [omap list_omap].
    destruct (read_text (path_lookup (text_dir p) file)) as [[msg| | |e]|content];
      try done.
    + apply run_bind_Returns in H2 as ([] & [p2 srv2] & H2 & H3).
      rewrite run_trigger_Log in H2. injection H2 as <- <-.
      by apply IH in H3.
    + apply run_bind_Returns in H2 as (res & [p2 srv2] & H2 & H3).
      apply run_execute_Returns in H2 as ->.
      apply IH in H3 as [-> ->]. cbn [text_dir issued with_issued].
      by rewrite <- app_assoc.
Qed.

Lemma load_corpus_issued (c : connection) p srv p' srv' :
  run (load_corpus c) (p, srv) = (Returns (), (p', srv')) →
  text_dir p' = text_dir p ∧
  issued p' = issued p ++ corpus_upserts (text_dir p).
Proof.
  unfold load_corpus, corpus_upserts. intros H.
  apply run_bind_Returns in H as (ex & [p1 srv1] & H1 & H).
  rewrite run_trigger in H1. cbn [handle fst snd] in H1. injection H1 as <- <- <-.
  apply run_bind_Returns in H as (is_dir & [p2 srv2] & H2 & H).
  destruct (text_dir p) as [| |entries] eqn:Hd; cbn [path_exists] in H2, H.
  - injection H2 as <- <- <-. cbn [negb orb] in H.
    rewrite run_trigger_Log in H. injection H as <- <-.
    cbn [text_dir issued with_log path_glob]. by rewrite Hd, app_nil_r.
  - rewrite run_trigger in H2. cbn [handle fst snd] in H2. rewrite Hd in H2.
    injection H2 as <- <- <-. cbn [negb orb path_is_dir] in H.
    rewrite run_trigger_Log in H. injection H as <- <-.
    cbn [text_dir issued with_log path_glob]. by rewrite Hd, app_nil_r.
  - rewrite run_trigger in H2. cbn [handle fst snd] in H2. rewrite Hd in H2.
    injection H2 as <- <- <-. cbn [negb orb path_is_dir] in H.
    apply run_bind_Returns in H as (files & [p3 srv3] & H3 & H).
    rewrite run_trigger in H3. cbn [handle fst snd] in H3. injection H3 as <- <- <-.
    apply load_files_issued in H. by rewrite Hd in H.
Qed.

Lemma set_documents_sequence_issued (c : connection) p srv p' srv' :
  run (_set_documents_sequence c) (p, srv) = (Returns (), (p', srv')) →
  text_dir p' = text_dir p ∧
  ∃ m, issued p' = issued p ++ [SelectCoalesceMaxId; SelectSetval m].
Proof.
  unfold _set_documents_sequence. intros H.
  apply run_bind_Returns in H as (res & [p1 srv1] & H1 & H).
  apply run_execute_Returns in H1 as ->.
  apply run_bind_Returns in H as (res' & [p2 srv2] & H2 & H).
  apply run_execute_Returns in H2 as ->.
  injection H as <- <-. split; [done|]. eexists.
  cbn [issued with_issued]. by rewrite <- app_assoc.
Qed.

Lemma initialise_issued (c : connection) p srv v p' srv' :
  run (initialise c) (p, srv) = (Returns v, (p', srv')) →
  v = Normal ∧
  ∃ m, issued p' = issued p ++
         [CreateTableDocuments; CreateTableAnalyses; CreateIndexAnalysesDocumentId]
         ++ corpus_upserts (text_dir p) ++ [SelectCoalesceMaxId; SelectSetval m].
Proof.
  unfold initialise. intros H.
  apply run_bind_Returns in H as (r1 & [p1 srv1] & H1 & H).
  apply run_execute_Returns in H1 as ->.
  apply run_bind_Returns in H as (r2 & [p2 srv2] & H2 & H).
  apply run_execute_Returns in H2 as ->.
  apply run_bind_Returns in H as (r3 & [p3 srv3] & H3 & H).
  apply run_execute_Returns in H3 as ->.
  apply run_bind_Returns in H as ([] & [p4 srv4] & H4 & H).
  apply load_corpus_issued in H4 as [Hd4 Hi4].
  apply run_bind_Returns in H as ([] & [p5 srv5] & H5 & H).
  apply set_documents_sequence_issued in H5 as [Hd5 [m Hi5]].
  injection H as <- <- <-. split; [done|]. exists m.
  rewrite Hi5, Hi4. cbn [issued with_issued text_dir].
  by rewrite <- !app_assoc.
Qed.

Lemma bootstrap_block_issued (c : connection) p srv v p' srv' :
  run (bootstrap_block c) (p, srv) = (Returns v, (p', srv')) →
  (v = Return PyNone ∧
   issued p' = issued p ++ [SelectTryAdvisoryLock DB_INIT_ADVISORY_LOCK_KEY]) ∨
  (v = Normal ∧ ∃ m, issued p' = issued p ++ full_sequence (text_dir p) m).
Proof.
  unfold bootstrap_block, on_lock_answer. intros H.
  apply run_bind_Returns in H as (res & [p1 srv1] & H1 & H).
  apply run_execute_Returns in H1 as ->.
  match type of H with context [negb ?b] => destruct (negb b) end.
  - left. apply run_bind_Returns in H as ([] & [p2 srv2] & H2 & H).
    rewrite run_trigger_Log in H2. injection H2 as <- <-.
    by injection H as <- <- <-.
  - right. apply initialise_issued in H as [-> [m Hi]]. split; [done|].
    exists m. rewrite Hi. cbn [issued with_issued text_dir].
    unfold full_sequence. by rewrite <- !app_assoc.
Qed.

(** ** What the routine returns *)

(** C7 as the specification states it: the loader would return the number of
    files it processed.  With one readable file in the directory and a fresh
    server it processes that file and returns [None], not 1. *)
Lemma loader_does_not_return_a_count :
  corpus_upserts dir_with_one_file = [UpsertDocument "a.txt" [120%N]] ∧
  (run load_txt_files_to_db (process_with dir_with_one_file, fresh_server)).1
    = Returns PyNone ∧
  (run load_txt_files_to_db (process_with dir_with_one_file, fresh_server)).1
    ≠ Returns (PyInt (Z.of_nat (length (corpus_upserts dir_with_one_file)))).
Proof. split_and!; by vm_compute. Qed.

(** C7, amended.  [load_txt_files_to_db] returns [None] whenever it returns:
    no count is reported.  The files it processed show only in the statements
    it sent: either the lock query alone, or the full sequence, with one
    upsert for every matching file of the directory that could be decoded. *)
Theorem loader_returns_none (p : process) (srv : server) (v : pyval) :
  (run load_txt_files_to_db (p, srv)).1 = Returns v →
  v = PyNone ∧
  (issued (run load_txt_files_to_db (p, srv)).2.1
     = issued p ++ [SelectTryAdvisoryLock DB_INIT_ADVISORY_LOCK_KEY] ∨
   ∃ m, issued (run load_txt_files_to_db (p, srv)).2.1
          = issued p ++ full_sequence (text_dir p) m).
Proof.
  destruct (_engine p) as [e|] eqn:He.
  - rewrite (run_load_with_engine _ _ _ He). cbn zeta.
    destruct (run (bootstrap_block (engine_session e)) _)
      as [[c|ex] [p' srv']] eqn:Hb; [|done].
    apply bootstrap_block_issued in Hb as [[-> Hi]|[-> [m Hi]]]; cbn [fst snd].
    + intros [= <-]. split; [done|]. by left.
    + intros [= <-]. split; [done|]. right. by exists m.
  - by rewrite (run_load_without_engine _ _ He).
Qed.

Lemma loader_returns_none_witness :
  PyNone = PyNone ∧
  (issued (run load_txt_files_to_db (process_with dir_with_one_file, fresh_server)).2.1
     = issued (process_with dir_with_one_file)
       ++ [SelectTryAdvisoryLock DB_INIT_ADVISORY_LOCK_KEY] ∨
   ∃ m, issued (run load_txt_files_to_db
                  (process_with dir_with_one_file, fresh_server)).2.1
          = issued (process_with dir_with_one_file)
            ++ full_sequence (text_dir (process_with dir_with_one_file)) m).
Proof.
  apply (loader_returns_none (process_with dir_with_one_file) fresh_server PyNone).
  reflexivity.
Defined.

(** ** The errors of an attempt *)

Lemma run_bind_Raises {A B} (m : prog A) (f : A → prog B) w ex w2 :
  run (m ≫= f) w = (Raises ex, w2) →
  run m w = (Raises ex, w2) ∨
  ∃ a w1, run m w = (Returns a, w1) ∧ run (f a) w1 = (Raises ex, w2).
Proof.
  rewrite run_bind. destruct (run m w) as [[a|e] w1]; intros H.
  - right. by exists a, w1.
  - injection H as -> ->. by left.
Qed.

Lemma run_execute_Raises (c : connection) (st : statement) w ex w' :
  run (execute c st) w = (Raises ex, w') → environment_error ex.
Proof.
  destruct w as [p srv]. rewrite run_execute.
  destruct (conn_budget p) as [[|n]|]; [| |];
    try destruct ((server_execute c st srv).1); intros H; try done;
    injection H as <- _; right; by eexists.
Qed.

Lemma read_text_cases (e : option dir_entry) :
  (∃ content, read_text e = inr content) ∨
  read_text e = inl UnicodeDecodeError ∨
  read_text e = inl OSError.
Proof.
  destruct e as [[data|]|]; simpl; [|by right; right..].
  destruct (utf8_decode _); [left; by eexists | right; by left].
Qed.

Lemma load_files_Raises (c : connection) (files : list string) w ex w' :
  run (load_files c files) w = (Raises ex, w') → environment_error ex.
Proof.
  revert w. induction files as [|file rest IH]; intros [p srv]; [done|].
  cbn [load_files]. rewrite run_bind, run_trigger. cbn [handle fst snd].
  destruct (read_text_cases (path_lookup (text_dir p) file))
    as [[content ->]|[-> | ->]].
  - intros [H|(res & w1 & _ & H)]%run_bind_Raises.
    + by apply run_execute_Raises in H.
    + by apply IH in H.
  - rewrite run_bind, run_trigger_Log. apply IH.
  - intros [= <- _]. by left.
Qed.

Lemma load_corpus_Raises (c : connection) w ex w' :
  run (load_corpus c) w = (Raises ex, w') → environment_error ex.
Proof.
  destruct w as [p srv]. unfold load_corpus.
  rewrite run_bind, run_trigger. cbn [handle fst snd].
  rewrite run_bind.
  destruct (path_exists (text_dir p)).
  - rewrite run_trigger. cbn [handle fst snd negb orb].
    destruct (path_is_dir (text_dir p)); cbn [negb].
    + rewrite run_bind, run_trigger. cbn [handle fst snd]. apply load_files_Raises.
    + by rewrite run_trigger_Log.
  - cbn [run negb orb]. by rewrite run_trigger_Log.
Qed.

Lemma set_documents_sequence_Raises (c : connection) w ex w' :
  run (_set_documents_sequence c) w = (Raises ex, w') → environment_error ex.
Proof.
  unfold _set_documents_sequence.
  intros [H|(res & w1 & _ & H)]%run_bind_Raises;
    [by apply run_execute_Raises in H|].
  apply run_bind_Raises in H as [H|(res' & w2 & _ & H)];
    [by apply run_execute_Raises in H|done].
Qed.

Lemma initialise_Raises (c : connection) w ex w' :
  run (initialise c) w = (Raises ex, w') → environment_error ex.
Proof.
  unfold initialise.
  do 3 (intros [H|(? & ? & _ & H)]%run_bind_Raises;
        [by apply run_execute_Raises in H|]; revert H).
  intros [H|(? & ? & _ & H)]%run_bind_Raises; [by apply load_corpus_Raises in H|].
  apply run_bind_Raises in H as [H|(? & ? & _ & H)];
    [by apply set_documents_sequence_Raises in H|done].
Qed.

Lemma bootstrap_block_Raises (c : connection) w ex w' :
  run (bootstrap_block c) w = (Raises ex, w') → environment_error ex.
Proof.
  unfold bootstrap_block, on_lock_answer.
  intros [H|(res & w1 & _ & H)]%run_bind_Raises;
    [by apply run_execute_Raises in H|].
  match type of H with context [negb ?b] => destruct (negb b) end.
  - apply run_bind_Raises in H as [H|(? & [p2 srv2] & _ & H)]; [|done].
    destruct w1. by rewrite run_trigger_Log in H.
  - by apply initialise_Raises in H.
Qed.

(** With an engine, whatever the routine raises comes from the server or
    from the file system. *)
Lemma load_with_engine_Raises (p : process) (srv : server) (e : AsyncEngine) ex :
  _engine p = Some e →
  (run load_txt_files_to_db (p, srv)).1 = Raises ex → environment_error ex.
Proof.
  intros He. rewrite (run_load_with_engine _ _ _ He). cbn zeta.
  destruct (run (bootstrap_block (engine_session e)) _)
    as [[[|v]|ex'] [p' srv']] eqn:Hb; try done.
  intros [= <-]. by apply bootstrap_block_Raises in Hb.
Qed.

(** ** The engine that was never set *)

(** C8 as the specification states it: the routine would raise only when no
    engine is set.  With the engine set, a corpus file that cannot be opened
    makes it raise all the same. *)
Lemma raises_with_engine_set :
  _engine (process_with dir_with_unreadable) = Some sample_engine ∧
  (run load_txt_files_to_db (process_with dir_with_unreadable, seeded_server)).1
    = Raises OSError.
Proof. split; by vm_compute. Qed.

(** C8, amended.  [load_txt_files_to_db] raises [RuntimeError] if and only if
    no engine has been set; it then raises at once, before any request to the
    server: the process and the server are left as they were.  Other errors
    are raised with an engine set. *)
Theorem engine_not_set_fails_fast (p : process) (srv : server) :
  ((∃ msg, (run load_txt_files_to_db (p, srv)).1 = Raises (RuntimeError msg))
   ↔ _engine p = None) ∧
  (_engine p = None →
   run load_txt_files_to_db (p, srv) = (Raises (RuntimeError engine_not_set), (p, srv))).
Proof.
  split; [split|].
  - intros [msg H]. destruct (_engine p) as [e|] eqn:He; [|done].
    apply (load_with_engine_Raises _ _ _ _ He) in H as [H|[e' H]]; done.
  - intros He. exists engine_not_set. by rewrite run_load_without_engine.
  - apply run_load_without_engine.
Qed.

Lemma engine_not_set_fails_fast_witness :
  run load_txt_files_to_db
      ({| _engine := None; text_dir := dir_with_one_file; log := [];
          conn_budget := None; issued := [] |}, fresh_server)
  = (Raises (RuntimeError engine_not_set),
     ({| _engine := None; text_dir := dir_with_one_file; log := [];
         conn_budget := None; issued := [] |}, fresh_server)).
Proof.
  apply (proj2 (engine_not_set_fails_fast
                  {| _engine := None; text_dir := dir_with_one_file; log := [];
                     conn_budget := None; issued := [] |} fresh_server)).
  reflexivity.
Defined.

(** ** The corpus directory that is not there *)

(** A statement that the server accepts, inside a transaction and over a
    connection that does not break. *)
Lemma run_execute_accepted (s : session) (st : statement) (p : process)
    (srv : server) (res : cursor) :
  is_Some (open_txn srv !! s) →
  conn_budget p = None →
  (exec_statement s st (view srv s) (advisory_locks srv)).1.1 = inr res →
  ∃ srv',
    run (execute s st) (p, srv) = (Returns res, (with_issued st p, srv')) ∧
    is_Some (open_txn srv' !! s) ∧
    view srv' s = (exec_statement s st (view srv s) (advisory_locks srv)).1.2.
Proof.
  intros Hs Hb Hres. exists (server_execute s st srv).2.
  rewrite run_execute, Hb, server_execute_response, Hres. split_and!; [done| |].
  - by apply is_Some_server_execute.
  - by apply view_server_execute.
Qed.

(** The three DDL statements never fail and leave [create_schema]. *)
Lemma run_initialise (s : session) (p : process) (srv : server) :
  is_Some (open_txn srv !! s) →
  conn_budget p = None →
  ∃ p' srv',
    run (initialise s) (p, srv)
    = run (load_corpus s;; _set_documents_sequence s;; Ret Normal) (p', srv') ∧
    text_dir p' = text_dir p ∧ conn_budget p' = None ∧ log p' = log p ∧
    is_Some (open_txn srv' !! s) ∧
    view srv' s = create_schema (view srv s).
Proof.
  intros Hs Hb. unfold initialise.
  destruct (run_execute_accepted s CreateTableDocuments p srv [] Hs Hb)
    as (srv1 & Hr1 & Hs1 & Hv1).
  { cbn [exec_statement]. by destruct (documents (view srv s)). }
  rewrite run_bind, Hr1.
  destruct (run_execute_accepted s CreateTableAnalyses
              (with_issued CreateTableDocuments p) srv1 [] Hs1)
    as (srv2 & Hr2 & Hs2 & Hv2).
  { cbn [with_issued conn_budget]. by rewrite ?Hb. }
  { rewrite Hv1. cbn [exec_statement].
    by destruct (view srv s) as [[t|] [an|] ix]. }
  rewrite run_bind, Hr2.
  destruct (run_execute_accepted s CreateIndexAnalysesDocumentId
              (with_issued CreateTableAnalyses (with_issued CreateTableDocuments p))
              srv2 [] Hs2)
    as (srv3 & Hr3 & Hs3 & Hv3).
  { cbn [with_issued conn_budget]. by rewrite ?Hb. }
  { rewrite Hv2, Hv1. cbn [exec_statement].
    by destruct (view srv s) as [[t|] [an|] ix]. }
  rewrite run_bind, Hr3.
  eexists _, srv3. split; [done|]. split_and!; try done.
  - cbn [with_issued conn_budget]. by rewrite Hb.
  - rewrite Hv3, Hv2, Hv1. unfold create_schema. cbn [exec_statement].
    destruct (view srv s) as [[t|] [an|] ix]; done.
Qed.

(** Without a corpus directory the routine ends with the sequence repair,
    and the repair decides: the routine raises exactly when the largest
    identifier of [documents], 0 for a table without rows, is below the
    minimum of the sequence. *)
Lemma missing_directory_outcome (p : process) (srv : server) (e : AsyncEngine) :
  _engine p = Some e →
  path_is_dir (text_dir p) = false →
  conn_budget p = None →
  (try_advisory_lock (engine_session e) DB_INIT_ADVISORY_LOCK_KEY
     (advisory_locks srv)).1 = true →
  let t := default {| doc_rows := []; documents_id_seq := serial |}
             (documents (committed srv)) in
  (run load_txt_files_to_db (p, srv)).1 =
  if decide (coalesce_max_id (doc_rows t) < seq_min (documents_id_seq t))
  then Raises (DBAPIError NumericValueOutOfRange)
  else Returns PyNone.
Proof.
  intros He Hdir Hb Hg t. rewrite (run_load_with_engine _ _ _ He). cbn zeta.
  set (s := engine_session e) in *.
  assert (Hs : open_txn (begin_txn s srv) !! s = Some None)
    by apply lookup_insert_eq.
  rewrite (run_bootstrap_block _ _ _ _ Hs) by (by rewrite Hb). cbn zeta.
  cbn [begin_txn advisory_locks]. rewrite Hg.
  match goal with |- context [run (initialise s) (?p1, ?srv1)] =>
    destruct (run_initialise s p1 srv1) as (p2 & srv2 & -> & Hd2 & Hb2 & _ & Hs2 & Hv2)
  end.
  { cbn [open_txn]. by rewrite Hs. }
  { cbn [with_issued conn_budget]. by rewrite ?Hb. }
  match type of Hv2 with _ = create_schema ?v =>
    assert (Hv0 : v = committed srv)
      by (unfold view; cbn [open_txn committed begin_txn];
          by rewrite lookup_insert_eq)
  end.
  rewrite Hv0 in Hv2.
  cbn [text_dir with_issued] in Hd2.
  (* the corpus step only logs *)
  rewrite run_bind. unfold load_corpus.
  rewrite run_bind, run_trigger. cbn [handle fst snd].
  rewrite run_bind.
  assert (Hlog : run (if path_exists (text_dir p2)
                      then trigger PathIsDir else Ret false) (p2, srv2)
                 = (Returns false, (p2, srv2))).
  { destruct (path_exists (text_dir p2)); [|done].
    rewrite run_trigger. cbn [handle fst snd]. by rewrite Hd2, Hdir. }
  rewrite Hlog. rewrite orb_true_r. rewrite run_trigger_Log.
  (* the repair *)
  rewrite run_bind.
  pose proof (run_set_documents_sequence s (with_log WarningNoTextDirectory p2)
                srv2 t Hs2) as Hrep.
  rewrite Hv2 in Hrep. specialize (Hrep eq_refl Hb2). cbn zeta in Hrep.
  destruct Hrep as [_ Hrep].
  destruct (run (_set_documents_sequence s) _) as [o [p3 srv3]].
  cbn [fst snd] in Hrep.
  destruct (decide (coalesce_max_id (doc_rows t) < seq_min (documents_id_seq t)));
    destruct Hrep as [-> _]; done.
Qed.

(** On a database that already holds a document, the bootstrap goes through
    without a corpus directory: a warning, no upsert, the repair. *)
Lemma missing_directory_with_documents :
  (run load_txt_files_to_db (process_with Missing, seeded_server)).1 = Returns PyNone ∧
  log (run load_txt_files_to_db (process_with Missing, seeded_server)).2.1
    = [WarningNoTextDirectory; InfoInitialized] ∧
  committed (run load_txt_files_to_db (process_with Missing, seeded_server)).2.2
    = seeded_database.
Proof. split_and!; by vm_compute. Qed.

(** C6 fails on a fresh server.  Without a corpus directory (or with a file in
    its place) the routine logs the warning and loads nothing, the table
    [documents] it has just created has no rows, and the repair hands 0 to
    [setval], which refuses it: the routine raises and the rollback takes the
    schema with it. *)
Theorem missing_directory_fails_on_fresh_server :
  (run load_txt_files_to_db (process_with Missing, fresh_server)).1
    = Raises (DBAPIError NumericValueOutOfRange) ∧
  log (run load_txt_files_to_db (process_with Missing, fresh_server)).2.1
    = [WarningNoTextDirectory] ∧
  issued (run load_txt_files_to_db (process_with Missing, fresh_server)).2.1
    = full_sequence Missing 0 ∧
  committed (run load_txt_files_to_db (process_with Missing, fresh_server)).2.2
    = empty_database ∧
  (run load_txt_files_to_db (process_with NotADirectory, fresh_server)).1
    = Raises (DBAPIError NumericValueOutOfRange) ∧
  committed (run load_txt_files_to_db (process_with NotADirectory, fresh_server)).2.2
    = empty_database.
Proof. split_and!; by vm_compute. Qed.

(** ** Files that cannot be read *)

Lemma elem_of_sorted (names : list string) (name : string) :
  name ∈ sorted names ↔ name ∈ names.
Proof. unfold sorted. by rewrite merge_sort_Permutation. Qed.

Lemma elem_of_path_glob (entries : gmap string dir_entry) (name : string) :
  name ∈ path_glob (Directory entries) ↔
  matches_txt name = true ∧ is_Some (entries !! name).
Proof.
  unfold path_glob. rewrite list_elem_of_filter, list_elem_of_fmap. split.
  - intros [Hm ([n e] & -> & Hin)]. apply elem_of_map_to_list in Hin.
    split; [done|]. by exists e.
  - intros [Hm [e He]]. split; [done|]. exists (name, e). split; [done|].
    by apply elem_of_map_to_list.
Qed.

(** A load that reaches its end has met no unreadable file. *)
Lemma load_files_Returns_readable (c : connection) (files : list string) p srv w' :
  run (load_files c files) (p, srv) = (Returns (), w') →
  ∀ file, file ∈ files → read_text (path_lookup (text_dir p) file) ≠ inl OSError.
Proof.
  revert p srv. induction files as [|f rest IH]; intros p srv H file Hin.
  - by apply elem_of_nil in Hin.
  - cbn [load_files] in H.
    apply run_bind_Returns in H as (r & [p1 srv1] & H1 & H2).
    rewrite run_trigger in H1. cbn [handle fst snd] in H1. injection H1 as <- <- <-.
    apply elem_of_cons in Hin as [->|Hin].
    + destruct (read_text (path_lookup (text_dir p) f)) as [[| | |]|]; done.
    + destruct (read_text (path_lookup (text_dir p) f)) as [[msg| | |e]|content];
        try done.
      * apply run_bind_Returns in H2 as ([] & [p2 srv2] & H2 & H3).
        rewrite run_trigger_Log in H2. injection H2 as <- <-.
        by apply (IH _ _ H3).
      * apply run_bind_Returns in H2 as (res & [p2 srv2] & H2 & H3).
        apply run_execute_Returns in H2 as ->.
        by apply (IH _ _ H3).
Qed.

Lemma load_corpus_Returns_readable (c : connection) p srv w' entries name :
  text_dir p = Directory entries →
  entries !! name = Some Unreadable →
  matches_txt name = true →
  run (load_corpus c) (p, srv) ≠ (Returns (), w').
Proof.
  intros Hd He Hm H. unfold load_corpus in H.
  rewrite run_bind, run_trigger in H. cbn [handle fst snd] in H.
  rewrite Hd in H. cbn [path_exists] in H.
  rewrite run_bind, run_trigger in H. cbn [handle fst snd] in H.
  rewrite Hd in H. cbn [path_is_dir negb orb] in H.
  rewrite run_bind, run_trigger in H. cbn [handle fst snd] in H.
  rewrite Hd in H.
  apply (load_files_Returns_readable _ _ _ _ _ H name).
  - apply elem_of_sorted, elem_of_path_glob. by rewrite He.
  - rewrite Hd. cbn [path_lookup]. by rewrite He.
Qed.

Lemma initialise_Returns_readable (c : connection) p srv v w' entries name :
  text_dir p = Directory entries →
  entries !! name = Some Unreadable →
  matches_txt name = true →
  run (initialise c) (p, srv) ≠ (Returns v, w').
Proof.
  intros Hd He Hm H. unfold initialise in H.
  apply run_bind_Returns in H as (r1 & [p1 srv1] & H1 & H).
  apply run_execute_Returns in H1 as ->.
  apply run_bind_Returns in H as (r2 & [p2 srv2] & H2 & H).
  apply run_execute_Returns in H2 as ->.
  apply run_bind_Returns in H as (r3 & [p3 srv3] & H3 & H).
  apply run_execute_Returns in H3 as ->.
  apply run_bind_Returns in H as ([] & w4 & H4 & _).
  by apply (load_corpus_Returns_readable _ _ _ _ entries name) in H4.
Qed.

(** C10.  In the loop only [UnicodeDecodeError] is caught.  A file that
    cannot be opened or read raises [OSError] out of the loop at once, the
    files after it are not visited; and a bootstrap that holds the lock over
    a directory with such a file among its [*.txt] entries never returns: it
    raises an error of the file system or of the server, and its transaction
    is rolled back: no transaction is left open on the session of the engine,
    the tables and the index are as they were committed before, and on a
    database that had no table [documents] the committed database is what it
    was, the schema the call created and the documents it loaded up to there
    undone. *)
Theorem unreadable_file_aborts_bootstrap :
  (∀ (c : connection) (file : string) (rest : list string) (p : process) (srv : server),
     read_text (path_lookup (text_dir p) file) = inl OSError →
     run (load_files c (file :: rest)) (p, srv) = (Raises OSError, (p, srv))) ∧
  (∀ (p : process) (srv : server) (e : AsyncEngine)
     (entries : gmap string dir_entry) (name : string),
     _engine p = Some e →
     (try_advisory_lock (engine_session e) DB_INIT_ADVISORY_LOCK_KEY
        (advisory_locks srv)).1 = true →
     text_dir p = Directory entries →
     entries !! name = Some Unreadable →
     matches_txt name = true →
     ∃ ex, (run load_txt_files_to_db (p, srv)).1 = Raises ex ∧
           environment_error ex ∧
           open_txn (run load_txt_files_to_db (p, srv)).2.2 !! engine_session e
             = None ∧
           tables (committed (run load_txt_files_to_db (p, srv)).2.2)
             = tables (committed srv) ∧
           (documents (committed srv) = None →
            committed (run load_txt_files_to_db (p, srv)).2.2 = committed srv)).
Proof.
  split.
  - intros c file rest p srv Hr. cbn [load_files].
    rewrite run_bind, run_trigger. cbn [handle fst snd]. by rewrite Hr.
  - intros p srv e entries name He Hg Hd Hn Hm.
    destruct (run load_txt_files_to_db (p, srv)).1 as [v|ex] eqn:Hrun.
    + exfalso. revert Hrun. rewrite (run_load_with_engine _ _ _ He). cbn zeta.
      set (s := engine_session e) in *.
      assert (Hs : open_txn (begin_txn s srv) !! s = Some None)
        by apply lookup_insert_eq.
      destruct (run (bootstrap_block s) (p, begin_txn s srv))
        as [[c|ex] [p' srv']] eqn:Hb; [|by destruct ex].
      intros _. revert Hb.
      destruct (decide (conn_budget p = Some 0%nat)) as [H0|H0].
      * unfold bootstrap_block, on_lock_answer. rewrite run_bind, run_execute, H0. done.
      * rewrite (run_bootstrap_block _ _ _ _ Hs H0). cbn zeta.
        cbn [advisory_locks begin_txn]. rewrite Hg.
        by apply (initialise_Returns_readable _ _ _ _ _ entries name).
    + exists ex. split_and!; [done| | | |].
      * by apply (load_with_engine_Raises p srv e).
      * by apply load_closes_the_transaction.
      * by apply (load_Raises_tables p srv ex).
      * destruct (load_Raises_committed _ _ _ Hrun) as [now ->].
        apply keep_sequences_fresh.
Qed.

(** On a fresh server, with [a.txt] readable and [b.txt] not: the schema and
    the row of [a.txt] are undone. *)
Lemma unreadable_file_aborts_bootstrap_witness :
  ∃ ex, (run load_txt_files_to_db
           (process_with dir_with_unreadable, fresh_server)).1 = Raises ex ∧
        environment_error ex ∧
        UpsertDocument "a.txt" [120%N]
          ∈ issued (run load_txt_files_to_db
                      (process_with dir_with_unreadable, fresh_server)).2.1 ∧
        open_txn (run load_txt_files_to_db
                    (process_with dir_with_unreadable, fresh_server)).2.2
          !! engine_session sample_engine = None ∧
        committed (run load_txt_files_to_db
                     (process_with dir_with_unreadable, fresh_server)).2.2
          = empty_database.
Proof.
  destruct (proj2 unreadable_file_aborts_bootstrap
              (process_with dir_with_unreadable) fresh_server sample_engine
              (<["a.txt" := RegularFile [x78]]> (<["b.txt" := Unreadable]> ∅)) "b.txt")
    as (ex & Hr & Henv & Hclosed & _ & Hfresh).
  - reflexivity.
  - reflexivity.
  - reflexivity.
  - reflexivity.
  - reflexivity.
  - exists ex. split_and!.
    + exact Hr.
    + exact Henv.
    + compute_done.
    + exact Hclosed.
    + exact (Hfresh eq_refl).
Defined.

(** ** Loading the corpus *)

Lemma with_documents_id (db : database) (t : documents_table) :
  documents db = Some t → with_documents t db = db.
Proof. destruct db. simpl. by intros ->. Qed.

Lemma run_execute_upsert (c : connection) (fn : string) (content : text)
    (p : process) (srv : server) (t : documents_table) :
  is_Some (open_txn srv !! c) →
  documents (view srv c) = Some t →
  conn_budget p = None →
  run (execute c (UpsertDocument fn content)) (p, srv) =
  (match (upsert_document fn content t).1 with
   | Some e => Raises (DBAPIError e)
   | None => Returns []
   end,
   (with_issued (UpsertDocument fn content) p,
    {| committed := committed srv;
       open_txn :=
         <[c := Some (with_documents (upsert_document fn content t).2 (view srv c))]>
           (open_txn srv);
       advisory_locks := advisory_locks srv |})).
Proof.
  intros [version Hs] Ht Hb.
  rewrite run_execute, Hb, (server_execute_in_txn _ _ _ _ Hs).
  cbn [exec_statement writes]. rewrite Ht.
  by destruct (upsert_document fn content t) as [[e|] t'].
Qed.

(** The loop of [load_files], inside a transaction that sees the table [t]
    and over a connection that does not break, computes [load_table]. *)
Lemma run_load_files (c : connection) (files : list string) (p : process)
    (srv : server) (t : documents_table) :
  is_Some (open_txn srv !! c) →
  documents (view srv c) = Some t →
  conn_budget p = None →
  ∃ p' srv',
    run (load_files c files) (p, srv) =
      (match (load_table (text_dir p) files t).1 with
       | Some e => Raises e
       | None => Returns ()
       end, (p', srv')) ∧
    text_dir p' = text_dir p ∧
    conn_budget p' = None ∧
    is_Some (open_txn srv' !! c) ∧
    view srv' c = with_documents (load_table (text_dir p) files t).2 (view srv c).
Proof.
  revert p srv t. induction files as [|file rest IH]; intros p srv t Hs Ht Hb.
  - exists p, srv. cbn. by rewrite with_documents_id.
  - cbn [load_files load_table]. rewrite run_bind, run_trigger. cbn [handle fst snd].
    destruct (read_text_cases (path_lookup (text_dir p) file))
      as [[content ->]|[-> | ->]].
    + rewrite run_bind, (run_execute_upsert _ _ _ _ _ _ Hs Ht Hb).
      destruct (upsert_document file content t) as [[e|] t'] eqn:Hu; cbn [fst snd].
      * eexists _, _. split; [done|]. split_and!; try done.
        -- cbn. by rewrite Hb.
        -- cbn [open_txn]. rewrite lookup_insert_eq. by eexists.
        -- apply view_insert.
      * edestruct (IH (with_issued (UpsertDocument file content) p)
                      {| committed := committed srv;
                         open_txn := <[c := Some (with_documents t' (view srv c))]>
                                       (open_txn srv);
                         advisory_locks := advisory_locks srv |} t')
          as (p' & srv' & Hr & Hd & Hb' & Hs' & Hv');
          [ cbn [open_txn]; rewrite lookup_insert_eq; by eexists
          | by rewrite view_insert
          | by cbn; rewrite Hb |].
        exists p', srv'. cbn [text_dir with_issued] in Hr, Hd, Hv'.
        rewrite Hr. split_and!; try done. by rewrite Hv', view_insert.
    + rewrite run_bind, run_trigger_Log.
      destruct (IH (with_log (WarningNonUtf8 file) p) srv t Hs Ht Hb)
        as (p' & srv' & Hr & Hd & Hb' & Hs' & Hv').
      exists p', srv'. by rewrite Hr.
    + exists p, srv. cbn. by rewrite with_documents_id.
Qed.

Lemma set_content_same (fn : string) (c : text) (r : document) :
  (doc_filename r = fn → doc_content r = c) → set_content fn c r = r.
Proof.
  unfold set_content. case_decide as Hfn; [|done].
  intros Hc. specialize (Hc Hfn). destruct r. simpl in *. by subst.
Qed.

Lemma row_keys_set_content (fn : string) (c : text) (rows : list document) :
  row_keys (set_content fn c <$> rows) = row_keys rows.
Proof.
  unfold row_keys. rewrite <- list_fmap_compose. apply list_fmap_ext.
  intros i r _. unfold set_content. simpl. case_decide; simpl; congruence.
Qed.

Lemma filenames_set_content (fn : string) (c : text) (rows : list document) :
  doc_filename <$> (set_content fn c <$> rows) = doc_filename <$> rows.
Proof.
  rewrite <- list_fmap_compose. apply list_fmap_ext.
  intros i r _. unfold set_content. simpl. case_decide; simpl; congruence.
Qed.

(** The rows after an upsert that succeeds. *)
Lemma upsert_document_rows (fn : string) (c : text) (t t' : documents_table) :
  upsert_document fn c t = (None, t') →
  doc_rows t' =
    if decide (fn ∈ doc_filename <$> doc_rows t)
    then set_content fn c <$> doc_rows t
    else doc_rows t ++ [Document (nextval (documents_id_seq t)).1 fn c].
Proof.
  unfold upsert_document.
  destruct (nextval (documents_id_seq t)) as [id seq'] eqn:Hn. cbn [fst].
  destruct (decide (fn ∈ doc_filename <$> doc_rows t)); [by intros [= <-]|].
  destruct (decide (id ∈ doc_id <$> doc_rows t)); [done|]. by intros [= <-].
Qed.

Lemma upsert_document_stored (dir : path_state) (fn : string) (c : text)
    (t t' : documents_table) :
  read_text (path_lookup dir fn) = inr c →
  upsert_document fn c t = (None, t') →
  stored dir (doc_rows t') fn ∧
  (∀ name, stored dir (doc_rows t) name → stored dir (doc_rows t') name) ∧
  row_keys (doc_rows t) `prefix_of` row_keys (doc_rows t').
Proof.
  intros Hr Hu. apply upsert_document_rows in Hu.
  destruct (decide (fn ∈ doc_filename <$> doc_rows t)) as [Hin|Hnin]; rewrite Hu.
  - split_and!.
    + intros c' Hc'. rewrite Hr in Hc'. injection Hc' as <-.
      rewrite filenames_set_content. split; [done|].
      intros r (r0 & -> & Hr0)%list_elem_of_fmap. unfold set_content.
      case_decide; [done|]. by intros.
    + intros name Hst c' Hc'. destruct (Hst c' Hc') as [Hin' Hall].
      rewrite filenames_set_content. split; [done|].
      intros r (r0 & -> & Hr0)%list_elem_of_fmap. unfold set_content.
      case_decide as Hfn; simpl.
      * intros <-. rewrite Hr in Hc'. by injection Hc' as <-.
      * by apply Hall.
    + by rewrite row_keys_set_content.
  - split_and!.
    + intros c' Hc'. rewrite Hr in Hc'. injection Hc' as <-.
      rewrite fmap_app. split; [apply elem_of_app; right; by left|].
      intros r [Hin|Hin%list_elem_of_singleton]%elem_of_app; [|by subst r].
      intros Hfn. destruct Hnin. rewrite <- Hfn. by apply list_elem_of_fmap_2.
    + intros name Hst c' Hc'. destruct (Hst c' Hc') as [Hin' Hall].
      rewrite fmap_app. split; [apply elem_of_app; by left|].
      intros r [Hin|Hin%list_elem_of_singleton]%elem_of_app; [by apply Hall|].
      subst r. simpl. intros <-. destruct Hnin. done.
    + unfold row_keys. rewrite fmap_app. by apply prefix_app_r.
Qed.

(** What a load that succeeds leaves in the table. *)
Lemma load_table_stored (dir : path_state) (files : list string) (t : documents_table) :
  (load_table dir files t).1 = None →
  (∀ name, name ∈ files → stored dir (doc_rows (load_table dir files t).2) name) ∧
  (∀ name, stored dir (doc_rows t) name →
           stored dir (doc_rows (load_table dir files t).2) name) ∧
  row_keys (doc_rows t) `prefix_of` row_keys (doc_rows (load_table dir files t).2) ∧
  (∀ name, name ∈ files → read_text (path_lookup dir name) ≠ inl OSError).
Proof.
  revert t. induction files as [|file rest IH]; intros t; cbn [load_table].
  - intros _. split_and!; try done; by intros name ?%elem_of_nil.
  - destruct (read_text_cases (path_lookup dir file)) as [[content Hr]|[Hr|Hr]];
      rewrite Hr; [| |done].
    + destruct (upsert_document file content t) as [[e|] t'] eqn:Hu; [done|].
      intros H. destruct (IH t' H) as (IH1 & IH2 & IH3 & IH4).
      destruct (upsert_document_stored dir _ _ _ _ Hr Hu) as (Hs1 & Hs2 & Hs3).
      split_and!.
      * intros name [->|Hin]%elem_of_cons; [by apply IH2|by apply IH1].
      * intros name Hst. by apply IH2, Hs2.
      * by etrans.
      * intros name [->|Hin]%elem_of_cons; [by rewrite Hr|by apply IH4].
    + intros H. destruct (IH t H) as (IH1 & IH2 & IH3 & IH4). split_and!; try done.
      * intros name [->|Hin]%elem_of_cons; [|by apply IH1].
        intros c Hc. by rewrite Hr in Hc.
      * intros name [->|Hin]%elem_of_cons; [by rewrite Hr|by apply IH4].
Qed.

(** Loading files that are all stored changes no row. *)
Lemma load_table_fixed (dir : path_state) (files : list string) (t : documents_table) :
  (∀ name, name ∈ files → stored dir (doc_rows t) name) →
  (∀ name, name ∈ files → read_text (path_lookup dir name) ≠ inl OSError) →
  (load_table dir files t).1 = None ∧
  doc_rows (load_table dir files t).2 = doc_rows t.
Proof.
  revert t. induction files as [|file rest IH]; intros t Hst Hok; cbn [load_table];
    [done|].
  destruct (read_text_cases (path_lookup dir file)) as [[content Hr]|[Hr|Hr]];
    rewrite Hr.
  - destruct (Hst file ltac:(left) content Hr) as [Hin Hall].
    assert (Hu : upsert_document file content t =
                 (None, {| doc_rows := doc_rows t;
                           documents_id_seq := (nextval (documents_id_seq t)).2 |})).
    { unfold upsert_document. destruct (nextval (documents_id_seq t)) as [id seq'].
      rewrite decide_True by done. do 2 f_equal.
      rewrite <- (list_fmap_id (doc_rows t)) at 2. apply list_fmap_ext.
      intros i r Hi. apply set_content_same. intros Hfn. apply Hall; [|done].
      by eapply list_elem_of_lookup_2. }
    rewrite Hu.
    apply (IH {| doc_rows := doc_rows t;
                 documents_id_seq := (nextval (documents_id_seq t)).2 |}).
    + intros name Hin'. apply Hst. by right.
    + intros name Hin'. apply Hok. by right.
  - apply IH.
    + intros name Hin'. apply Hst. by right.
    + intros name Hin'. apply Hok. by right.
  - by destruct (Hok file ltac:(left)).
Qed.

Lemma run_load_corpus (c : connection) (p : process) (srv : server)
    (t : documents_table) :
  is_Some (open_txn srv !! c) →
  documents (view srv c) = Some t →
  conn_budget p = None →
  let files := sorted (path_glob (text_dir p)) in
  ∃ p' srv',
    run (load_corpus c) (p, srv) =
      (match (load_table (text_dir p) files t).1 with
       | Some e => Raises e
       | None => Returns ()
       end, (p', srv')) ∧
    text_dir p' = text_dir p ∧
    conn_budget p' = None ∧
    is_Some (open_txn srv' !! c) ∧
    view srv' c = with_documents (load_table (text_dir p) files t).2 (view srv c).
Proof.
  intros Hs Ht Hb files. subst files. unfold load_corpus.
  rewrite run_bind, run_trigger. cbn [handle fst snd].
  rewrite run_bind.
  destruct (text_dir p) as [| |entries] eqn:Hd; cbn [path_exists].
  - cbn [run negb orb]. rewrite run_trigger_Log.
    exists (with_log WarningNoTextDirectory p), srv.
    cbn. by rewrite with_documents_id.
  - rewrite run_trigger. cbn [handle fst snd]. rewrite Hd.
    cbn [path_is_dir negb orb]. rewrite run_trigger_Log.
    exists (with_log WarningNoTextDirectory p), srv.
    cbn. by rewrite with_documents_id.
  - rewrite run_trigger. cbn [handle fst snd]. rewrite Hd.
    cbn [path_is_dir negb orb]. rewrite run_bind, run_trigger.
    cbn [handle fst snd]. rewrite Hd.
    destruct (run_load_files c (sorted (path_glob (Directory entries))) p srv t
                Hs Ht Hb) as (p' & srv' & Hr & Hd' & Hb' & Hs' & Hv').
    rewrite Hd in Hr, Hd', Hv'. by exists p', srv'.
Qed.

(** ** Reloading the corpus *)

(** Every upsert draws one value from the sequence, also when it only
    updates a row; a load draws one value at most for every file. *)
Lemma upsert_document_sequence (fn : string) (c : text) (t : documents_table) :
  documents_id_seq (upsert_document fn c t).2 = (nextval (documents_id_seq t)).2.
Proof.
  unfold upsert_document. destruct (nextval (documents_id_seq t)) as [id seq'].
  by repeat case_decide.
Qed.

Lemma nextval_last_value (s : sequence) :
  last_value s ≤ last_value (nextval s).2 ≤ last_value s + 1.
Proof. unfold nextval. cbn. destruct (is_called s); lia. Qed.

Lemma load_table_sequence (dir : path_state) (files : list string)
    (t : documents_table) :
  last_value (documents_id_seq t)
  ≤ last_value (documents_id_seq (load_table dir files t).2)
  ≤ last_value (documents_id_seq t) + Z.of_nat (length files).
Proof.
  revert t. induction files as [|file rest IH]; intros t; cbn [load_table length].
  - cbn. lia.
  - destruct (read_text (path_lookup dir file)) as [[msg| | |e]|content];
      cbn [snd]; try lia.
    + specialize (IH t). lia.
    + pose proof (upsert_document_sequence file content t) as Hseq.
      pose proof (nextval_last_value (documents_id_seq t)) as Hn.
      destruct (upsert_document file content t) as [[e|] t']; cbn [snd] in *.
      * rewrite Hseq. lia.
      * specialize (IH t'). rewrite Hseq in IH. lia.
Qed.

Lemma length_sorted (names : list string) : length (sorted names) = length names.
Proof. unfold sorted. by rewrite merge_sort_Permutation. Qed.

(** C4 as the specification states it: the table after a load would depend
    on the directory alone.  The same directory, with the one file [a.txt],
    loaded into the empty table and into a table that holds [old.txt] from
    before, gives two different tables: the loader never deletes, and the
    identifier of [a.txt] is the next value of the sequence it meets. *)
Lemma table_after_load_depends_on_history :
  (run (engine_begin sample_engine load_corpus)
       (process_with dir_with_one_file, empty_tables_server)).1 = Returns () ∧
  (run (engine_begin sample_engine load_corpus)
       (process_with dir_with_one_file, stale_server)).1 = Returns () ∧
  tables (committed (run (engine_begin sample_engine load_corpus)
                         (process_with dir_with_one_file, empty_tables_server)).2.2)
  ≠ tables (committed (run (engine_begin sample_engine load_corpus)
                           (process_with dir_with_one_file, stale_server)).2.2).
Proof. split_and!; by vm_compute. Qed.

(** C4, amended.  Inside a transaction that sees the table [documents], over
    a connection that does not break, and while the sequence of
    [documents.id] has a value left for every file of the directory in each
    of two loads (every upsert draws one, also when it only updates a row,
    and 2147483647 is the last one): when a load of the corpus succeeds, a
    second load of the unchanged directory succeeds as well and leaves the
    rows exactly as the first one left them, and the sequence has not been
    drawn beyond its last value.  After the first load every matching file
    that decodes is in the table under its name with its text, and the rows
    that were there before keep their identifiers and file names, in place.
    Rows of files no longer in the directory are not removed: the table
    depends on what was loaded before. *)
Theorem corpus_load_is_idempotent (c : connection) (p : process) (srv : server)
    (t : documents_table) :
  is_Some (open_txn srv !! c) →
  documents (view srv c) = Some t →
  conn_budget p = None →
  last_value (documents_id_seq t)
    + 2 * Z.of_nat (length (path_glob (text_dir p))) ≤ int4_max →
  (run (load_corpus c) (p, srv)).1 = Returns () →
  (run (load_corpus c) (run (load_corpus c) (p, srv)).2).1 = Returns () ∧
  rows_seen (run (load_corpus c) (run (load_corpus c) (p, srv)).2).2 c
    = rows_seen (run (load_corpus c) (p, srv)).2 c ∧
  (∃ t2,
     documents (view (run (load_corpus c) (run (load_corpus c) (p, srv)).2).2.2 c)
       = Some t2 ∧
     last_value (documents_id_seq t2) ≤ int4_max) ∧
  ∃ rows,
    rows_seen (run (load_corpus c) (p, srv)).2 c = Some rows ∧
    (∀ name, name ∈ path_glob (text_dir p) → stored (text_dir p) rows name) ∧
    row_keys (doc_rows t) `prefix_of` row_keys rows.
Proof.
  intros Hs Ht Hb Hroom.
  destruct (run_load_corpus c p srv t Hs Ht Hb)
    as (p1 & srv1 & Hr1 & Hd1 & Hb1 & Hs1 & Hv1).
  cbn zeta in Hr1, Hv1. rewrite Hr1. cbn [fst snd].
  set (files := sorted (path_glob (text_dir p))) in *.
  destruct (load_table (text_dir p) files t) as [[e|] t1] eqn:Hl; [done|]. intros _.
  cbn [fst snd] in Hv1.
  destruct (load_table_stored (text_dir p) files t) as (Hst & _ & Hpre & Hok);
    [by rewrite Hl|]. rewrite Hl in Hst, Hpre. cbn [fst snd] in Hst, Hpre.
  destruct (run_load_corpus c p1 srv1 t1 Hs1 ltac:(by rewrite Hv1) Hb1)
    as (p2 & srv2 & Hr2 & Hd2 & Hb2 & Hs2 & Hv2).
  cbn zeta in Hr2, Hv2. rewrite Hd1 in Hr2, Hv2. fold files in Hr2, Hv2.
  destruct (load_table_fixed (text_dir p) files t1 Hst Hok) as [Hn Hrows].
  pose proof (load_table_sequence (text_dir p) files t) as Hseq1.
  pose proof (load_table_sequence (text_dir p) files t1) as Hseq2.
  rewrite Hl in Hseq1. cbn [snd] in Hseq1.
  unfold files in Hseq1, Hseq2. rewrite length_sorted in Hseq1, Hseq2.
  fold files in Hseq1, Hseq2.
  rewrite Hr2, Hn. unfold rows_seen. cbn [fst snd]. rewrite Hv2, Hv1. cbn.
  split_and!; [done|by rewrite Hrows| |].
  { eexists. split; [done|]. lia. }
  exists (doc_rows t1). split_and!; [done| |done].
  intros name Hin. apply Hst. by apply elem_of_sorted.
Qed.

Lemma corpus_load_is_idempotent_witness :
  (run (load_corpus 2%nat)
       (run (load_corpus 2%nat)
            (process_with dir_with_one_file,
             begin_txn 2%nat empty_tables_server)).2).1 = Returns () ∧
  rows_seen (run (load_corpus 2%nat)
               (run (load_corpus 2%nat)
                    (process_with dir_with_one_file,
                     begin_txn 2%nat empty_tables_server)).2).2 2%nat
    = rows_seen (run (load_corpus 2%nat)
                   (process_with dir_with_one_file,
                    begin_txn 2%nat empty_tables_server)).2 2%nat.
Proof.
  destruct (corpus_load_is_idempotent 2%nat (process_with dir_with_one_file)
              (begin_txn 2%nat empty_tables_server)
              {| doc_rows := []; documents_id_seq := serial |})
    as (H1 & H2 & _).
  - by exists None.
  - reflexivity.
  - reflexivity.
  - by vm_compute.
  - reflexivity.
  - split; [exact H1 | exact H2].
Defined.

(** ** Files that are not UTF-8 *)

Lemma alike_bind {A B} rel (m m' : prog A) (f f' : A → prog B) wA wB :
  alike rel (run m wA) (run m' wB) →
  (∀ a pA pB srv, rel pA pB →
     alike rel (run (f a) (pA, srv)) (run (f' a) (pB, srv))) →
  alike rel (run (m ≫= f) wA) (run (m' ≫= f') wB).
Proof.
  intros (Ho & Hs & Hr) Hf. rewrite !run_bind.
  destruct (run m wA) as [oA [pA srvA]], (run m' wB) as [oB [pB srvB]].
  cbn [fst snd] in Ho, Hs, Hr. subst oB srvB.
  destruct oA as [a|e]; [by apply Hf|done].
Qed.

Lemma alike_on_exit {A B} rel (m m' : prog A) (f : A → prog B) (g : exn → prog B)
    wA wB :
  alike rel (run m wA) (run m' wB) →
  (∀ a pA pB srv, rel pA pB →
     alike rel (run (f a) (pA, srv)) (run (f a) (pB, srv))) →
  (∀ e pA pB srv, rel pA pB →
     alike rel (run (g e) (pA, srv)) (run (g e) (pB, srv))) →
  alike rel (run (on_exit m f g) wA) (run (on_exit m' f g) wB).
Proof.
  intros (Ho & Hs & Hr) Hf Hg. rewrite !run_on_exit.
  destruct (run m wA) as [oA [pA srvA]], (run m' wB) as [oB [pB srvB]].
  cbn [fst snd] in Ho, Hs, Hr. subst oB srvB.
  destruct oA as [a|e]; [by apply Hf|by apply Hg].
Qed.

Lemma differ_at_handle name entries R (ev : event R) pA pB srv :
  fs_free R ev → differ_at name entries pA pB →
  (handle ev (pA, srv)).1 = (handle ev (pB, srv)).1 ∧
  (handle ev (pA, srv)).2.2 = (handle ev (pB, srv)).2.2 ∧
  differ_at name entries (handle ev (pA, srv)).2.1 (handle ev (pB, srv)).2.1.
Proof.
  intros Hev (HdA & HdB & He & Hb & Hi).
  destruct ev; try done; cbn [handle fst snd]; try (by repeat split).
  rewrite <- Hb. destruct (conn_budget pA) as [[|n]|] eqn:HbA;
    try (by repeat split);
    destruct (server_execute c st srv) as [resp srv'];
    (repeat split; try done; cbn; congruence).
Qed.

Lemma alike_fs_free name entries {A} (m : prog A) pA pB srv :
  all_events fs_free m → differ_at name entries pA pB →
  alike (differ_at name entries) (run m (pA, srv)) (run m (pB, srv)).
Proof.
  intros Hm. revert pA pB srv.
  induction Hm as [a|e|R ev k Hev Hk IH]; intros pA pB srv Hd; [done..|].
  cbn [run].
  destruct (differ_at_handle name entries R ev pA pB srv Hev Hd) as (Hr & Hs & Hd').
  destruct (handle ev (pA, srv)) as [rA [pA' srvA]],
           (handle ev (pB, srv)) as [rB [pB' srvB]].
  cbn [fst snd] in Hr, Hs, Hd'. subst rB srvB. by apply IH.
Qed.

Lemma fs_free_execute (c : connection) (st : statement) :
  all_events fs_free (execute c st).
Proof.
  unfold execute. apply all_events_bind; [by apply all_events_trigger|].
  intros [e|res]; constructor.
Qed.

Lemma fs_free_set_documents_sequence (c : connection) :
  all_events fs_free (_set_documents_sequence c).
Proof.
  unfold _set_documents_sequence.
  apply all_events_bind; [apply fs_free_execute|]. intros res.
  apply all_events_bind; [apply fs_free_execute|]. intros _. constructor.
Qed.

(** Over names other than [name] the two processes load alike. *)
Lemma load_files_alike name entries c files pA pB srv :
  differ_at name entries pA pB → name ∉ files →
  alike (differ_at name entries)
    (run (load_files c files) (pA, srv)) (run (load_files c files) (pB, srv)).
Proof.
  revert pA pB srv. induction files as [|file rest IH]; intros pA pB srv Hd Hn;
    [done|].
  apply not_elem_of_cons in Hn as [Hne Hn].
  cbn [load_files]. rewrite !run_bind, !run_trigger. cbn [handle fst snd].
  assert (Hread : read_text (path_lookup (text_dir pB) file)
                  = read_text (path_lookup (text_dir pA) file)).
  { destruct Hd as (-> & -> & _). cbn [path_lookup]. by rewrite lookup_delete_ne. }
  rewrite Hread.
  destruct (read_text (path_lookup (text_dir pA) file)) as [[msg| | |e]|content];
    try done.
  - apply alike_bind; [|intros; by apply IH].
    apply (alike_fs_free name entries); [by apply all_events_trigger|done].
  - apply alike_bind; [|intros; by apply IH].
    apply (alike_fs_free name entries); [apply fs_free_execute|done].
Qed.

(** The process that has the undecodable file skips it, with a warning, and
    goes on as the process that does not have it. *)
Lemma load_files_skips name entries c l1 l2 pA pB srv :
  differ_at name entries pA pB →
  read_text (entries !! name) = inl UnicodeDecodeError →
  name ∉ l1 → name ∉ l2 →
  alike (differ_at name entries)
    (run (load_files c (l1 ++ name :: l2)) (pA, srv))
    (run (load_files c (l1 ++ l2)) (pB, srv)).
Proof.
  intros Hd Hbad Hn1 Hn2. revert pA pB srv Hd Hn1.
  induction l1 as [|file rest IH]; intros pA pB srv Hd Hn1.
  - cbn [app load_files]. rewrite run_bind, run_trigger. cbn [handle fst snd].
    destruct Hd as (HdA & Hd). rewrite HdA. cbn [path_lookup]. rewrite Hbad.
    rewrite run_bind, run_trigger_Log.
    apply load_files_alike; [|done]. by split.
  - apply not_elem_of_cons in Hn1 as [Hne Hn1].
    cbn [app load_files]. rewrite !run_bind, !run_trigger. cbn [handle fst snd].
    assert (Hread : read_text (path_lookup (text_dir pB) file)
                    = read_text (path_lookup (text_dir pA) file)).
    { destruct Hd as (-> & -> & _). cbn [path_lookup]. by rewrite lookup_delete_ne. }
    rewrite Hread.
    destruct (read_text (path_lookup (text_dir pA) file)) as [[msg| | |e]|content];
      try done.
    + apply alike_bind; [|intros; by apply IH].
      apply (alike_fs_free name entries); [by apply all_events_trigger|done].
    + apply alike_bind; [|intros; by apply IH].
      apply (alike_fs_free name entries); [apply fs_free_execute|done].
Qed.

Lemma sorted_Sorted (names : list string) : StronglySorted String.le (sorted names).
Proof. unfold sorted. apply StronglySorted_merge_sort; apply _. Qed.

Lemma sorted_unique (l : list string) (names : list string) :
  StronglySorted String.le l → l ≡ₚ names → sorted names = l.
Proof.
  intros Hl Hp. apply (StronglySorted_unique String.le); [apply sorted_Sorted|done|].
  unfold sorted. by rewrite merge_sort_Permutation.
Qed.

Lemma path_glob_delete (entries : gmap string dir_entry) name e :
  entries !! name = Some e →
  path_glob (Directory entries) ≡ₚ
  (if matches_txt name then [name] else [])
  ++ path_glob (Directory (delete name entries)).
Proof.
  intros He. unfold path_glob.
  rewrite <- (map_to_list_delete entries name e He). cbn [fmap list_fmap fst].
  rewrite filter_cons. destruct (matches_txt name); by case_decide.
Qed.

Lemma NoDup_path_glob (dir : path_state) : NoDup (path_glob dir).
Proof.
  destruct dir as [| |entries]; cbn [path_glob]; try apply NoDup_nil_2.
  apply NoDup_filter, NoDup_fst_map_to_list.
Qed.

(** Removing an entry from the directory removes its name from the sorted
    listing and moves nothing else. *)
Lemma sorted_glob_delete (entries : gmap string dir_entry) name e :
  entries !! name = Some e →
  if matches_txt name then
    ∃ l1 l2,
      sorted (path_glob (Directory entries)) = l1 ++ name :: l2 ∧
      sorted (path_glob (Directory (delete name entries))) = l1 ++ l2 ∧
      (name ∉ l1) ∧ (name ∉ l2)
  else
    sorted (path_glob (Directory entries))
    = sorted (path_glob (Directory (delete name entries))).
Proof.
  intros He. pose proof (path_glob_delete entries name e He) as Hp.
  destruct (matches_txt name); cbn [app] in Hp.
  - assert (Hin : name ∈ sorted (path_glob (Directory entries))).
    { apply elem_of_sorted. rewrite Hp. by left. }
    apply list_elem_of_split in Hin as (l1 & l2 & Hsplit).
    pose proof (sorted_Sorted (path_glob (Directory entries))) as Hs.
    assert (Hperm : l1 ++ name :: l2 ≡ₚ path_glob (Directory entries)).
    { rewrite <- Hsplit. unfold sorted. apply merge_sort_Permutation. }
    assert (Hnd : NoDup (l1 ++ name :: l2)).
    { rewrite Hperm. apply NoDup_path_glob. }
    rewrite Hsplit in Hs.
    apply StronglySorted_app in Hs as (Hs12 & Hs1 & Hs2).
    apply StronglySorted_cons in Hs2 as [Hhd Hs2].
    apply NoDup_app in Hnd as (_ & Hnd1 & Hnd2).
    apply NoDup_cons in Hnd2 as [Hnd2 _].
    exists l1, l2. split_and!; [done| |..].
    + apply sorted_unique.
      * apply StronglySorted_app. split_and!; [|done..].
        intros x1 x2 H1 H2. apply Hs12; [done|by right].
      * apply (Permutation_cons_inv (a := name)). rewrite <- Hp, <- Hperm.
        apply Permutation_middle.
    + intros H1. by apply (Hnd1 name H1); left.
    + done.
  - symmetry. apply sorted_unique; [apply sorted_Sorted|].
    unfold sorted. by rewrite merge_sort_Permutation, Hp.
Qed.

Lemma load_corpus_skips name entries data c pA pB srv :
  differ_at name entries pA pB →
  entries !! name = Some (RegularFile data) →
  utf8_decode (Byte.to_N <$> data) = None →
  alike (differ_at name entries)
    (run (load_corpus c) (pA, srv)) (run (load_corpus c) (pB, srv)).
Proof.
  intros Hd He Hbad. pose proof Hd as (HdA & HdB & _).
  unfold load_corpus.
  rewrite !run_bind, !run_trigger. cbn [handle fst snd]. rewrite HdA, HdB.
  cbn [path_exists]. rewrite !run_bind, !run_trigger. cbn [handle fst snd].
  rewrite HdA, HdB. cbn [path_is_dir negb orb].
  rewrite !run_bind, !run_trigger. cbn [handle fst snd]. rewrite HdA, HdB.
  pose proof (sorted_glob_delete entries name _ He) as Hs.
  destruct (matches_txt name) eqn:Hm.
  - destruct Hs as (l1 & l2 & -> & -> & Hn1 & Hn2).
    apply load_files_skips; try done.
    rewrite He. cbn [read_text]. by rewrite Hbad.
  - rewrite <- Hs. apply load_files_alike; [done|].
    intros [Hmt _]%elem_of_sorted%elem_of_path_glob. congruence.
Qed.

Lemma bootstrap_block_skips name entries data c pA pB srv :
  differ_at name entries pA pB →
  entries !! name = Some (RegularFile data) →
  utf8_decode (Byte.to_N <$> data) = None →
  alike (differ_at name entries)
    (run (bootstrap_block c) (pA, srv)) (run (bootstrap_block c) (pB, srv)).
Proof.
  intros Hd He Hbad. unfold bootstrap_block, on_lock_answer.
  apply alike_bind; [by apply alike_fs_free; [apply fs_free_execute|]|].
  clear pA pB srv Hd. intros res pA pB srv Hd.
  match goal with |- context [negb ?b] => destruct (negb b) end.
  - apply alike_fs_free; [|done].
    apply all_events_bind; [by apply all_events_trigger|]. intros _. constructor.
  - unfold initialise.
    do 3 (apply alike_bind; [by apply alike_fs_free; [apply fs_free_execute|]|];
          clear pA pB srv Hd; intros _ pA pB srv Hd).
    apply alike_bind; [by apply (load_corpus_skips name entries data)|].
    clear pA pB srv Hd. intros _ pA pB srv Hd.
    apply alike_fs_free; [|done].
    apply all_events_bind; [apply fs_free_set_documents_sequence|].
    intros _. constructor.
Qed.

(** The whole routine ends alike with and without the undecodable file. *)
Lemma load_skips name entries data pA pB srv :
  differ_at name entries pA pB →
  entries !! name = Some (RegularFile data) →
  utf8_decode (Byte.to_N <$> data) = None →
  alike (differ_at name entries)
    (run load_txt_files_to_db (pA, srv)) (run load_txt_files_to_db (pB, srv)).
Proof.
  intros Hd He Hbad. unfold load_txt_files_to_db.
  apply alike_bind; [by apply alike_fs_free; [apply all_events_trigger|]|].
  clear pA pB srv Hd. intros [engine|] pA pB srv Hd; [|done].
  apply alike_bind.
  - unfold engine_begin.
    apply alike_bind; [by apply alike_fs_free; [apply all_events_trigger|]|].
    clear pA pB srv Hd. intros conn pA pB srv Hd.
    apply alike_on_exit.
    + by apply (bootstrap_block_skips name entries data).
    + intros a pA' pB' srv' Hd'. apply alike_fs_free; [|done].
      apply all_events_bind; [by apply all_events_trigger|]. intros _. constructor.
    + intros ex pA' pB' srv' Hd'. apply alike_fs_free; [|done].
      apply all_events_bind; [by apply all_events_trigger|]. intros _. constructor.
  - clear pA pB srv Hd. intros [|v] pA pB srv Hd; [|done].
    apply alike_fs_free; [|done].
    apply all_events_bind; [by apply all_events_trigger|]. intros _. constructor.
Qed.

(** C5.  A file whose bytes are not UTF-8 is skipped: the loop logs the
    warning and goes on with the next file, in the same transaction state.
    For every directory, the routine ends as it would without that file:
    same outcome, same server, same statements issued; so a bad file never
    aborts the batch.  With one malformed and one valid file on a fresh
    server, the routine returns [None], and the one document committed is the
    valid file. *)
Theorem undecodable_file_is_skipped :
  (∀ (c : connection) (file : string) (rest : list string) (p : process) (srv : server),
     read_text (path_lookup (text_dir p) file) = inl UnicodeDecodeError →
     run (load_files c (file :: rest)) (p, srv)
     = run (load_files c rest) (with_log (WarningNonUtf8 file) p, srv)) ∧
  (∀ (p : process) (srv : server) (entries : gmap string dir_entry)
     (name : string) (data : list byte),
     text_dir p = Directory entries →
     entries !! name = Some (RegularFile data) →
     utf8_decode (Byte.to_N <$> data) = None →
     (run load_txt_files_to_db (p, srv)).1
       = (run load_txt_files_to_db (without_file name p, srv)).1 ∧
     (run load_txt_files_to_db (p, srv)).2.2
       = (run load_txt_files_to_db (without_file name p, srv)).2.2 ∧
     issued (run load_txt_files_to_db (p, srv)).2.1
       = issued (run load_txt_files_to_db (without_file name p, srv)).2.1) ∧
  ((run load_txt_files_to_db (process_with dir_with_malformed, fresh_server)).1
     = Returns PyNone ∧
   log (run load_txt_files_to_db (process_with dir_with_malformed, fresh_server)).2.1
     = [WarningNonUtf8 "bad.txt"; InfoInitialized] ∧
   doc_rows <$> documents (committed
     (run load_txt_files_to_db (process_with dir_with_malformed, fresh_server)).2.2)
     = Some [Document 1 "good.txt" [104%N; 105%N]]).
Proof.
  split_and!.
  - intros c file rest p srv Hr. cbn [load_files].
    rewrite run_bind, run_trigger. cbn [handle fst snd]. rewrite Hr.
    by rewrite run_bind, run_trigger_Log.
  - intros p srv entries name data Hd He Hbad.
    destruct (load_skips name entries data p (without_file name p) srv)
      as (Ho & Hs & _ & _ & _ & _ & Hi); try done.
    unfold differ_at, without_file. cbn. by rewrite Hd.
  - by vm_compute.
  - by vm_compute.
  - by vm_compute.
Qed.

Lemma undecodable_file_is_skipped_witness :
  (run load_txt_files_to_db (process_with dir_with_malformed, fresh_server)).1
    = (run load_txt_files_to_db
         (without_file "bad.txt" (process_with dir_with_malformed), fresh_server)).1.
Proof.
  apply (proj1 (proj2 undecodable_file_is_skipped)
           (process_with dir_with_malformed) fresh_server
           (<["bad.txt" := RegularFile [xff; xfe]]>
              (<["good.txt" := RegularFile [x68; x69]]> ∅))
           "bad.txt" [xff; xfe]).
  - reflexivity.
  - reflexivity.
  - reflexivity.
Defined.

(** ** Replicas starting together *)

Lemma all_events_inv P {A} (m : prog A) :
  all_events P m →
  match m with
  | Vis ev k => P _ ev ∧ ∀ r, all_events P (k r)
  | _ => True
  end.
Proof. intros H. by destruct H. Qed.

Lemma same_for_refl (s : session) (srv : server) : same_for s srv srv.
Proof. done. Qed.

Lemma same_for_sym (s : session) (srv srv' : server) :
  same_for s srv srv' → same_for s srv' srv.
Proof. intros (? & ? & ?). by split_and!. Qed.

Lemma same_for_trans (s : session) (srv1 srv2 srv3 : server) :
  same_for s srv1 srv2 → same_for s srv2 srv3 → same_for s srv1 srv3.
Proof. intros (? & ? & ?) (? & ? & ?). split_and!; congruence. Qed.

Lemma view_same_for (s : session) (srv srv' : server) :
  same_for s srv srv' → view srv s = view srv' s.
Proof. intros (Hc & _ & Ho). unfold view. by rewrite Ho, Hc. Qed.

Lemma server_execute_same_for (s : session) (st : statement) (srv srv' : server) :
  same_for s srv srv' →
  (server_execute s st srv).1 = (server_execute s st srv').1 ∧
  same_for s (server_execute s st srv).2 (server_execute s st srv').2.
Proof.
  intros Hsame. pose proof (view_same_for _ _ _ Hsame) as Hv.
  destruct Hsame as (Hc & Hl & Ho). unfold server_execute.
  rewrite <- Hv, <- Hl, <- Ho.
  destruct (exec_statement s st (view srv s) (advisory_locks srv))
    as [[resp db'] locks'].
  destruct (open_txn srv !! s) as [version|] eqn:Hs; cbn [fst snd].
  - split; [done|]. split_and!; cbn [committed advisory_locks open_txn]; try done.
    by rewrite !lookup_insert_eq.
  - split; [done|]. split_and!; cbn [committed advisory_locks open_txn]; try done.
    + by rewrite Hc.
    + by rewrite Hs.
Qed.

(** A request of session [s] is answered alike by two servers that [s]
    cannot tell apart, and leaves them so. *)
Lemma handle_same_for (s : session) R (ev : event R) (p : process)
    (srv srv' : server) :
  disciplined s R ev → same_for s srv srv' →
  (handle ev (p, srv)).1 = (handle ev (p, srv')).1 ∧
  (handle ev (p, srv)).2.1 = (handle ev (p, srv')).2.1 ∧
  same_for s (handle ev (p, srv)).2.2 (handle ev (p, srv')).2.2.
Proof.
  intros Hev Hsame. destruct ev; cbn [disciplined] in Hev; try done;
    cbn [handle fst snd]; try (by split_and!).
  - (* Begin *)
    destruct Hsame as (Hc & Hl & Ho). split_and!; try done.
    split_and!; cbn [begin_txn committed advisory_locks open_txn]; try done.
    rewrite Hev. by rewrite !lookup_insert_eq.
  - (* Commit *)
    subst c. destruct Hsame as (Hc & Hl & Ho). split_and!; try done.
    unfold commit_txn. rewrite <- Ho.
    destruct (open_txn srv !! s) as [version|] eqn:Hs;
      [|split_and!; congruence].
    split_and!; cbn [committed advisory_locks open_txn]; try done.
    + by rewrite Hc.
    + by rewrite !lookup_delete_eq.
  - (* Rollback *)
    subst c. destruct Hsame as (Hc & Hl & Ho). split_and!; try done.
    unfold rollback_txn. rewrite <- Ho.
    destruct (open_txn srv !! s) as [version|] eqn:Hs;
      [|split_and!; congruence].
    split_and!; cbn [committed advisory_locks open_txn]; try done.
    + by rewrite Hc.
    + by rewrite !lookup_delete_eq.
  - (* Execute *)
    subst c. destruct (server_execute_same_for s st srv srv' Hsame) as [Hr Hs].
    destruct (conn_budget p) as [[|n]|]; [by split_and!| |];
      destruct (server_execute s st srv) as [resp srv1],
               (server_execute s st srv') as [resp' srv1'];
      cbn [fst snd] in *; by subst.
Qed.

Lemma run_same_for (s : session) {A} (m : prog A) (p : process) (srv srv' : server) :
  all_events (disciplined s) m → same_for s srv srv' →
  alike_for s (run m (p, srv)) (run m (p, srv')).
Proof.
  intros Hm. revert p srv srv'.
  induction Hm as [a|e|R ev k Hev Hk IH]; intros p srv srv' Hsame;
    [by split_and!..|].
  cbn [run].
  destruct (handle_same_for s R ev p srv srv' Hev Hsame) as (Hr & Hp & Hs).
  destruct (handle ev (p, srv)) as [r [p1 srv1]],
           (handle ev (p, srv')) as [r' [p1' srv1']].
  cbn [fst snd] in Hr, Hp, Hs. subst r' p1'. by apply IH.
Qed.

(** A request of session [s] leaves the transactions of the others alone. *)
Lemma handle_other_txn (s s' : session) R (ev : event R) (p : process) (srv : server) :
  disciplined s R ev → s' ≠ s →
  open_txn (handle ev (p, srv)).2.2 !! s' = open_txn srv !! s'.
Proof.
  intros Hev Hne. destruct ev; cbn [disciplined] in Hev; try done;
    cbn [handle fst snd]; try done.
  - cbn [begin_txn open_txn]. rewrite Hev. by rewrite lookup_insert_ne.
  - subst c. unfold commit_txn. destruct (open_txn srv !! s); [|done].
    cbn [open_txn]. by rewrite lookup_delete_ne.
  - subst c. unfold rollback_txn. destruct (open_txn srv !! s); [|done].
    cbn [open_txn]. by rewrite lookup_delete_ne.
  - subst c. destruct (conn_budget p) as [[|n]|]; [done| |];
      unfold server_execute;
      destruct (exec_statement s st (view srv s) (advisory_locks srv))
        as [[resp db'] locks'];
      destruct (open_txn srv !! s); cbn [fst snd open_txn]; try done;
      by rewrite lookup_insert_ne.
Qed.

Lemma all_events_mono (P Q : ∀ R, event R → Prop) {A} (m : prog A) :
  (∀ R ev, P R ev → Q R ev) → all_events P m → all_events Q m.
Proof.
  intros HPQ Hm. induction Hm as [a|e|R ev k Hev Hk IH]; constructor; auto.
Qed.

Lemma all_events_on_exit P {A B} (m : prog A) (f : A → prog B) (g : exn → prog B) :
  all_events P m → (∀ a, all_events P (f a)) → (∀ e, all_events P (g e)) →
  all_events P (on_exit m f g).
Proof.
  intros Hm Hf Hg. induction Hm as [a|e|R ev k Hev Hk IH]; simpl; auto.
  constructor; auto.
Qed.

Lemma in_session_disciplined (s : session) R (ev : event R) :
  in_session s R ev → disciplined s R ev.
Proof. by destruct ev. Qed.

Lemma disciplined_in_block (s : session) (body : prog (completion pyval)) :
  all_events (in_session s) body → all_events (disciplined s) (in_block s body).
Proof.
  intros Hb. unfold in_block. apply all_events_bind.
  - apply all_events_on_exit.
    + by apply (all_events_mono (in_session s)); [apply in_session_disciplined|].
    + intros a. apply all_events_bind; [by apply all_events_trigger|].
      intros _. constructor.
    + intros e. apply all_events_bind; [by apply all_events_trigger|].
      intros _. constructor.
  - intros [|v]; [|constructor].
    apply all_events_bind; [by apply all_events_trigger|]. intros _. constructor.
Qed.

Lemma in_session_on_lock_answer (s : session) (res : cursor) :
  all_events (in_session s) (on_lock_answer s res).
Proof.
  unfold on_lock_answer.
  match goal with |- context [negb ?b] => destruct (negb b) end.
  - apply all_events_bind; [by apply all_events_trigger|]. intros _. constructor.
  - apply in_session_initialise.
Qed.

Lemma disciplined_after_lock (s : session) (resp : pg_error + cursor) :
  all_events (disciplined s) (after_lock s resp).
Proof.
  apply disciplined_in_block. apply all_events_bind.
  - destruct resp; constructor.
  - apply in_session_on_lock_answer.
Qed.

Lemma disciplined_after_begin (s : session) :
  all_events (disciplined s) (after_begin s).
Proof. apply disciplined_in_block, in_session_bootstrap_block. Qed.

(** Alone on the server, a fresh process is at [after_begin] once it has
    its engine and its transaction. *)
Lemma run_load_fresh (e : AsyncEngine) (dir : path_state) (srv : server) :
  run load_txt_files_to_db (fresh_process e dir, srv)
  = run (after_begin (engine_session e))
        (fresh_process e dir, begin_txn (engine_session e) srv).
Proof. reflexivity. Qed.

(** One step of a replica that does not hold the lock: it stays a bystander,
    or the lock was free and it takes it. *)
Lemma bystander_step (e : AsyncEngine) (dir : path_state) (srv : server)
    (r : replica) :
  bystander e dir srv r →
  let s := engine_session e in
  committed (step r srv).2 = committed srv ∧
  (∀ s', s' ≠ s → open_txn (step r srv).2 !! s' = open_txn srv !! s') ∧
  ((advisory_locks (step r srv).2 = advisory_locks srv ∧
    bystander e dir (step r srv).2 (step r srv).1) ∨
   (advisory_locks srv !! DB_INIT_ADVISORY_LOCK_KEY = None ∧
    advisory_locks (step r srv).2 !! DB_INIT_ADVISORY_LOCK_KEY = Some s ∧
    open_txn srv !! s = Some None ∧
    all_events (disciplined s) (code (step r srv).1) ∧
    run (code (step r srv).1) (proc (step r srv).1, (step r srv).2)
    = run (after_begin s) (fresh_process e dir, srv))).
Proof.
  intros (ph & Hp & Hc & Hnot & Htx & Hre) s.
  destruct r as [p c]. cbn [proc code] in Hp, Hc. subst p c.
  destruct ph; cbn [waiting_proc waiting_code in_transaction was_refused] in *.
  - (* AtStart *)
    split_and!; [done..|]. left. split; [done|].
    exists AfterEngine. by split_and!.
  - (* AfterEngine *)
    split_and!; [done| |].
    + intros s' Hne. cbn. by rewrite lookup_insert_ne.
    + left. split; [done|]. exists AfterBegin. split_and!; try done.
      intros _. cbn. by rewrite lookup_insert_eq.
  - (* AfterBegin *)
    specialize (Htx eq_refl).
    change (after_begin (engine_session e))
      with (Vis (Execute s (SelectTryAdvisoryLock DB_INIT_ADVISORY_LOCK_KEY))
                (after_lock s)).
    unfold step. cbn [code proc handle fresh_process conn_budget].
    rewrite (server_execute_lock _ _ _ _ Htx).
    unfold try_advisory_lock.
    destruct (advisory_locks srv !! DB_INIT_ADVISORY_LOCK_KEY) as [h|] eqn:Hl;
      cbn [fst snd committed open_txn advisory_locks code proc].
    + rewrite bool_decide_eq_false_2 by congruence.
      split_and!; [done..|]. left. split; [done|].
      exists Refused. split_and!; try done.
      cbn [advisory_locks]. congruence.
    + split_and!; [done..|]. right. split_and!; try done.
      * by rewrite lookup_insert_eq.
      * apply disciplined_after_lock.
      * change (after_begin s)
          with (Vis (Execute s (SelectTryAdvisoryLock DB_INIT_ADVISORY_LOCK_KEY))
                    (after_lock s)).
        cbn [run handle fresh_process conn_budget].
        rewrite (server_execute_lock _ _ _ _ Htx).
        unfold try_advisory_lock. by rewrite Hl.
  - (* Refused *)
    split_and!; [done..|]. left. split; [done|].
    exists RefusedLogged. by split_and!.
  - (* RefusedLogged *)
    specialize (Htx eq_refl). unfold step, refused_commit.
    cbn [code proc handle]. unfold commit_txn. rewrite Htx.
    cbn [fst snd committed open_txn advisory_locks default from_option id].
    split_and!; [done| |].
    + intros s' Hne. by rewrite lookup_delete_ne.
    + left. split; [done|]. exists Finished. by split_and!.
  - (* Finished *)
    split_and!; [done..|]. left. split; [done|].
    exists Finished. by split_and!.
Qed.

(** One step of the replica that holds the lock. *)
Lemma winner_step (e : AsyncEngine) (dir : path_state) (srv0 srv : server)
    (r : replica) :
  winner e dir srv0 srv r →
  winner e dir srv0 (step r srv).2 (step r srv).1 ∧
  ∀ s', s' ≠ engine_session e →
        open_txn (step r srv).2 !! s' = open_txn srv !! s'.
Proof.
  intros (Hl & Hd & Hrun). destruct r as [p c]. cbn [proc code] in *.
  unfold step. cbn [code proc].
  destruct c as [v|ex|R ev k];
    [by split; [unfold winner; cbn [proc code]; split_and!|]..|].
  apply all_events_inv in Hd as [Hev Hk].
  pose proof (handle_holder R ev p srv _ _ Hl) as Hl'.
  pose proof (λ s' Hne, handle_other_txn (engine_session e) s' R ev p srv Hev Hne)
    as Hother.
  cbn [run] in Hrun.
  destruct (handle ev (p, srv)) as [a [p' srv']]. cbn [fst snd] in *.
  split; [|done]. unfold winner. cbn [proc code]. by split_and!.
Qed.

Lemma bystander_frame (e : AsyncEngine) (dir : path_state) (srv srv' : server)
    (r : replica) :
  bystander e dir srv r →
  open_txn srv' !! engine_session e = open_txn srv !! engine_session e →
  advisory_locks srv' !! DB_INIT_ADVISORY_LOCK_KEY ≠ Some (engine_session e) →
  (is_Some (advisory_locks srv !! DB_INIT_ADVISORY_LOCK_KEY) →
   is_Some (advisory_locks srv' !! DB_INIT_ADVISORY_LOCK_KEY)) →
  bystander e dir srv' r.
Proof.
  intros (ph & Hp & Hc & Hnot & Htx & Hre) Ho Hnot' Hsome.
  exists ph. split_and!; try done.
  - intros Hin. rewrite Ho. by apply Htx.
  - intros Hwas. by apply Hsome, Hre.
Qed.

Lemma winner_frame (e : AsyncEngine) (dir : path_state) (srv0 srv srv' : server)
    (r : replica) :
  winner e dir srv0 srv r →
  same_for (engine_session e) srv' srv →
  winner e dir srv0 srv' r.
Proof.
  intros (Hl & Hd & Hrun) Hsame. split_and!; [|done|].
  - destruct Hsame as (_ & -> & _). done.
  - destruct (run_same_for _ (code r) (proc r) _ _ Hd Hsame) as (H1 & H2 & H3).
    destruct Hrun as (H1' & H2' & H3'). split_and!; [congruence..|].
    by eapply same_for_trans.
Qed.

Lemma sessions_distinct (engines : list AsyncEngine) (i j : nat) (e e' : AsyncEngine) :
  NoDup (engine_session <$> engines) →
  engines !! i = Some e → engines !! j = Some e' →
  engine_session e = engine_session e' → i = j.
Proof.
  intros Hnd Hi Hj Heq.
  apply (NoDup_lookup _ i j (engine_session e) Hnd);
    rewrite list_lookup_fmap; [by rewrite Hi|by rewrite Hj, Heq].
Qed.

Lemma launched_launch (engines : list AsyncEngine) (dirs : list path_state)
    (srv0 : server) :
  advisory_locks srv0 !! DB_INIT_ADVISORY_LOCK_KEY = None →
  launched engines dirs srv0 (launch engines dirs srv0).
Proof.
  intros Hfree. split_and!; cbn [launch store replicas].
  - done.
  - intros h Hh. congruence.
  - intros i r (e & d & -> & He & Hd)%lookup_zip_with_Some.
    exists e, d. split_and!; [done..|]. left.
    exists AtStart. split_and!; try done. by rewrite Hfree.
Qed.

(** Every step of every replica keeps the cluster as launched. *)
Lemma launched_step (engines : list AsyncEngine) (dirs : list path_state)
    (srv0 : server) (c : cluster) (i : nat) :
  NoDup (engine_session <$> engines) →
  launched engines dirs srv0 c →
  launched engines dirs srv0 (sched_step c i).
Proof.
  intros Hnd (Hfree & Hheld & Hall). unfold sched_step.
  destruct (replicas c !! i) as [r|] eqn:Hi; [|done].
  destruct (Hall i r Hi) as (e & d & He & Hd & [Hby|Hwin]).
  - (* a bystander steps *)
    destruct (bystander_step e d (store c) r Hby) as (Hc' & Ho' & Hcases).
    destruct (step r (store c)) as [r' srv'] eqn:Hstep. cbn [fst snd] in *.
    destruct Hcases as [[Hl' Hby']|(Hl & Hl' & Htx & Hdisc & Hrun)].
    + (* and stays one *)
      split_and!; cbn [store replicas].
      * rewrite Hl', Hc'. apply Hfree.
      * intros h Hh. rewrite Hl' in Hh.
        destruct (Hheld h Hh) as (w & ew & Hw & Hs & Hsome).
        exists w, ew. split_and!; [done..|].
        apply lookup_lt_is_Some. rewrite length_insert.
        by apply lookup_lt_is_Some.
      * intros j rj Hj. destruct (decide (j = i)) as [->|Hne].
        -- rewrite list_lookup_insert_eq in Hj by (by eapply lookup_lt_Some).
           injection Hj as <-. exists e, d. split_and!; [done..|]. by left.
        -- rewrite list_lookup_insert_ne in Hj by done.
           destruct (Hall j rj Hj) as (ej & dj & Hej & Hdj & Hphase).
           exists ej, dj. split_and!; [done..|].
           assert (Hsj : engine_session ej ≠ engine_session e).
           { intros Heq. apply Hne. by eapply sessions_distinct. }
           destruct Hphase as [Hbj|Hwj]; [left|right].
           ++ apply (bystander_frame _ _ (store c) _ _ Hbj).
              ** by apply Ho'.
              ** rewrite Hl'. by destruct Hbj as (? & _ & _ & ? & _).
              ** by rewrite Hl'.
           ++ apply (winner_frame _ _ _ (store c)); [done|].
              split_and!; [done..|]. by apply Ho'.
    + (* and takes the lock *)
      destruct (Hfree Hl) as [Hc0 Hl0].
      split_and!; cbn [store replicas].
      * intros Hnone. congruence.
      * intros h Hh. rewrite Hl' in Hh. injection Hh as <-.
        exists i, e. split_and!; [done..|].
        apply lookup_lt_is_Some. rewrite length_insert. by eapply lookup_lt_Some.
      * intros j rj Hj. destruct (decide (j = i)) as [->|Hne].
        -- rewrite list_lookup_insert_eq in Hj by (by eapply lookup_lt_Some).
           injection Hj as <-. exists e, d. split_and!; [done..|]. right.
           split_and!; [done..|]. rewrite Hrun, run_load_fresh.
           apply run_same_for; [apply disciplined_after_begin|].
           split_and!; cbn [begin_txn committed advisory_locks open_txn];
             [done..|]. by rewrite lookup_insert_eq.
        -- rewrite list_lookup_insert_ne in Hj by done.
           destruct (Hall j rj Hj) as (ej & dj & Hej & Hdj & Hphase).
           exists ej, dj. split_and!; [done..|].
           assert (Hsj : engine_session ej ≠ engine_session e).
           { intros Heq. apply Hne. by eapply sessions_distinct. }
           destruct Hphase as [Hbj|Hwj]; [left|].
           ++ apply (bystander_frame _ _ (store c) _ _ Hbj).
              ** by apply Ho'.
              ** rewrite Hl'. congruence.
              ** intros _. rewrite Hl'. by eexists.
           ++ destruct Hwj as (Hlj & _). congruence.
  - (* the holder of the lock steps *)
    destruct (winner_step e d srv0 (store c) r Hwin) as [Hwin' Ho'].
    pose proof Hwin as (Hl & _). pose proof Hwin' as (Hl' & _).
    destruct (step r (store c)) as [r' srv'] eqn:Hstep. cbn [fst snd] in *.
    split_and!; cbn [store replicas].
    + intros Hnone. congruence.
    + intros h Hh. rewrite Hl' in Hh. injection Hh as <-.
      exists i, e. split_and!; [done..|].
      apply lookup_lt_is_Some. rewrite length_insert. by eapply lookup_lt_Some.
    + intros j rj Hj. destruct (decide (j = i)) as [->|Hne].
      * rewrite list_lookup_insert_eq in Hj by (by eapply lookup_lt_Some).
        injection Hj as <-. exists e, d. split_and!; [done..|]. by right.
      * rewrite list_lookup_insert_ne in Hj by done.
        destruct (Hall j rj Hj) as (ej & dj & Hej & Hdj & Hphase).
        exists ej, dj. split_and!; [done..|].
        assert (Hsj : engine_session ej ≠ engine_session e).
        { intros Heq. apply Hne. by eapply sessions_distinct. }
        destruct Hphase as [Hbj|Hwj]; [left|].
        -- apply (bystander_frame _ _ (store c) _ _ Hbj).
           ++ by apply Ho'.
           ++ rewrite Hl'. congruence.
           ++ intros _. rewrite Hl'. by eexists.
        -- destruct Hwj as (Hlj & _). congruence.
Qed.

Lemma launched_sched (engines : list AsyncEngine) (dirs : list path_state)
    (srv0 : server) (schedule : list nat) (c : cluster) :
  NoDup (engine_session <$> engines) →
  launched engines dirs srv0 c →
  launched engines dirs srv0 (sched schedule c).
Proof.
  intros Hnd. revert c. induction schedule as [|i rest IH]; intros c Hc; [done|].
  cbn [sched foldl]. apply IH. by apply launched_step.
Qed.

(** Alone on a server where the lock is free, the routine that returns has
    issued the full sequence. *)
Lemma load_alone_Returns (e : AsyncEngine) (dir : path_state) (srv0 : server)
    (v : pyval) :
  advisory_locks srv0 !! DB_INIT_ADVISORY_LOCK_KEY = None →
  (run load_txt_files_to_db (fresh_process e dir, srv0)).1 = Returns v →
  v = PyNone ∧
  ∃ m, issued (run load_txt_files_to_db (fresh_process e dir, srv0)).2.1
       = full_sequence dir m.
Proof.
  intros Hfree.
  rewrite (run_load_with_engine (fresh_process e dir) srv0 e eq_refl). cbn zeta.
  set (s := engine_session e).
  assert (Hs : open_txn (begin_txn s srv0) !! s = Some None)
    by apply lookup_insert_eq.
  rewrite (run_bootstrap_block _ _ _ _ Hs) by done. cbn zeta.
  unfold try_advisory_lock. cbn [begin_txn advisory_locks].
  rewrite Hfree. cbn [fst snd].
  destruct (run (initialise s) _) as [[c|ex] [p' srv']] eqn:Hi; [|done].
  apply initialise_issued in Hi as [-> [m Hi]]. cbn [fst snd].
  intros [= <-]. split; [done|]. exists m.
  cbn [issued with_log]. rewrite Hi. unfold full_sequence. by cbn.
Qed.

(** ** Every replica comes to its end *)

Lemma ends_within_mono {A} (d : path_state) (m : prog A) (n n' : nat) :
  (n ≤ n')%nat → ends_within d n m → ends_within d n' m.
Proof.
  revert n n'. induction m as [a|e|R ev k IH]; intros n n' Hle; [done..|].
  destruct n as [|n]; [done|]. destruct n' as [|n']; [lia|].
  cbn [ends_within]. intros H p srv Hd. apply (IH _ n); [lia|]. by apply H.
Qed.

Lemma ends_within_bind {A B} (d : path_state) (m : prog A) (f : A → prog B)
    (n k : nat) :
  ends_within d n m → (∀ a, ends_within d k (f a)) →
  ends_within d (n + k)%nat (m ≫= f).
Proof.
  intros Hm Hf. revert n Hm. induction m as [a|e|R ev h IH]; intros n Hm.
  - apply (ends_within_mono d _ k); [lia|]. apply Hf.
  - done.
  - destruct n as [|n]; [done|]. cbn [ends_within] in Hm.
    change (ends_within d (S (n + k)%nat) (Vis ev (λ r, h r ≫= f))).
    cbn [ends_within]. intros p srv Hd. apply IH. by apply Hm.
Qed.

Lemma ends_within_on_exit {A B} (d : path_state) (m : prog A)
    (normal : A → prog B) (exceptional : exn → prog B) (n k : nat) :
  ends_within d n m →
  (∀ a, ends_within d k (normal a)) →
  (∀ e, ends_within d k (exceptional e)) →
  ends_within d (n + k)%nat (on_exit m normal exceptional).
Proof.
  intros Hm Hn He. revert n Hm. induction m as [a|e|R ev h IH]; intros n Hm.
  - apply (ends_within_mono d _ k); [lia|]. apply Hn.
  - apply (ends_within_mono d _ k); [lia|]. apply He.
  - destruct n as [|n]; [done|]. cbn [ends_within on_exit] in *.
    intros p srv Hd. apply IH. by apply Hm.
Qed.

Lemma ends_within_trigger {R} (d : path_state) (ev : event R) :
  ends_within d 1%nat (trigger ev).
Proof. by intros p srv _. Qed.

Lemma ends_within_execute (d : path_state) (c : connection) (st : statement) :
  ends_within d 1%nat (execute c st).
Proof.
  unfold execute. change 1%nat with (1 + 0)%nat.
  apply ends_within_bind; [apply ends_within_trigger|]. by intros [e|res].
Qed.

Lemma ends_within_load_files (d : path_state) (c : connection)
    (files : list string) :
  ends_within d (2 * length files)%nat (load_files c files).
Proof.
  induction files as [|file rest IH]; [done|].
  cbn [load_files length].
  replace (2 * S (length rest))%nat with (1 + (1 + 2 * length rest))%nat by lia.
  apply ends_within_bind; [apply ends_within_trigger|].
  intros [[]|content]; try done.
  - apply ends_within_bind; [apply ends_within_trigger|done].
  - apply ends_within_bind; [apply ends_within_execute|done].
Qed.

Lemma ends_within_load_corpus (d : path_state) (c : connection) :
  ends_within d (3 + 2 * length (path_glob d))%nat (load_corpus c).
Proof.
  unfold load_corpus.
  change (3 + 2 * length (path_glob d))%nat
    with (1 + (1 + (1 + 2 * length (path_glob d))))%nat.
  apply ends_within_bind; [apply ends_within_trigger|]. intros ex.
  apply ends_within_bind.
  { destruct ex; [apply ends_within_trigger|done]. }
  intros is_dir. destruct (negb ex || negb is_dir).
  - apply (ends_within_mono d _ 1%nat); [lia|]. apply ends_within_trigger.
  - change (ends_within d (S (2 * length (path_glob d))%nat)
              (Vis PathGlob (λ files, Ret files ≫= λ files, load_files c (sorted files)))).
    cbn [ends_within]. intros p srv Hd. cbn [handle fst]. rewrite Hd.
    replace (length (path_glob d)) with (length (sorted (path_glob d))).
    + apply ends_within_load_files.
    + unfold sorted. by rewrite merge_sort_Permutation.
Qed.

Lemma ends_within_load (d : path_state) :
  ends_within d (load_bound d) load_txt_files_to_db.
Proof.
  unfold load_bound, load_txt_files_to_db.
  set (L := (2 * length (path_glob d))%nat).
  replace (13 + L)%nat with (1 + ((1 + ((1 + (8 + L)) + 1)) + 1))%nat by lia.
  apply ends_within_bind; [apply ends_within_trigger|].
  intros [e|]; [|done].
  apply ends_within_bind.
  - unfold engine_begin.
    apply ends_within_bind; [apply ends_within_trigger|]. intros c.
    apply ends_within_on_exit.
    + unfold bootstrap_block.
      apply ends_within_bind; [apply ends_within_execute|]. intros res.
      unfold on_lock_answer. destruct (negb _).
      * apply (ends_within_mono d _ (1 + 0)); [lia|].
        apply ends_within_bind; [apply ends_within_trigger|done].
      * unfold initialise.
        replace (8 + L)%nat with (1 + (1 + (1 + ((3 + L) + (2 + 0)))))%nat by lia.
        repeat (apply ends_within_bind; [apply ends_within_execute|]; intros _).
        apply ends_within_bind; [apply ends_within_load_corpus|]. intros _.
        apply ends_within_bind; [|done].
        unfold _set_documents_sequence.
        change 2%nat with (1 + (1 + 0))%nat.
        apply ends_within_bind; [apply ends_within_execute|]. intros res'.
        apply ends_within_bind; [apply ends_within_execute|done].
    + intros a. change 1%nat with (1 + 0)%nat.
      apply ends_within_bind; [apply ends_within_trigger|done].
    + intros ex. change 1%nat with (1 + 0)%nat.
      apply ends_within_bind; [apply ends_within_trigger|done].
  - intros [|v]; [|done]. change 1%nat with (1 + 0)%nat.
    apply ends_within_bind; [apply ends_within_trigger|done].
Qed.

Lemma text_dir_handle {R} (ev : event R) (p : process) (srv : server) :
  text_dir (handle ev (p, srv)).2.1 = text_dir p.
Proof.
  destruct ev; try done. cbn [handle].
  destruct (conn_budget p) as [[|n]|]; try done;
    by destruct (server_execute c st srv).
Qed.

Lemma step_ends_within (r : replica) (srv : server) (n : nat) :
  ends_within (text_dir (proc r)) n (code r) →
  text_dir (proc (step r srv).1) = text_dir (proc r) ∧
  ends_within (text_dir (proc r)) (pred n) (code (step r srv).1).
Proof.
  destruct r as [p m]. unfold step. cbn [proc code].
  destruct m as [a|e|R ev k]; [done..|].
  destruct n as [|n]; [done|]. cbn [ends_within]. intros H.
  specialize (H p srv eq_refl). pose proof (text_dir_handle ev p srv) as Hd.
  destruct (handle ev (p, srv)) as [a [p' srv']]. by cbn [fst snd proc code] in *.
Qed.

Lemma sched_ends_within (schedule : list nat) (c : cluster) (i : nat)
    (r : replica) (n : nat) :
  replicas c !! i = Some r →
  ends_within (text_dir (proc r)) n (code r) →
  ∃ r', replicas (sched schedule c) !! i = Some r' ∧
        text_dir (proc r') = text_dir (proc r) ∧
        ends_within (text_dir (proc r)) (n - turns i schedule)%nat (code r').
Proof.
  revert c r n. induction schedule as [|j schedule IH]; intros c r n Hi Hn.
  { exists r. split_and!; [done..|]. unfold turns. cbn. by rewrite Nat.sub_0_r. }
  change (sched (j :: schedule) c) with (sched schedule (sched_step c j)).
  unfold turns. rewrite filter_cons. destruct (decide (j = i)) as [->|Hne].
  - destruct (step_ends_within r (store c) n Hn) as [Hd Hn'].
    destruct (IH (sched_step c i) (step r (store c)).1 (pred n)) as (r' & Hr' & Hd' & He).
    + unfold sched_step. rewrite Hi. destruct (step r (store c)) as [r1 srv1].
      cbn [replicas fst]. apply list_lookup_insert_eq. by eapply lookup_lt_Some.
    + by rewrite Hd.
    + exists r'. split_and!; [done|congruence|].
      rewrite Hd in He. cbn [length].
      by replace (n - S (length (filter (λ j, j = i) schedule)))%nat
        with (pred n - turns i schedule)%nat by (unfold turns; lia).
  - destruct (IH (sched_step c j) r n) as (r' & Hr' & Hd' & He); [|done|by exists r'].
    unfold sched_step. destruct (replicas c !! j) as [rj|]; [|done].
    destruct (step rj (store c)) as [r1 srv1]. cbn [replicas].
    by rewrite list_lookup_insert_ne.
Qed.

(** A replica that has had its turns has come to its end. *)
Lemma sched_finishes (engines : list AsyncEngine) (dirs : list path_state)
    (srv0 : server) (schedule : list nat) (i : nat) (e : AsyncEngine)
    (d : path_state) :
  engines !! i = Some e → dirs !! i = Some d →
  (load_bound d ≤ turns i schedule)%nat →
  ∃ r, replicas (sched schedule (launch engines dirs srv0)) !! i = Some r ∧
       is_Some (result_of (code r)).
Proof.
  intros He Hd Hle.
  destruct (sched_ends_within schedule (launch engines dirs srv0) i
              {| proc := fresh_process e d; code := load_txt_files_to_db |}
              (load_bound d)) as (r & Hr & _ & Hn).
  - unfold launch. cbn [replicas]. rewrite lookup_zip_with, He. cbn. by rewrite Hd.
  - apply ends_within_load.
  - exists r. split; [done|]. cbn [proc fresh_process text_dir] in Hn.
    replace (load_bound d - turns i schedule)%nat with 0%nat in Hn by lia.
    by destruct (code r).
Qed.

(** ** Mutual exclusion *)

(** C9 as the specification states it: of the invocations launched together,
    one would execute the full sequence.  Two replicas take turns on a fresh
    server, each with a corpus directory in which [b.txt] cannot be read:
    both come to their end and neither has issued the full sequence.  The one
    that took the lock raised [OSError] at [b.txt]; the other was refused. *)
Lemma no_replica_completes_the_sequence :
  (λ r, (result_of (code r), issued (proc r)))
    <$> replicas (sched (taking_turns 20)
          (launch two_engines [dir_with_unreadable; dir_with_unreadable] fresh_server))
  = [(Some (Raises OSError),
      [SelectTryAdvisoryLock DB_INIT_ADVISORY_LOCK_KEY; CreateTableDocuments;
       CreateTableAnalyses; CreateIndexAnalysesDocumentId;
       UpsertDocument "a.txt" [120%N]]);
     (Some (Returns PyNone), [SelectTryAdvisoryLock DB_INIT_ADVISORY_LOCK_KEY])] ∧
  ∀ m, full_sequence dir_with_unreadable m
       = [SelectTryAdvisoryLock DB_INIT_ADVISORY_LOCK_KEY; CreateTableDocuments;
          CreateTableAnalyses; CreateIndexAnalysesDocumentId;
          UpsertDocument "a.txt" [120%N]; SelectCoalesceMaxId; SelectSetval m].
Proof. split; [|intros m]; vm_compute; reflexivity. Qed.

(** C9, amended.  Replicas with sessions of their own, launched together on
    a server where the lock is free, and stepping in any order.  As long as
    the lock is free, nothing has been issued and the committed database is
    untouched.  Once it is taken, it is held by the session of one replica,
    the same from then on.  Every other replica has issued nothing but the
    lock query; when it has come to its end, it has been refused, has logged
    so and has returned [None].  The holder goes on, from where it is, to the
    end it would have reached alone on the server of the launch: same outcome,
    same statements, same committed database.  When it returns, it has
    executed the full sequence; when one of its steps fails, it raises and no
    replica completes the sequence.  And every replica does come to its end:
    [load_bound] turns are enough, however the turns of the others fall in
    between. *)
Theorem one_replica_bootstraps (engines : list AsyncEngine)
    (dirs : list path_state) (srv0 : server) (schedule : list nat) :
  NoDup (engine_session <$> engines) →
  advisory_locks srv0 !! DB_INIT_ADVISORY_LOCK_KEY = None →
  let c := sched schedule (launch engines dirs srv0) in
  (advisory_locks (store c) !! DB_INIT_ADVISORY_LOCK_KEY = None →
     committed (store c) = committed srv0 ∧
     ∀ i r, replicas c !! i = Some r →
            issued (proc r) = [] ∧ result_of (code r) = None) ∧
  (∀ h, advisory_locks (store c) !! DB_INIT_ADVISORY_LOCK_KEY = Some h →
     ∃ w e d rw,
       engines !! w = Some e ∧ dirs !! w = Some d ∧ engine_session e = h ∧
       replicas c !! w = Some rw ∧
       (∀ j r, j ≠ w → replicas c !! j = Some r →
          (issued (proc r) = [] ∨
           issued (proc r) = [SelectTryAdvisoryLock DB_INIT_ADVISORY_LOCK_KEY]) ∧
          (∀ o, result_of (code r) = Some o →
             o = Returns PyNone ∧
             issued (proc r) = [SelectTryAdvisoryLock DB_INIT_ADVISORY_LOCK_KEY] ∧
             log (proc r) = [InfoAnotherWorker])) ∧
       alike_for h (run (code rw) (proc rw, store c))
                   (run load_txt_files_to_db (fresh_process e d, srv0)) ∧
       (∀ o, result_of (code rw) = Some o →
          o = (run load_txt_files_to_db (fresh_process e d, srv0)).1 ∧
          proc rw = (run load_txt_files_to_db (fresh_process e d, srv0)).2.1 ∧
          committed (store c)
            = committed (run load_txt_files_to_db (fresh_process e d, srv0)).2.2 ∧
          (∀ v, o = Returns v →
             v = PyNone ∧ ∃ m, issued (proc rw) = full_sequence d m))) ∧
  (∀ i e d, engines !! i = Some e → dirs !! i = Some d →
     (load_bound d ≤ turns i schedule)%nat →
     ∃ r, replicas c !! i = Some r ∧ is_Some (result_of (code r))).
Proof.
  intros Hnd Hfree c.
  pose proof (launched_sched engines dirs srv0 schedule _ Hnd
                (launched_launch engines dirs srv0 Hfree)) as (Hnone & Hheld & Hall).
  fold c in Hnone, Hheld, Hall. split_and!; [| |by apply sched_finishes].
  - (* the lock is free *)
    intros Hl. split; [by apply Hnone|].
    intros i r Hi.
    destruct (Hall i r Hi) as (e & d & _ & _ & [Hby|(Hw & _)]); [|congruence].
    destruct Hby as (ph & -> & -> & _ & _ & Hre).
    destruct ph; try done; destruct (Hre eq_refl) as [h Hh]; congruence.
  - (* the lock is held *)
    intros h Hh.
    destruct (Hheld h Hh) as (w & e & He & Hs & [rw Hw]).
    destruct (Hall w rw Hw) as (e' & d & He' & Hd & Hphase).
    assert (e' = e) as -> by congruence.
    exists w, e, d, rw. split_and!; [done..| | |].
    + (* the others *)
      intros j r Hne Hj.
      destruct (Hall j r Hj) as (ej & dj & Hej & Hdj & [Hby|(Hlj & _)]).
      * destruct Hby as (ph & -> & -> & _ & _ & _).
        split; [destruct ph; by (left + right)|].
        intros o Ho. destruct ph; try done. by injection Ho as <-.
      * destruct Hne. apply (sessions_distinct engines j w ej e); try done.
        congruence.
    + (* the holder *)
      destruct Hphase as [(ph & _ & _ & Hnot & _)|(_ & _ & Hrun)]; [congruence|].
      by rewrite <- Hs.
    + intros o Ho.
      destruct Hphase as [(ph & _ & _ & Hnot & _)|(_ & _ & Hrun)]; [congruence|].
      destruct Hrun as (Hr1 & Hr2 & (Hr3 & _ & _)).
      destruct rw as [p m]. cbn [proc code] in *.
      destruct m as [v|ex|R ev k]; [| |done]; injection Ho as <-;
        cbn [run fst snd] in Hr1, Hr2, Hr3; split_and!; try done.
      intros v' [= <-]. rewrite Hr2. by apply load_alone_Returns.
Qed.

Lemma one_replica_bootstraps_witness :
  ∃ w, ∀ j r, j ≠ w →
    replicas (sched (taking_turns 20)
      (launch two_engines [dir_with_one_file; dir_with_one_file] fresh_server))
      !! j = Some r →
    ∀ o, result_of (code r) = Some o → o = Returns PyNone.
Proof.
  destruct (one_replica_bootstraps two_engines
              [dir_with_one_file; dir_with_one_file] fresh_server (taking_turns 20))
    as (_ & Hheld & _).
  - compute_done.
  - reflexivity.
  - destruct (Hheld 1%nat) as (w & e & d & rw & _ & _ & _ & _ & Hothers & _).
    + by vm_compute.
    + exists w. intros j r Hne Hj o Ho.
      by destruct (Hothers j r Hne Hj) as [_ Hfin], (Hfin o Ho) as [-> _].
Defined.

(** * Further properties of [db_loader.py] *)

(** ** The call before all others: [set_engine] *)

(** X1.  [set_engine] puts the engine in place for the loader: called first,
    whatever engine was or was not set before, it makes
    [load_txt_files_to_db] run with that engine, so that the call never
    raises [RuntimeError]; and of two calls of [set_engine] the last one
    counts. *)
Theorem set_engine_enables_the_loader (p : process) (srv : server) (e : AsyncEngine) :
  run (set_engine e;; load_txt_files_to_db) (p, srv)
    = run load_txt_files_to_db (with_engine (Some e) p, srv) ∧
  (∀ msg, (run (set_engine e;; load_txt_files_to_db) (p, srv)).1
          ≠ Raises (RuntimeError msg)) ∧
  (∀ e0, run (set_engine e0;; set_engine e) (p, srv) = run (set_engine e) (p, srv)).
Proof.
  assert (H1 : run (set_engine e;; load_txt_files_to_db) (p, srv)
               = run load_txt_files_to_db (with_engine (Some e) p, srv)).
  { unfold set_engine. by rewrite !run_bind, run_trigger. }
  split_and!; [done| |done].
  intros msg Hr. rewrite H1 in Hr.
  apply (load_with_engine_Raises _ _ e) in Hr as [Hr|[pe Hr]]; done.
Qed.

(** ** The call that holds the lock, as a function of the database *)

Lemma committed_commit_txn (s : session) (srv : server) :
  is_Some (open_txn srv !! s) → committed (commit_txn s srv) = view srv s.
Proof.
  intros [version Hv]. unfold commit_txn, view. rewrite Hv. by destruct version.
Qed.

Lemma run_initialise_granted (s : session) (p : process) (srv : server) :
  is_Some (open_txn srv !! s) →
  conn_budget p = None →
  ∃ p' srv',
    run (initialise s) (p, srv) =
      (match bootstrap_database (text_dir p) (view srv s) with
       | inl ex => Raises ex
       | inr _ => Returns Normal
       end, (p', srv')) ∧
    is_Some (open_txn srv' !! s) ∧
    (∀ db', bootstrap_database (text_dir p) (view srv s) = inr db' → view srv' s = db').
Proof.
  intros Hs Hb.
  destruct (run_initialise s p srv Hs Hb) as (p2 & srv2 & -> & Hd2 & Hb2 & _ & Hs2 & Hv2).
  set (t0 := default {| doc_rows := []; documents_id_seq := serial |}
               (documents (view srv s))).
  assert (Ht0 : documents (view srv2 s) = Some t0) by by rewrite Hv2.
  destruct (run_load_corpus s p2 srv2 t0 Hs2 Ht0 Hb2)
    as (p3 & srv3 & Hrun & Hd3 & Hb3 & Hs3 & Hv3).
  cbn zeta in Hrun. rewrite Hd2 in Hrun, Hv3.
  rewrite run_bind, Hrun. unfold bootstrap_database. fold t0.
  destruct (load_table (text_dir p) (sorted (path_glob (text_dir p))) t0)
    as [[ex|] t1]; cbn [fst snd] in *.
  { exists p3, srv3. split_and!; [done..|]. intros db' [=]. }
  pose proof (run_set_documents_sequence s p3 srv3 t1 Hs3) as Hrep.
  rewrite Hv3 in Hrep. specialize (Hrep eq_refl Hb3). cbn zeta in Hrep.
  destruct Hrep as [_ Hrep]. rewrite run_bind.
  pose proof (inside_run s (_set_documents_sequence s) p3 srv3
                (in_session_set_documents_sequence s) Hs3) as (_ & _ & _ & _ & Hs4 & _).
  destruct (run (_set_documents_sequence s) (p3, srv3)) as [o [p4 srv4]].
  cbn [fst snd] in Hrep, Hs4. unfold setval.
  destruct (decide (coalesce_max_id (doc_rows t1) < seq_min (documents_id_seq t1))).
  - destruct Hrep as [-> _]. exists p4, srv4. split_and!; [done..|]. intros db' [=].
  - destruct Hrep as [-> Hv4]. exists p4, srv4. split_and!; [done..|].
    intros db' [= <-]. rewrite Hv4, Hv2. done.
Qed.

(** The whole routine, when it is granted the lock over a connection that
    does not break. *)
Lemma run_load_granted (p : process) (srv : server) (e : AsyncEngine) :
  _engine p = Some e →
  conn_budget p = None →
  (try_advisory_lock (engine_session e) DB_INIT_ADVISORY_LOCK_KEY
     (advisory_locks srv)).1 = true →
  (run load_txt_files_to_db (p, srv)).1 =
    match bootstrap_database (text_dir p) (committed srv) with
    | inl ex => Raises ex
    | inr _ => Returns PyNone
    end ∧
  (∀ db', bootstrap_database (text_dir p) (committed srv) = inr db' →
     committed (run load_txt_files_to_db (p, srv)).2.2 = db').
Proof.
  intros He Hb Hg. rewrite (run_load_with_engine _ _ _ He). cbn zeta.
  set (s := engine_session e) in *.
  assert (Hs : open_txn (begin_txn s srv) !! s = Some None)
    by apply lookup_insert_eq.
  rewrite (run_bootstrap_block _ _ _ _ Hs) by (by rewrite Hb). cbn zeta.
  cbn [begin_txn advisory_locks]. rewrite Hg.
  match goal with |- context [run (initialise s) (?p1, ?srv1)] =>
    destruct (run_initialise_granted s p1 srv1) as (p2 & srv2 & Hrun & Hs2 & Hv2);
      [cbn [open_txn]; by rewrite Hs
      |cbn [with_issued conn_budget]; by rewrite Hb
      |assert (Hv0 : view srv1 s = committed srv)
         by (unfold view; cbn [open_txn committed begin_txn];
             by rewrite lookup_insert_eq)]
  end.
  rewrite Hv0 in Hrun, Hv2. cbn [with_issued text_dir] in Hrun, Hv2.
  rewrite Hrun.
  destruct (bootstrap_database (text_dir p) (committed srv)) as [ex|db];
    cbn [fst snd]; split; try done.
  - intros db' Hdb. rewrite committed_commit_txn by done. by apply Hv2.
Qed.

Lemma try_advisory_lock_granted (s : session) (locks : gmap Z session) :
  grantable s locks →
  (try_advisory_lock s DB_INIT_ADVISORY_LOCK_KEY locks).1 = true ∧
  (try_advisory_lock s DB_INIT_ADVISORY_LOCK_KEY locks).2
    !! DB_INIT_ADVISORY_LOCK_KEY = Some s.
Proof.
  unfold grantable, try_advisory_lock. intros Hg.
  destruct (locks !! DB_INIT_ADVISORY_LOCK_KEY) as [h|] eqn:Hl; cbn [fst snd].
  - rewrite (Hg h eq_refl) in *. by rewrite bool_decide_eq_true.
  - by rewrite lookup_insert_eq.
Qed.

Lemma grantable_free (s : session) (locks : gmap Z session) :
  locks !! DB_INIT_ADVISORY_LOCK_KEY = None → grantable s locks.
Proof. intros Hf h Hh. congruence. Qed.

Lemma upsert_document_other (fn : string) (c : text) (t : documents_table)
    (r : document) :
  r ∈ doc_rows t → doc_filename r ≠ fn →
  r ∈ doc_rows (upsert_document fn c t).2.
Proof.
  intros Hr Hne. unfold upsert_document.
  destruct (nextval (documents_id_seq t)) as [id seq'].
  repeat case_decide; cbn [snd doc_rows]; try done.
  - apply list_elem_of_fmap. exists r. split; [|done].
    unfold set_content. by rewrite decide_False.
  - apply elem_of_app. by left.
Qed.

Lemma load_table_other (dir : path_state) (files : list string)
    (t : documents_table) (r : document) :
  r ∈ doc_rows t → doc_filename r ∉ files →
  r ∈ doc_rows (load_table dir files t).2.
Proof.
  revert t. induction files as [|file rest IH]; intros t Hr Hn; [done|].
  apply not_elem_of_cons in Hn as [Hne Hn]. cbn [load_table].
  destruct (read_text (path_lookup dir file)) as [[msg| | |e]|content]; try done.
  - by apply IH.
  - pose proof (upsert_document_other file content t r Hr Hne) as Hr'.
    destruct (upsert_document file content t) as [[e|] t']; [done|].
    by apply IH.
Qed.

(** X3.  What a bootstrap that returns leaves committed, when the lock was
    free or its own and the connection did not break: the table [documents]
    and the table [analyses] exist, with the index; every [*.txt] entry of
    the directory that decodes is a row under its name, with its text; the
    rows that were there before are all still there with their identifiers
    and file names, in place, and those whose name is not in the corpus are
    untouched; the rows of [analyses] are what they were. *)
Theorem bootstrap_leaves_schema_and_corpus (p : process) (srv : server)
    (e : AsyncEngine) (v : pyval) :
  _engine p = Some e →
  conn_budget p = None →
  grantable (engine_session e) (advisory_locks srv) →
  (run load_txt_files_to_db (p, srv)).1 = Returns v →
  let before := default [] (doc_rows <$> documents (committed srv)) in
  let after := committed (run load_txt_files_to_db (p, srv)).2.2 in
  ∃ t,
    documents after = Some t ∧
    analyses after = Some (default [] (analyses (committed srv))) ∧
    idx_analyses_document_id after = true ∧
    (∀ name, name ∈ path_glob (text_dir p) → stored (text_dir p) (doc_rows t) name) ∧
    row_keys before `prefix_of` row_keys (doc_rows t) ∧
    (∀ r, r ∈ before → doc_filename r ∉ path_glob (text_dir p) → r ∈ doc_rows t).
Proof.
  intros He Hb Hg Hv before after. subst after.
  destruct (try_advisory_lock_granted _ _ Hg) as [Hg1 _].
  destruct (run_load_granted p srv e He Hb Hg1) as [Ho Hc].
  rewrite Ho in Hv. unfold bootstrap_database in Hv, Hc.
  set (t0 := default {| doc_rows := []; documents_id_seq := serial |}
               (documents (committed srv))) in *.
  assert (Hrows : doc_rows t0 = before).
  { subst t0 before. by destruct (documents (committed srv)). }
  set (files := sorted (path_glob (text_dir p))) in *.
  pose proof (load_table_stored (text_dir p) files t0) as Hst.
  pose proof (load_table_other (text_dir p) files t0) as Hot.
  destruct (load_table (text_dir p) files t0) as [[ex|] t1]; [done|].
  cbn [fst snd] in *. destruct (Hst eq_refl) as (Hin & _ & Hpre & _).
  destruct (setval _ _ _) as [seq'|]; [|done].
  rewrite (Hc _ eq_refl). eexists. split_and!; [done..| | |].
  - intros name Hn. cbn [doc_rows]. apply Hin. by apply elem_of_sorted.
  - by rewrite <- Hrows.
  - intros r Hr Hn. cbn [doc_rows]. apply Hot; [by rewrite Hrows|].
    unfold files. by rewrite elem_of_sorted.
Qed.

Lemma bootstrap_leaves_schema_and_corpus_witness :
  ∃ t,
    documents (committed (run load_txt_files_to_db
                            (process_with dir_with_one_file, fresh_server)).2.2)
      = Some t ∧
    stored dir_with_one_file (doc_rows t) "a.txt".
Proof.
  destruct (bootstrap_leaves_schema_and_corpus (process_with dir_with_one_file)
              fresh_server sample_engine PyNone)
    as (t & Ht & _ & _ & Hst & _).
  - reflexivity.
  - reflexivity.
  - by apply grantable_free.
  - by vm_compute.
  - exists t. split; [exact Ht|]. apply Hst. compute_done.
Defined.

(** X4.  After a bootstrap that returns, the sequence of [documents.id]
    stands at the largest identifier of the table, and has been called: no
    identifier in use is above it.  While that maximum is below 2147483647,
    the last value of a [SERIAL] sequence, the next identifier the sequence
    hands out is the maximum plus one, larger than every identifier in use,
    so the next insert of a new file name that draws its identifier from the
    sequence does not collide with a row on the primary key. *)
Theorem bootstrap_aligns_the_sequence (p : process) (srv : server)
    (e : AsyncEngine) (v : pyval) :
  _engine p = Some e →
  conn_budget p = None →
  grantable (engine_session e) (advisory_locks srv) →
  (run load_txt_files_to_db (p, srv)).1 = Returns v →
  ∃ t,
    documents (committed (run load_txt_files_to_db (p, srv)).2.2) = Some t ∧
    last_value (documents_id_seq t) = coalesce_max_id (doc_rows t) ∧
    is_called (documents_id_seq t) = true ∧
    (∀ r, r ∈ doc_rows t → doc_id r ≤ last_value (documents_id_seq t)) ∧
    (coalesce_max_id (doc_rows t) < int4_max →
       (nextval (documents_id_seq t)).1 = coalesce_max_id (doc_rows t) + 1 ∧
       (nextval (documents_id_seq t)).1 ≤ int4_max ∧
       (∀ r, r ∈ doc_rows t → doc_id r < (nextval (documents_id_seq t)).1) ∧
       (∀ fn c, fn ∉ doc_filename <$> doc_rows t →
          (upsert_document fn c t).1 ≠ Some UniqueViolation)).
Proof.
  intros He Hb Hg Hv.
  destruct (try_advisory_lock_granted _ _ Hg) as [Hg1 _].
  destruct (run_load_granted p srv e He Hb Hg1) as [Ho Hc].
  rewrite Ho in Hv. unfold bootstrap_database in Hv, Hc.
  destruct (load_table _ _ _) as [[ex|] t1]; [done|].
  destruct (setval _ _ _) as [seq'|] eqn:Hset; [|done].
  rewrite (Hc _ eq_refl). eexists. split; [done|]. cbn [doc_rows documents_id_seq].
  destruct (nextval_after_repair t1 seq' Hset) as [Hn Hlt].
  unfold setval in Hset. case_decide; [done|]. injection Hset as <-.
  cbn [last_value is_called]. split_and!; [done..| |].
  { intros r Hr. by apply coalesce_max_id_ge. }
  intros Hroom. split_and!; [done|lia|done|].
  intros fn c Hfn. unfold upsert_document. cbn [doc_rows documents_id_seq].
  match goal with |- context [nextval ?s] =>
    destruct (nextval s) as [id seq''] eqn:Hnv end.
  cbn [fst] in Hn, Hlt. subst id.
  rewrite decide_False by done. rewrite decide_False; [done|].
  intros (r & Hid & Hr)%list_elem_of_fmap. specialize (Hlt r Hr). lia.
Qed.

Lemma bootstrap_aligns_the_sequence_witness :
  ∃ t,
    documents (committed (run load_txt_files_to_db
                            (process_with dir_with_one_file, fresh_server)).2.2)
      = Some t ∧
    doc_rows t = [Document 1 "a.txt" [120%N]] ∧
    last_value (documents_id_seq t) = 1 ∧
    (nextval (documents_id_seq t)).1 = 2.
Proof.
  destruct (bootstrap_aligns_the_sequence (process_with dir_with_one_file)
              fresh_server sample_engine PyNone)
    as (t & Ht & Hlast & _ & _ & Hnext).
  - reflexivity.
  - reflexivity.
  - by apply grantable_free.
  - by vm_compute.
  - exists t. pose proof Ht as Ht'. vm_compute in Ht'. injection Ht' as <-.
    destruct Hnext as (Hn & _); [by vm_compute|].
    split_and!; [exact Ht|reflexivity|exact Hlast|exact Hn].
Defined.

(** ** The repair of the sequence *)

(** X2.  [_set_documents_sequence] on a table whose largest identifier is
    not below the minimum of its sequence and below 2147483647, the last
    value of a [SERIAL] sequence, inside a transaction and over a connection
    that does not break: it returns, the rows are what they were, the
    sequence stands at the largest identifier, and whatever the sequence was
    before (never used, or behind identifiers inserted by hand) the next
    identifier it hands out is the largest one in the table plus one, above
    them all and still a value of the sequence. *)
Theorem repair_puts_next_id_above_all (c : connection) (p : process) (srv : server)
    (t : documents_table) :
  is_Some (open_txn srv !! c) →
  documents (view srv c) = Some t →
  conn_budget p = None →
  seq_min (documents_id_seq t) ≤ coalesce_max_id (doc_rows t) →
  coalesce_max_id (doc_rows t) < int4_max →
  (run (_set_documents_sequence c) (p, srv)).1 = Returns () ∧
  ∃ t',
    documents (view (run (_set_documents_sequence c) (p, srv)).2.2 c) = Some t' ∧
    doc_rows t' = doc_rows t ∧
    documents_id_seq t'
      = {| seq_min := seq_min (documents_id_seq t);
           last_value := coalesce_max_id (doc_rows t); is_called := true |} ∧
    (nextval (documents_id_seq t')).1 = coalesce_max_id (doc_rows t) + 1 ∧
    (nextval (documents_id_seq t')).1 ≤ int4_max ∧
    ∀ r, r ∈ doc_rows t' → doc_id r < (nextval (documents_id_seq t')).1.
Proof.
  intros Hs Ht Hb Hmin Hroom.
  destruct (run_set_documents_sequence c p srv t Hs Ht Hb) as [_ Hrep].
  cbn zeta in Hrep. rewrite decide_False in Hrep by lia.
  destruct Hrep as [Ho Hv]. split; [done|]. rewrite Hv. eexists. split; [done|].
  cbn [doc_rows documents_id_seq]. split; [done|]. split; [done|].
  assert (Hnext : (nextval {| seq_min := seq_min (documents_id_seq t);
                              last_value := coalesce_max_id (doc_rows t);
                              is_called := true |}).1
                  = coalesce_max_id (doc_rows t) + 1) by done.
  split; [done|]. split; [rewrite Hnext; lia|].
  destruct (nextval_after_repair t
              {| seq_min := seq_min (documents_id_seq t);
                 last_value := coalesce_max_id (doc_rows t); is_called := true |})
    as [Hn Hlt]; [|done].
  unfold setval. by rewrite decide_False by lia.
Qed.

Lemma repair_puts_next_id_above_all_witness :
  (run (_set_documents_sequence 2%nat)
       (process_with Missing, begin_txn 2%nat explicit_ids_server)).1 = Returns () ∧
  ∃ t',
    documents (view (run (_set_documents_sequence 2%nat)
                         (process_with Missing,
                          begin_txn 2%nat explicit_ids_server)).2.2 2%nat)
      = Some t' ∧
    (nextval (documents_id_seq t')).1 = 13.
Proof.
  destruct (repair_puts_next_id_above_all 2%nat (process_with Missing)
              (begin_txn 2%nat explicit_ids_server)
              {| doc_rows := [Document 5 "five.txt" []; Document 12 "twelve.txt" [];
                              Document 3 "three.txt" []];
                 documents_id_seq := serial |})
    as (Hr & t' & Ht' & _ & _ & Hn & _).
  - by exists None.
  - reflexivity.
  - reflexivity.
  - by vm_compute.
  - by vm_compute.
  - split; [exact Hr|]. exists t'. split; [exact Ht'|exact Hn].
Defined.

(** ** The statements and the log of a call *)

Lemma run_execute_log (c : connection) (st : statement) p srv res p' srv' :
  run (execute c st) (p, srv) = (Returns res, (p', srv')) → log p' = log p.
Proof. by intros ->%run_execute_Returns. Qed.

Lemma load_files_log (c : connection) (files : list string) p srv p' srv' :
  run (load_files c files) (p, srv) = (Returns (), (p', srv')) →
  log p' = log p ++
    omap (λ name,
            match read_text (path_lookup (text_dir p) name) with
            | inl UnicodeDecodeError => Some (WarningNonUtf8 name)
            | _ => None
            end) files.
Proof.
  revert p srv. induction files as [|file rest IH]; intros p srv.
  - simpl. intros [= <- <-]. by rewrite app_nil_r.
  - cbn [load_files]. intros H.
    apply run_bind_Returns in H as (r & [p1 srv1] & H1 & H2).
    rewrite run_trigger in H1. cbn [handle fst snd] in H1.
    injection H1 as <- <- <-. cbn [omap list_omap].
    destruct (read_text (path_lookup (text_dir p) file)) as [[msg| | |e]|content];
      try done.
    + apply run_bind_Returns in H2 as ([] & [p2 srv2] & H2 & H3).
      rewrite run_trigger_Log in H2. injection H2 as <- <-.
      apply IH in H3 as ->. cbn [log with_log text_dir].
      by rewrite <- app_assoc.
    + apply run_bind_Returns in H2 as (res & [p2 srv2] & H2 & H3).
      apply run_execute_Returns in H2 as ->.
      by apply IH in H3 as ->.
Qed.

Lemma load_corpus_log (c : connection) p srv p' srv' :
  run (load_corpus c) (p, srv) = (Returns (), (p', srv')) →
  log p' = log p ++ corpus_warnings (text_dir p).
Proof.
  unfold load_corpus, corpus_warnings. intros H.
  apply run_bind_Returns in H as (ex & [p1 srv1] & H1 & H).
  rewrite run_trigger in H1. cbn [handle fst snd] in H1. injection H1 as <- <- <-.
  apply run_bind_Returns in H as (is_dir & [p2 srv2] & H2 & H).
  destruct (text_dir p) as [| |entries] eqn:Hd; cbn [path_exists] in H2, H.
  - injection H2 as <- <- <-. cbn [negb orb] in H.
    rewrite run_trigger_Log in H. by injection H as <- <-.
  - rewrite run_trigger in H2. cbn [handle fst snd] in H2. rewrite Hd in H2.
    injection H2 as <- <- <-. cbn [negb orb path_is_dir] in H.
    rewrite run_trigger_Log in H. by injection H as <- <-.
  - rewrite run_trigger in H2. cbn [handle fst snd] in H2. rewrite Hd in H2.
    injection H2 as <- <- <-. cbn [negb orb path_is_dir] in H.
    apply run_bind_Returns in H as (files & [p3 srv3] & H3 & H).
    rewrite run_trigger in H3. cbn [handle fst snd] in H3. injection H3 as <- <- <-.
    apply load_files_log in H. by rewrite Hd in H.
Qed.

Lemma set_documents_sequence_log (c : connection) p srv p' srv' :
  run (_set_documents_sequence c) (p, srv) = (Returns (), (p', srv')) →
  log p' = log p.
Proof.
  unfold _set_documents_sequence. intros H.
  apply run_bind_Returns in H as (res & [p1 srv1] & H1 & H).
  apply run_execute_Returns in H1 as ->.
  apply run_bind_Returns in H as (res' & [p2 srv2] & H2 & H).
  apply run_execute_Returns in H2 as ->.
  by injection H as <- <-.
Qed.

Lemma initialise_log (c : connection) p srv v p' srv' :
  run (initialise c) (p, srv) = (Returns v, (p', srv')) →
  log p' = log p ++ corpus_warnings (text_dir p).
Proof.
  unfold initialise. intros H.
  apply run_bind_Returns in H as (r1 & [p1 srv1] & H1 & H).
  apply run_execute_Returns in H1 as ->.
  apply run_bind_Returns in H as (r2 & [p2 srv2] & H2 & H).
  apply run_execute_Returns in H2 as ->.
  apply run_bind_Returns in H as (r3 & [p3 srv3] & H3 & H).
  apply run_execute_Returns in H3 as ->.
  apply run_bind_Returns in H as ([] & [p4 srv4] & H4 & H).
  apply load_corpus_log in H4 as Hl4.
  apply run_bind_Returns in H as ([] & [p5 srv5] & H5 & H).
  apply set_documents_sequence_log in H5 as Hl5.
  injection H as <- <- <-. by rewrite Hl5, Hl4.
Qed.

Lemma bootstrap_block_log (c : connection) p srv v p' srv' :
  run (bootstrap_block c) (p, srv) = (Returns v, (p', srv')) →
  (v = Return PyNone ∧ log p' = log p ++ [InfoAnotherWorker]) ∨
  (v = Normal ∧ log p' = log p ++ corpus_warnings (text_dir p)).
Proof.
  unfold bootstrap_block, on_lock_answer. intros H.
  apply run_bind_Returns in H as (res & [p1 srv1] & H1 & H).
  apply run_execute_Returns in H1 as ->.
  match type of H with context [negb ?b] => destruct (negb b) end.
  - left. apply run_bind_Returns in H as ([] & [p2 srv2] & H2 & H).
    rewrite run_trigger_Log in H2. injection H2 as <- <-.
    by injection H as <- <- <-.
  - right. pose proof (initialise_issued _ _ _ _ _ _ H) as [-> _].
    by apply initialise_log in H.
Qed.

Lemma upsert_of_corpus_upserts (dir : path_state) :
  omap upsert_of (corpus_upserts dir) =
  omap (λ name, (name,.) <$> match read_text (path_lookup dir name) with
                             | inr content => Some content
                             | inl _ => None
                             end) (sorted (path_glob dir)).
Proof.
  unfold corpus_upserts. induction (sorted (path_glob dir)) as [|name l IH]; [done|].
  cbn [omap list_omap]. destruct (read_text (path_lookup dir name)); [done|].
  cbn [omap list_omap upsert_of fmap option_fmap option_map]. by rewrite <- IH.
Qed.

Lemma StronglySorted_sublist {A} (R : relation A) (l1 l2 : list A) :
  l1 `sublist_of` l2 → StronglySorted R l2 → StronglySorted R l1.
Proof.
  induction 1 as [|x l1 l2 Hsub IH|x l1 l2 Hsub IH]; [done| |];
    intros [Hs Hx]%StronglySorted_inv.
  - constructor; [by apply IH|]. rewrite Forall_forall in Hx |- *.
    intros y Hy. apply Hx. by eapply elem_of_sublist.
  - by apply IH.
Qed.

Lemma omap_fst_sublist {A B} (f : A → option B) (l : list A) :
  (omap (λ a, (a,.) <$> f a) l).*1 `sublist_of` l.
Proof.
  induction l as [|a l IH]; [done|]. cbn [omap list_omap].
  destruct (f a) as [b|]; cbn; by constructor.
Qed.

Lemma upsert_of_full_sequence (dir : path_state) (m : Z) :
  omap upsert_of (full_sequence dir m) = omap upsert_of (corpus_upserts dir).
Proof.
  unfold full_sequence. rewrite !omap_app. cbn. by rewrite app_nil_r.
Qed.

(** X5.  The upserts of a call that returns are those of the [*.txt] entries
    of the directory that decode, no other name and no name twice, in
    ascending order of the file names, each with the text read from its file;
    a call that went past the lock has sent one for every such entry. *)
Theorem upserts_follow_the_sorted_corpus (p : process) (srv : server) (v : pyval) :
  (run load_txt_files_to_db (p, srv)).1 = Returns v →
  ∃ sts,
    issued (run load_txt_files_to_db (p, srv)).2.1 = issued p ++ sts ∧
    StronglySorted String.le (omap upsert_of sts).*1 ∧
    NoDup (omap upsert_of sts).*1 ∧
    (∀ name content, (name, content) ∈ omap upsert_of sts →
       matches_txt name = true ∧
       read_text (path_lookup (text_dir p) name) = inr content) ∧
    (CreateTableDocuments ∈ sts →
     ∀ name content,
       name ∈ path_glob (text_dir p) →
       read_text (path_lookup (text_dir p) name) = inr content →
       (name, content) ∈ omap upsert_of sts).
Proof.
  intros Hv.
  pose proof (upsert_of_corpus_upserts (text_dir p)) as Hcorpus.
  assert (Hin : ∀ name content,
    (name, content) ∈ omap upsert_of (corpus_upserts (text_dir p)) ↔
    name ∈ path_glob (text_dir p) ∧
    read_text (path_lookup (text_dir p) name) = inr content).
  { intros name content. rewrite Hcorpus, list_elem_of_omap.
    setoid_rewrite elem_of_sorted. split.
    - intros (n & Hn & Hr). destruct (read_text (path_lookup (text_dir p) n)) eqn:Hrd;
        [done|]. by injection Hr as -> ->.
    - intros [Hn Hr]. exists name. by rewrite Hr. }
  assert (Hi :
    issued (run load_txt_files_to_db (p, srv)).2.1
      = issued p ++ [SelectTryAdvisoryLock DB_INIT_ADVISORY_LOCK_KEY] ∨
    ∃ m, issued (run load_txt_files_to_db (p, srv)).2.1
           = issued p ++ full_sequence (text_dir p) m).
  { revert Hv. destruct (_engine p) as [e|] eqn:He.
    - rewrite (run_load_with_engine _ _ _ He). cbn zeta.
      destruct (run (bootstrap_block (engine_session e)) _)
        as [[c|ex] [p' srv']] eqn:Hb; [|done].
      apply bootstrap_block_issued in Hb as [[-> Hi]|[-> [m Hi]]]; cbn [fst snd];
        intros _; [by left|right; by exists m].
    - by rewrite (run_load_without_engine _ _ He). }
  destruct Hi as [Hi|[m Hi]].
  - eexists. split; [done|]. cbn. split_and!; try by constructor.
    + intros name content H. by apply elem_of_nil in H.
    + intros H. apply list_elem_of_singleton in H. done.
  - eexists. split; [done|]. rewrite upsert_of_full_sequence. split_and!.
    + rewrite Hcorpus. eapply StronglySorted_sublist; [apply omap_fst_sublist|].
      apply sorted_Sorted.
    + rewrite Hcorpus. eapply sublist_NoDup; [|apply omap_fst_sublist].
      unfold sorted. rewrite merge_sort_Permutation. apply NoDup_path_glob.
    + intros name content [Hn Hr]%Hin. split; [|done].
      destruct (text_dir p) as [| |entries]; try by apply elem_of_nil in Hn.
      by apply elem_of_path_glob in Hn as [? _].
    + intros _ name content Hn Hr. by apply Hin.
Qed.

Lemma upserts_follow_the_sorted_corpus_witness :
  ∃ sts,
    issued (run load_txt_files_to_db
              (process_with dir_with_malformed, fresh_server)).2.1
      = issued (process_with dir_with_malformed) ++ sts ∧
    NoDup (omap upsert_of sts).*1.
Proof.
  destruct (upserts_follow_the_sorted_corpus (process_with dir_with_malformed)
              fresh_server PyNone)
    as (sts & Hi & _ & Hnd & _).
  - by vm_compute.
  - exists sts. exact (conj Hi Hnd).
Defined.

(** X6.  What a call that returns has logged, over a directory whose file
    names are UTF-8 (for such names the order of their bytes is the order in
    which Python sorts them).  The call that was refused the lock has sent
    the lock query and logged that another worker did the work, and nothing
    else: not the message of success.  The call that went through has logged
    one warning for every [*.txt] entry that does not decode, in the order of
    the file names (or the one warning that there is no corpus directory),
    and then the message of success. *)
Theorem log_of_a_call_that_returns (p : process) (srv : server) (v : pyval) :
  (∀ name, name ∈ path_glob (text_dir p) → utf8_name name) →
  (run load_txt_files_to_db (p, srv)).1 = Returns v →
  (issued (run load_txt_files_to_db (p, srv)).2.1
     = issued p ++ [SelectTryAdvisoryLock DB_INIT_ADVISORY_LOCK_KEY] ∧
   log (run load_txt_files_to_db (p, srv)).2.1 = log p ++ [InfoAnotherWorker]) ∨
  ((∃ m, issued (run load_txt_files_to_db (p, srv)).2.1
           = issued p ++ full_sequence (text_dir p) m) ∧
   log (run load_txt_files_to_db (p, srv)).2.1
     = log p ++ corpus_warnings (text_dir p) ++ [InfoInitialized]).
Proof.
  intros _.
  destruct (_engine p) as [e|] eqn:He.
  - rewrite (run_load_with_engine _ _ _ He). cbn zeta.
    destruct (run (bootstrap_block (engine_session e)) _)
      as [[c|ex] [p' srv']] eqn:Hb; [|done].
    pose proof (bootstrap_block_issued _ _ _ _ _ _ Hb) as Hi.
    apply bootstrap_block_log in Hb as [[-> Hl]|[-> Hl]]; cbn [fst snd];
      destruct Hi as [[? Hi]|[? Hi]]; try done; intros _.
    + by left.
    + right. split; [done|]. cbn [log with_log]. by rewrite Hl, <- app_assoc.
  - by rewrite (run_load_without_engine _ _ He).
Qed.

Lemma log_of_a_call_that_returns_witness :
  log (run load_txt_files_to_db (process_with dir_with_malformed, fresh_server)).2.1
    = [WarningNonUtf8 "bad.txt"; InfoInitialized].
Proof.
  destruct (log_of_a_call_that_returns (process_with dir_with_malformed)
              fresh_server PyNone) as [[Hi _]|[_ Hl]].
  - apply Forall_forall. vm_compute. repeat (constructor; [by eexists|]). constructor.
  - by vm_compute.
  - by vm_compute in Hi.
  - rewrite Hl. by vm_compute.
Defined.

(** ** What a call leaves behind on the server *)

(** X7.  Over a connection that does not break, so that its session lives
    on in the pool, [load_txt_files_to_db] never gives an advisory lock back:
    whoever holds a key before the call holds it after; and a call that
    finds the bootstrap lock free leaves the lock held by the session of its
    engine when it ends, whether it returned or raised: neither the commit
    nor the rollback releases it. *)
Theorem lock_is_never_released (p : process) (srv : server) :
  conn_budget p = None →
  (∀ k h, advisory_locks srv !! k = Some h →
     advisory_locks (run load_txt_files_to_db (p, srv)).2.2 !! k = Some h) ∧
  (∀ e, _engine p = Some e →
     advisory_locks srv !! DB_INIT_ADVISORY_LOCK_KEY = None →
     advisory_locks (run load_txt_files_to_db (p, srv)).2.2
       !! DB_INIT_ADVISORY_LOCK_KEY = Some (engine_session e)).
Proof.
  intros Hb. split; [intros k h; apply run_holder|].
  intros e He. apply load_takes_the_lock; [done|]. by rewrite Hb.
Qed.

Lemma lock_is_never_released_witness :
  advisory_locks (run load_txt_files_to_db
                    (process_with dir_with_unreadable, fresh_server)).2.2
    !! DB_INIT_ADVISORY_LOCK_KEY = Some 2%nat.
Proof.
  apply (proj2 (lock_is_never_released (process_with dir_with_unreadable)
                  fresh_server eq_refl) sample_engine); by vm_compute.
Defined.

(** A call that another session's lock refuses. *)
Lemma run_load_refused (p : process) (srv : server) (e : AsyncEngine)
    (holder : session) :
  _engine p = Some e →
  advisory_locks srv !! DB_INIT_ADVISORY_LOCK_KEY = Some holder →
  holder ≠ engine_session e →
  conn_budget p ≠ Some 0%nat →
  (run load_txt_files_to_db (p, srv)).1 = Returns PyNone ∧
  issued (run load_txt_files_to_db (p, srv)).2.1
    = issued p ++ [SelectTryAdvisoryLock DB_INIT_ADVISORY_LOCK_KEY] ∧
  committed (run load_txt_files_to_db (p, srv)).2.2 = committed srv.
Proof.
  intros He Hl Hne Hb.
  rewrite (run_load_with_engine _ _ _ He). cbn zeta.
  set (s := engine_session e).
  assert (Hs : open_txn (begin_txn s srv) !! s = Some None)
    by apply lookup_insert_eq.
  rewrite (run_bootstrap_block _ _ _ _ Hs Hb). cbn zeta.
  assert (Hr : (try_advisory_lock s DB_INIT_ADVISORY_LOCK_KEY
                  (advisory_locks (begin_txn s srv))).1 = false).
  { apply try_advisory_lock_refused. by exists holder. }
  rewrite Hr. unfold commit_txn.
  cbn [open_txn begin_txn committed advisory_locks fst snd].
  by rewrite lookup_insert_eq.
Qed.

(** X9.  Once a call has taken the lock, over a connection that did not
    break, so that its session lives on in the pool, the call of any other
    session that follows it is refused: it returns [None], the lock query is
    the one statement it has sent, and it leaves the committed database as it
    found it.  This is so whether the first call returned or raised: a
    bootstrap that failed and was rolled back still keeps the others out. *)
Theorem later_calls_are_refused (p1 p2 : process) (srv : server)
    (e1 e2 : AsyncEngine) :
  _engine p1 = Some e1 →
  _engine p2 = Some e2 →
  engine_session e1 ≠ engine_session e2 →
  conn_budget p1 = None →
  conn_budget p2 = None →
  advisory_locks srv !! DB_INIT_ADVISORY_LOCK_KEY = None →
  let srv1 := (run load_txt_files_to_db (p1, srv)).2.2 in
  (run load_txt_files_to_db (p2, srv1)).1 = Returns PyNone ∧
  issued (run load_txt_files_to_db (p2, srv1)).2.1
    = issued p2 ++ [SelectTryAdvisoryLock DB_INIT_ADVISORY_LOCK_KEY] ∧
  committed (run load_txt_files_to_db (p2, srv1)).2.2 = committed srv1.
Proof.
  intros He1 He2 Hne Hb1 Hb2 Hfree srv1.
  apply (run_load_refused p2 srv1 e2 (engine_session e1)); try done.
  - apply load_takes_the_lock; [done| |done]. by rewrite Hb1.
  - by rewrite Hb2.
Qed.

Lemma later_calls_are_refused_witness :
  (run load_txt_files_to_db
     (fresh_process {| engine_session := 1%nat |} dir_with_one_file,
      (run load_txt_files_to_db
         (process_with dir_with_unreadable, fresh_server)).2.2)).1
  = Returns PyNone.
Proof.
  apply (later_calls_are_refused (process_with dir_with_unreadable)
           (fresh_process {| engine_session := 1%nat |} dir_with_one_file)
           fresh_server sample_engine {| engine_session := 1%nat |});
    by vm_compute.
Defined.

(** X8.  When a call made with an engine ends, returned or raised, the
    transaction it began on the session of the engine is closed, and the
    open transactions of all other sessions are what they were. *)
Theorem transaction_is_closed (p : process) (srv : server) (e : AsyncEngine) :
  _engine p = Some e →
  open_txn (run load_txt_files_to_db (p, srv)).2.2 !! engine_session e = None ∧
  ∀ s', s' ≠ engine_session e →
    open_txn (run load_txt_files_to_db (p, srv)).2.2 !! s' = open_txn srv !! s'.
Proof.
  intros He. rewrite (run_load_with_engine _ _ _ He). cbn zeta.
  set (s := engine_session e).
  assert (Hs : is_Some (open_txn (begin_txn s srv) !! s)).
  { exists None. apply lookup_insert_eq. }
  pose proof (inside_run s (bootstrap_block s) p (begin_txn s srv)
                (in_session_bootstrap_block s) Hs) as (_ & _ & _ & Hoth & Hs' & _).
  destruct (run (bootstrap_block s) _) as [[[|v]|ex] [p' srv']]; cbn [fst snd] in *;
    rewrite ?open_txn_commit_txn, ?open_txn_rollback_txn by done;
    (split; [apply lookup_delete_eq|]);
    intros s' Hne; rewrite lookup_delete_ne by done; rewrite (Hoth s' Hne);
    cbn [begin_txn open_txn]; by rewrite lookup_insert_ne.
Qed.

Lemma transaction_is_closed_witness :
  open_txn (run load_txt_files_to_db
              (process_with dir_with_unreadable, fresh_server)).2.2 !! 2%nat = None.
Proof.
  apply (proj1 (transaction_is_closed (process_with dir_with_unreadable)
                  fresh_server sample_engine eq_refl)).
Defined.

(** * Properties of [main.py] *)

(** ** Running the application *)

Lemma app_run_bind {A B} (m : coroutine A) (f : A → coroutine B) (aw : app_world) :
  app_run (m ≫= f) aw =
  match app_run m aw with
  | (Responds a, aw') => app_run (f a) aw'
  | (Throws e, aw') => (Throws e, aw')
  end.
Proof.
  revert aw. induction m as [a|e|R rq k IH]; intros aw; simpl; try done.
  destruct (serve rq aw) as [r aw']. apply IH.
Qed.

Lemma app_run_try_except {A B} (m : coroutine A) (f : A → coroutine B)
    (g : exception → coroutine B) (aw : app_world) :
  app_run (try_except m f g) aw =
  match app_run m aw with
  | (Responds a, aw') => app_run (f a) aw'
  | (Throws e, aw') => app_run (g e) aw'
  end.
Proof.
  revert aw. induction m as [a|e|R rq k IH]; intros aw; simpl; try done.
  destruct (serve rq aw) as [r aw']. apply IH.
Qed.

Lemma app_run_ask {R} (rq : request R) (aw : app_world) :
  app_run (ask rq) aw = (Responds (serve rq aw).1, (serve rq aw).2).
Proof. simpl. by destruct (serve rq aw). Qed.

(** A call into the loader runs as the loader does. *)
Lemma app_run_call {A} (m : prog A) (a : app_state) (w : world) :
  app_run (call m) (a, w) =
  (match (run m w).1 with
   | Returns v => Responds v
   | Raises e => Throws (Exn e)
   end, (a, (run m w).2)).
Proof.
  revert w. induction m as [v|e|R ev k IH]; intros w; simpl; try done.
  destruct w as [p srv]. destruct (handle ev (p, srv)) as [r w']. apply IH.
Qed.

Lemma app_run_execute_query {R} (c : connection) (q : query R) (a : app_state)
    (p : process) (srv : server) :
  app_run (execute_query c q) (a, (p, srv)) =
  (match (server_query c q srv).1 with
   | inr res => Responds res
   | inl e => Throws (raised e)
   end, (a, (p, (server_query c q srv).2))).
Proof.
  unfold execute_query. rewrite app_run_bind, app_run_ask. cbn [serve fst snd].
  by destruct (server_query c q srv) as [[e|res] srv'].
Qed.

(** ** Statements inside a transaction *)

Lemma exec_query_reads {R} (q : query R) (db : database) :
  query_writes q = false → (exec_query q db).2 = db.
Proof.
  destruct q; try done; intros _; cbn [exec_query]; unfold on_documents;
    by repeat case_match.
Qed.

Lemma server_query_in_txn {R} (s : session) (q : query R) (srv : server)
    (version : option database) :
  open_txn srv !! s = Some version →
  server_query s q srv =
  ((exec_query q (view srv s)).1,
   {| committed := committed srv;
      open_txn := <[s := if query_writes q
                         then Some (exec_query q (view srv s)).2
                         else version]> (open_txn srv);
      advisory_locks := advisory_locks srv |}).
Proof.
  intros Hs. unfold server_query. rewrite Hs.
  by destruct (exec_query q (view srv s)).
Qed.

Lemma view_server_query {R} (s : session) (q : query R) (srv : server) :
  is_Some (open_txn srv !! s) →
  view (server_query s q srv).2 s = (exec_query q (view srv s)).2.
Proof.
  intros [version Hs]. rewrite (server_query_in_txn _ _ _ _ Hs).
  unfold view at 1. cbn [open_txn snd]. rewrite lookup_insert_eq.
  destruct (query_writes q) eqn:Hw; [done|].
  rewrite exec_query_reads by done. unfold view. rewrite Hs. by destruct version.
Qed.

(** A query that reads leaves the server as it is. *)
Lemma server_query_reads {R} (s : session) (q : query R) (srv : server) :
  is_Some (open_txn srv !! s) →
  query_writes q = false →
  (server_query s q srv).2 = srv.
Proof.
  intros [version Hs] Hw. rewrite (server_query_in_txn _ _ _ _ Hs), Hw.
  cbn [snd]. rewrite insert_id by done. by destruct srv.
Qed.

(** ** Connections of [main.py] *)

Lemma app_run_engine_connect {A} (engine : AsyncEngine) (body : connection → coroutine A)
    (a : app_state) (p : process) (srv : server) :
  unreachable a = 0%nat →
  app_run (engine_connect engine body) (a, (p, srv)) =
  let r := app_run (body (engine_session engine))
             (a, (p, begin_txn (engine_session engine) srv)) in
  (r.1, (r.2.1, (r.2.2.1, rollback_txn (engine_session engine) r.2.2.2))).
Proof.
  intros Hu. unfold engine_connect. rewrite app_run_bind, app_run_ask.
  cbn [serve fst snd]. rewrite Hu. cbn [fst snd]. rewrite app_run_try_except.
  destruct (app_run (body (engine_session engine)) _) as [[x|e] [a' [p' srv']]];
    cbn zeta; cbn [fst snd]; by rewrite app_run_bind, app_run_ask.
Qed.

Lemma app_run_engine_begin_commit {A} (engine : AsyncEngine)
    (body : connection → coroutine A) (a : app_state) (p : process) (srv : server) :
  unreachable a = 0%nat →
  app_run (engine_begin_commit engine body) (a, (p, srv)) =
  let s := engine_session engine in
  match app_run (body s) (a, (p, begin_txn s srv)) with
  | (Responds x, (a', (p', srv'))) => (Responds x, (a', (p', commit_txn s srv')))
  | (Throws e, (a', (p', srv'))) => (Throws e, (a', (p', rollback_txn s srv')))
  end.
Proof.
  intros Hu. unfold engine_begin_commit. rewrite app_run_bind, app_run_ask.
  cbn [serve fst snd]. rewrite Hu. cbn [fst snd]. rewrite app_run_try_except.
  cbn zeta.
  destruct (app_run (body (engine_session engine)) _) as [[x|e] [a' [p' srv']]];
    by rewrite app_run_bind, app_run_ask.
Qed.

Lemma app_run_unreachable {A} (engine : AsyncEngine) (body : connection → coroutine A)
    (a : app_state) (w : world) (n : nat) :
  unreachable a = S n →
  app_run (engine_connect engine body) (a, w) =
  (Throws (Exn OSError),
   ({| unreachable := n; slept := slept a; app_log := app_log a |}, w)).
Proof.
  intros Hu. unfold engine_connect. rewrite app_run_bind, app_run_ask.
  cbn [serve fst snd]. by rewrite Hu.
Qed.

Lemma view_begin_txn (s : session) (srv : server) :
  view (begin_txn s srv) s = committed srv.
Proof. unfold view. cbn [begin_txn open_txn committed]. by rewrite lookup_insert_eq. Qed.

Lemma rollback_begin_txn (s : session) (srv : server) :
  open_txn srv !! s = None → rollback_txn s (begin_txn s srv) = srv.
Proof.
  intros Hs. unfold rollback_txn. cbn [begin_txn open_txn committed advisory_locks].
  rewrite lookup_insert_eq, delete_insert_id by done. by destruct srv.
Qed.

Lemma commit_begin_txn (s : session) (srv : server) :
  open_txn srv !! s = None → commit_txn s (begin_txn s srv) = srv.
Proof.
  intros Hs. unfold commit_txn. cbn [begin_txn open_txn committed advisory_locks].
  rewrite lookup_insert_eq, delete_insert_id by done. by destruct srv.
Qed.

(** A block that connects, reads and disconnects. *)
Lemma app_run_read {R A} (engine : AsyncEngine) (q : query R) (f : R → A)
    (a : app_state) (p : process) (srv : server) :
  unreachable a = 0%nat →
  open_txn srv !! engine_session engine = None →
  query_writes q = false →
  app_run (engine_connect engine (λ conn, res ← execute_query conn q; Done (f res)))
          (a, (p, srv)) =
  (match (exec_query q (committed srv)).1 with
   | inr res => Responds (f res)
   | inl e => Throws (raised e)
   end, (a, (p, srv))).
Proof.
  intros Hu Hs Hw. rewrite app_run_engine_connect by done. cbn zeta.
  rewrite app_run_bind, app_run_execute_query.
  assert (Ht : is_Some (open_txn (begin_txn (engine_session engine) srv)
                          !! engine_session engine)).
  { exists None. apply lookup_insert_eq. }
  rewrite server_query_reads by done.
  destruct Ht as [v Ht]. rewrite (server_query_in_txn _ _ _ _ Ht). cbn [fst].
  rewrite view_begin_txn.
  destruct (exec_query q (committed srv)).1; cbn [app_run fst snd];
    by rewrite rollback_begin_txn.
Qed.

(** ** Start-up *)

Lemma waited_0 (a : app_state) : waited 0 a = a.
Proof.
  destruct a as [u sl l]. unfold waited. cbn.
  by rewrite Nat.sub_0_r, Nat.add_0_r, app_nil_r.
Qed.

Lemma waited_S (n : nat) (a : app_state) (u : nat) :
  unreachable a = S u →
  waited (S n) a
  = waited n {| unreachable := u; slept := (slept a + 1)%nat;
                app_log := app_log a ++ [InfoWaitingForDatabase] |}.
Proof.
  intros Hu. unfold waited. cbn [unreachable slept app_log]. rewrite Hu. f_equal.
  - lia.
  - by rewrite <- app_assoc.
Qed.

Lemma app_run_wait_for_db_ready (engine : AsyncEngine) (fuel : nat)
    (a : app_state) (p : process) (srv : server) :
  open_txn srv !! engine_session engine = None →
  app_run (wait_for_db_ready engine fuel) (a, (p, srv)) =
  if decide (unreachable a < fuel)%nat
  then (Responds (Some ()), (waited (unreachable a) a, (p, srv)))
  else (Responds None, (waited fuel a, (p, srv))).
Proof.
  intros Hs. revert a. induction fuel as [|fuel IH]; intros a.
  { rewrite decide_False by lia. by rewrite waited_0. }
  cbn [wait_for_db_ready]. rewrite app_run_try_except.
  destruct (unreachable a) as [|u] eqn:Hu.
  - rewrite (app_run_read engine SelectOne (λ _, ())) by done.
    cbn [exec_query fst app_run]. rewrite decide_True by lia. by rewrite waited_0.
  - rewrite (app_run_unreachable _ _ _ _ u) by done.
    rewrite app_run_bind, app_run_ask. cbn [serve fst snd unreachable slept app_log].
    rewrite app_run_bind, app_run_ask. cbn [serve fst snd unreachable slept app_log].
    rewrite IH. cbn [unreachable].
    destruct (decide (u < fuel)%nat).
    + rewrite decide_True by lia. by rewrite (waited_S u a u).
    + rewrite decide_False by lia. by rewrite (waited_S fuel a u).
Qed.

(** X10.  [wait_for_db_ready] returns once the server has accepted a
    connection and answered [SELECT 1]: one log record and one second of
    sleep for every attempt that failed before, and nothing else; the server
    is left as it is, and the function does not raise. *)
Theorem wait_for_db_ready_waits (engine : AsyncEngine) (fuel : nat)
    (a : app_state) (p : process) (srv : server) :
  open_txn srv !! engine_session engine = None →
  (unreachable a < fuel)%nat →
  app_run (wait_for_db_ready engine fuel) (a, (p, srv)) =
  (Responds (Some ()),
   ({| unreachable := 0;
       slept := (slept a + unreachable a)%nat;
       app_log := app_log a ++ replicate (unreachable a) InfoWaitingForDatabase |},
    (p, srv))).
Proof.
  intros Hs Hf. rewrite app_run_wait_for_db_ready by done.
  rewrite decide_True by done. unfold waited. by rewrite Nat.sub_diag.
Qed.

Lemma wait_for_db_ready_waits_witness :
  app_run (wait_for_db_ready sample_engine 3)
          (starting_app, (process_with Missing, seeded_server))
  = (Responds (Some ()),
     ({| unreachable := 0; slept := 2;
         app_log := [InfoWaitingForDatabase; InfoWaitingForDatabase] |},
      (process_with Missing, seeded_server))).
Proof.
  apply (wait_for_db_ready_waits sample_engine 3 starting_app
           (process_with Missing) seeded_server).
  - reflexivity.
  - cbn. lia.
Defined.

(** X11.  [startup_event] does not raise: once the server is reachable it
    calls the loader, and an exception of the loader is logged and swallowed.
    The world is left as the loader leaves it; the log holds the waiting
    records and then the failure record exactly when the loader raised, in
    which case the tables are those of before the call: the application
    starts on a database that may lack its tables. *)
Theorem startup_event_swallows_bootstrap_errors (engine : AsyncEngine) (fuel : nat)
    (a : app_state) (p : process) (srv : server) :
  open_txn srv !! engine_session engine = None →
  (unreachable a < fuel)%nat →
  let r := app_run (startup_event engine fuel) (a, (p, srv)) in
  r.1 = Responds (Some ()) ∧
  r.2.2 = (run load_txt_files_to_db (p, srv)).2 ∧
  app_log r.2.1
    = app_log a ++ replicate (unreachable a) InfoWaitingForDatabase
      ++ match (run load_txt_files_to_db (p, srv)).1 with
         | Returns _ => []
         | Raises _ => [ExceptionInitFailed]
         end ∧
  (∀ ex, (run load_txt_files_to_db (p, srv)).1 = Raises ex →
     tables (committed r.2.2.2) = tables (committed srv)).
Proof.
  intros Hs Hf r. subst r. unfold startup_event.
  rewrite app_run_bind, app_run_wait_for_db_ready by done.
  rewrite decide_True by done. rewrite app_run_try_except, app_run_call.
  pose proof (load_Raises_tables p srv) as Htab.
  destruct (run load_txt_files_to_db (p, srv)) as [[v|ex] w']; cbn [fst snd] in *.
  - split_and!; [done..| |done]. unfold waited. cbn [app_log]. by rewrite app_nil_r.
  - rewrite app_run_bind, app_run_ask. cbn [serve fst snd app_run].
    split_and!; [done..| |].
    + unfold waited. cbn [app_log]. by rewrite <- app_assoc.
    + intros ex' _. by apply (Htab ex).
Qed.

Lemma startup_event_swallows_bootstrap_errors_witness :
  (app_run (startup_event sample_engine 3)
           (starting_app, (process_with Missing, fresh_server))).1
  = Responds (Some ()).
Proof.
  refine (proj1 (startup_event_swallows_bootstrap_errors sample_engine 3
                   starting_app (process_with Missing) fresh_server _ _)).
  - reflexivity.
  - cbn. lia.
Defined.

(** ** Reading documents *)

#[local] Instance id_le_transitive : Transitive id_le.
Proof. intros r1 r2 r3. unfold id_le. lia. Qed.

#[local] Instance id_le_total : Total id_le.
Proof. intros r1 r2. unfold id_le. lia. Qed.

Lemma order_by_id_sorted (rows : list document) :
  StronglySorted Z.le (doc_id <$> order_by_id rows).
Proof.
  eapply StronglySorted_fmap; [|apply (StronglySorted_merge_sort id_le); apply _].
  done.
Qed.

Lemma filter_none {A} (P : A → Prop) `{!∀ x, Decision (P x)} (l : list A) :
  (∀ x, x ∈ l → ¬ P x) → filter P l = [].
Proof.
  induction l as [|x l IH]; [done|]. intros Hno.
  rewrite filter_cons_False by (apply Hno; left).
  apply IH. intros y Hy. apply Hno. by right.
Qed.

Lemma filter_by_id (rows : list document) (r : document) :
  NoDup (doc_id <$> rows) → r ∈ rows →
  filter (λ r', doc_id r' = doc_id r) rows = [r].
Proof.
  induction rows as [|r0 rows IH]; [by intros _ ?%elem_of_nil|].
  rewrite fmap_cons, NoDup_cons. intros [Hn Hnd] [->|Hr]%elem_of_cons.
  - rewrite filter_cons_True by done. f_equal. apply filter_none.
    intros r' Hr' Heq. apply Hn. rewrite <- Heq. by apply list_elem_of_fmap_2.
  - rewrite filter_cons_False; [by apply IH|].
    intros Heq. apply Hn. rewrite Heq. by apply list_elem_of_fmap_2.
Qed.

Lemma filter_absent_id (rows : list document) (id : Z) :
  id ∉ doc_id <$> rows → filter (λ r, doc_id r = id) rows = [].
Proof.
  intros Hn. apply filter_none. intros r Hr <-. apply Hn.
  by apply list_elem_of_fmap_2.
Qed.

(** X12.  [list_txt_files] answers with the identifier and the file name of
    every document, each once, in ascending order of the identifiers, and
    leaves the server as it is; without the table it logs the error and
    answers 500. *)
Theorem list_txt_files_in_id_order (engine : AsyncEngine) (a : app_state)
    (p : process) (srv : server) :
  unreachable a = 0%nat →
  open_txn srv !! engine_session engine = None →
  match documents (committed srv) with
  | Some t =>
      ∃ l, app_run (list_txt_files engine) (a, (p, srv)) = (Responds l, (a, (p, srv))) ∧
           l ≡ₚ row_keys (doc_rows t) ∧
           StronglySorted Z.le l.*1
  | None =>
      app_run (list_txt_files engine) (a, (p, srv)) =
      (Throws (HTTPException 500 "Database error while listing files."),
       ({| unreachable := unreachable a; slept := slept a;
           app_log := app_log a ++ [ExceptionListingFiles] |}, (p, srv)))
  end.
Proof.
  intros Hu Hs. unfold list_txt_files, fetch_all_files.
  rewrite app_run_try_except.
  rewrite (app_run_read engine SelectIdFilenameOrderById (λ rows, rows)) by done.
  cbn [exec_query]. unfold on_documents.
  destruct (documents (committed srv)) as [t|]; cbn [fst snd app_run raised].
  - eexists. split; [done|]. split.
    + unfold row_keys, order_by_id. by rewrite merge_sort_Permutation.
    + rewrite <- list_fmap_compose.
      apply (order_by_id_sorted (doc_rows t)).
  - by rewrite app_run_bind, app_run_ask.
Qed.

Lemma list_txt_files_in_id_order_witness :
  ∃ l, app_run (list_txt_files sample_engine)
               (ready_app, (process_with Missing, explicit_ids_server))
       = (Responds l, (ready_app, (process_with Missing, explicit_ids_server))) ∧
       StronglySorted Z.le l.*1.
Proof.
  pose proof (list_txt_files_in_id_order sample_engine ready_app
                (process_with Missing) explicit_ids_server eq_refl eq_refl) as H.
  hnf in H. destruct H as (l & Hrun & _ & Hsorted). exists l. exact (conj Hrun Hsorted).
Defined.

(** X13.  [view_text]: the identifier, the name and the text of the
    document of that identifier, 404 when there is none and the identifier
    is in the range of the column, 500 and a log record when the table cannot
    be read; the server is left as it is. *)
Theorem view_text_answers (engine : AsyncEngine) (doc_id' : Z) (a : app_state)
    (p : process) (srv : server) :
  unreachable a = 0%nat →
  open_txn srv !! engine_session engine = None →
  match documents (committed srv) with
  | Some t =>
      (∀ r, NoDup (doc_id <$> doc_rows t) → r ∈ doc_rows t → doc_id r = doc_id' →
         app_run (view_text engine doc_id') (a, (p, srv))
         = (Responds (doc_id', doc_filename r, doc_content r), (a, (p, srv)))) ∧
      (int4 doc_id' → doc_id' ∉ doc_id <$> doc_rows t →
         app_run (view_text engine doc_id') (a, (p, srv))
         = (Throws (HTTPException 404 "Document not found."), (a, (p, srv))))
  | None =>
      app_run (view_text engine doc_id') (a, (p, srv)) =
      (Throws (HTTPException 500 "Database error while fetching document."),
       ({| unreachable := unreachable a; slept := slept a;
           app_log := app_log a ++ [ExceptionFetchingDocument doc_id'] |}, (p, srv)))
  end.
Proof.
  intros Hu Hs. unfold view_text, fetch_document.
  rewrite app_run_bind, app_run_try_except.
  rewrite (app_run_read engine (SelectDocumentById doc_id') head) by done.
  cbn [exec_query]. unfold on_documents.
  destruct (documents (committed srv)) as [t|]; cbn [fst snd app_run raised].
  - split.
    + intros r Hnd Hr <-. by rewrite filter_by_id.
    + intros _ Hn. by rewrite filter_absent_id.
  - by rewrite app_run_bind, app_run_ask.
Qed.

Lemma view_text_answers_witness :
  app_run (view_text sample_engine 1)
          (ready_app, (process_with Missing, seeded_server))
  = (Responds (1, "a.txt", [120%N]),
     (ready_app, (process_with Missing, seeded_server))).
Proof.
  pose proof (view_text_answers sample_engine 1 ready_app
                (process_with Missing) seeded_server eq_refl eq_refl) as H.
  hnf in H. destruct H as [H _].
  apply (H (Document 1 "a.txt" [120%N])).
  - apply NoDup_singleton.
  - apply list_elem_of_here.
  - reflexivity.
Defined.

(** ** Writing inside [engine.begin()] *)

(** A statement that writes, first in its transaction, then the commit. *)
Lemma commit_after_write (s : session) (srv : server) (db : database) :
  open_txn srv !! s = None →
  commit_txn s
    {| committed := committed (begin_txn s srv);
       open_txn := <[s := Some db]> (open_txn (begin_txn s srv));
       advisory_locks := advisory_locks (begin_txn s srv) |}
  = {| committed := db; open_txn := open_txn srv;
       advisory_locks := advisory_locks srv |}.
Proof.
  intros Hs. unfold commit_txn. cbn [open_txn committed advisory_locks begin_txn].
  rewrite lookup_insert_eq, insert_insert_eq, delete_insert_id by done. done.
Qed.

Lemma rollback_after_write (s : session) (srv : server) (db : database) :
  open_txn srv !! s = None →
  rollback_txn s
    {| committed := committed (begin_txn s srv);
       open_txn := <[s := Some db]> (open_txn (begin_txn s srv));
       advisory_locks := advisory_locks (begin_txn s srv) |}
  = {| committed := keep_sequences (committed srv) db; open_txn := open_txn srv;
       advisory_locks := advisory_locks srv |}.
Proof.
  intros Hs. unfold rollback_txn. cbn [open_txn committed advisory_locks begin_txn].
  rewrite lookup_insert_eq, insert_insert_eq, delete_insert_id by done. done.
Qed.

Lemma begin_txn_open (s : session) (srv : server) :
  open_txn (begin_txn s srv) !! s = Some None.
Proof. apply lookup_insert_eq. Qed.

Lemma app_run_delete_text (engine : AsyncEngine) (id : Z) (a : app_state)
    (p : process) (srv : server) (t : documents_table) :
  unreachable a = 0%nat →
  open_txn srv !! engine_session engine = None →
  documents (committed srv) = Some t →
  app_run (delete_text engine id) (a, (p, srv)) =
  match head (filter (λ r, doc_id r = id) (doc_rows t)) with
  | None => (Throws (HTTPException 404 "Document not found."), (a, (p, srv)))
  | Some r =>
      (Responds ("Document " +:+ pretty id +:+ " (" +:+ doc_filename r
                 +:+ ") deleted (analysis removed via cascade if present)."),
       (a, (p, {| committed := without_document id (committed srv);
                  open_txn := open_txn srv;
                  advisory_locks := advisory_locks srv |})))
  end.
Proof.
  intros Hu Hs Ht. unfold delete_text.
  rewrite app_run_bind, app_run_engine_begin_commit by done. cbn zeta.
  set (s := engine_session engine) in *.
  rewrite app_run_bind, app_run_execute_query.
  rewrite server_query_reads by (done || by exists None; apply begin_txn_open).
  rewrite (server_query_in_txn _ _ _ _ (begin_txn_open s srv)). cbn [fst].
  rewrite view_begin_txn. cbn [exec_query]. unfold on_documents. rewrite Ht.
  cbn [fst snd].
  destruct (filter (λ r, doc_id r = id) (doc_rows t)) as [|r l]; cbn [fmap list_fmap head app_run].
  { by rewrite rollback_begin_txn. }
  rewrite app_run_bind, app_run_execute_query.
  rewrite (server_query_in_txn _ _ _ _ (begin_txn_open s srv)). cbn [fst snd query_writes].
  rewrite view_begin_txn. cbn [exec_query]. unfold on_documents. rewrite Ht.
  cbn [fst snd app_run]. rewrite commit_after_write by done.
  do 4 f_equal. unfold without_document, with_analyses, with_documents.
  by rewrite Ht.
Qed.

(** X14.  [delete_text] removes the document of that identifier and, by the
    cascade, its analysis, and nothing else: the other documents, the other
    analyses and the sequence are what they were; when there is no such
    document, and the identifier is in the range of the column, it answers
    404 and leaves the server as it is. *)
Theorem delete_text_removes_one_document (engine : AsyncEngine) (id : Z)
    (a : app_state) (p : process) (srv : server) (t : documents_table) :
  unreachable a = 0%nat →
  open_txn srv !! engine_session engine = None →
  documents (committed srv) = Some t →
  (int4 id → id ∉ doc_id <$> doc_rows t →
     app_run (delete_text engine id) (a, (p, srv))
     = (Throws (HTTPException 404 "Document not found."), (a, (p, srv)))) ∧
  (id ∈ doc_id <$> doc_rows t →
     ∃ msg t',
       (app_run (delete_text engine id) (a, (p, srv))).1 = Responds msg ∧
       let srv' := (app_run (delete_text engine id) (a, (p, srv))).2.2.2 in
       documents (committed srv') = Some t' ∧
       (id ∉ doc_id <$> doc_rows t') ∧
       (∀ r, r ∈ doc_rows t' ↔ r ∈ doc_rows t ∧ doc_id r ≠ id) ∧
       documents_id_seq t' = documents_id_seq t ∧
       (∀ rows, analyses (committed srv) = Some rows →
          ∃ rows', analyses (committed srv') = Some rows' ∧
            ∀ x, x ∈ rows' ↔ x ∈ rows ∧ document_id x ≠ id) ∧
       open_txn srv' = open_txn srv).
Proof.
  intros Hu Hs Ht. rewrite (app_run_delete_text _ _ _ _ _ t) by done. split.
  - intros _ Hn. by rewrite filter_absent_id.
  - intros (r & -> & Hr)%list_elem_of_fmap.
    destruct (filter (λ r', doc_id r' = doc_id r) (doc_rows t)) as [|r1 l] eqn:Hf.
    { exfalso. by eapply (filter_nil_not_elem_of _ _ r Hf). }
    cbn [head fst snd]. eexists _, _. split; [done|]. cbn zeta.
    cbn [committed open_txn without_document documents analyses]. rewrite Ht.
    cbn [fmap option_fmap option_map]. split_and!; [done| | |done| |done];
      cbn [doc_rows].
    + intros (r' & Hid & [Hne _]%list_elem_of_filter)%list_elem_of_fmap. done.
    + intros r'. rewrite list_elem_of_filter. tauto.
    + intros rows ->. eexists. split; [done|]. intros x.
      rewrite list_elem_of_filter. tauto.
Qed.

Lemma delete_text_removes_one_document_witness :
  ∃ msg, (app_run (delete_text sample_engine 1)
                  (ready_app, (process_with Missing, seeded_server))).1
         = Responds msg.
Proof.
  destruct (proj2 (delete_text_removes_one_document sample_engine 1 ready_app
                     (process_with Missing) seeded_server seeded_table
                     eq_refl eq_refl eq_refl))
    as (msg & t' & Hmsg & _).
  - apply list_elem_of_here.
  - exists msg. exact Hmsg.
Defined.

(** ** Names for uploads *)

Lemma string_length_app (s1 s2 : string) :
  String.length (s1 +:+ s2) = (String.length s1 + String.length s2)%nat.
Proof. induction s1 as [|a s1 IH]; [done|]. cbn. by rewrite <- IH. Qed.

Lemma string_app_inj_r (s1 s2 s : string) : s1 +:+ s = s2 +:+ s → s1 = s2.
Proof.
  revert s2. induction s1 as [|a s1 IH]; intros [|b s2] H; [done| | |].
  - apply (f_equal String.length) in H. cbn in H.
    change (String.length (EmptyString +:+ s) = S (String.length (s2 +:+ s))) in H.
    rewrite !string_length_app in H. cbn in H. lia.
  - apply (f_equal String.length) in H.
    change (S (String.length (s1 +:+ s)) = String.length (EmptyString +:+ s)) in H.
    rewrite !string_length_app in H. cbn in H. lia.
  - injection H as -> H. f_equal. by apply IH.
Qed.

Lemma numbered_name_inj (stem : string) : Inj (=) (=) (numbered_name stem).
Proof.
  intros j1 j2 H. unfold numbered_name in H.
  apply (inj (String.app stem)) in H. apply (inj (String.app "_")) in H.
  apply string_app_inj_r in H. by apply (inj pretty) in H.
Qed.

(** [SELECT 1 FROM documents WHERE filename = :fn] returns a row exactly when
    the name is in use. *)
Lemma filename_taken (rows : list document) (fn : string) :
  head ((λ _, 1) <$> filter (λ r, doc_filename r = fn) rows) = None
  ↔ fn ∉ doc_filename <$> rows.
Proof.
  split.
  - intros H (r & -> & Hr)%list_elem_of_fmap.
    destruct (filter (λ r', doc_filename r' = doc_filename r) rows) as [|r1 l] eqn:Hf;
      [|done].
    by eapply (filter_nil_not_elem_of _ _ r Hf).
  - intros Hn. rewrite filter_none; [done|].
    intros r Hr <-. apply Hn. by apply list_elem_of_fmap_2.
Qed.

Section free_names.

Context (engine : AsyncEngine) (path_stem : string → string).

Lemma crowded_length (names : list string) (stem : string) (k : nat) :
  crowded names stem k (length names).
Proof.
  intros l Hnd Hl. apply submseteq_length, NoDup_submseteq; [done|].
  intros n Hn. by apply Hl.
Qed.

Lemma crowded_S_free (names : list string) (stem : string) (k m : nat) :
  crowded names stem k m → crowded names stem (S k) m.
Proof.
  intros Hc l Hnd Hl. apply Hc; [done|]. intros n Hn.
  destruct (Hl n Hn) as (Hin & j & Hj & ->). split; [done|]. exists j. split; [lia|done].
Qed.

Lemma crowded_S_taken (names : list string) (stem : string) (k m : nat) :
  crowded names stem k m →
  numbered_name stem (S k) ∈ names →
  (0 < m)%nat ∧ crowded names stem (S k) (pred m).
Proof.
  intros Hc Ht.
  assert (Hstep : ∀ l, NoDup l →
    (∀ n, n ∈ l → n ∈ names ∧ ∃ j, (S k < j)%nat ∧ n = numbered_name stem j) →
    (S (length l) ≤ m)%nat).
  { intros l Hnd Hl. apply (Hc (numbered_name stem (S k) :: l)).
    - constructor; [|done]. intros Hin.
      destruct (Hl _ Hin) as (_ & j & Hj & Heq).
      apply numbered_name_inj in Heq. lia.
    - intros n [->|Hn]%elem_of_cons.
      + split; [done|]. exists (S k). split; [lia|done].
      + destruct (Hl n Hn) as (Hin & j & Hj & ->). split; [done|].
        exists j. split; [lia|done]. }
  split.
  - specialize (Hstep [] (NoDup_nil_2) ltac:(by intros n ?%elem_of_nil)). cbn in Hstep. lia.
  - intros l Hnd Hl. specialize (Hstep l Hnd Hl). lia.
Qed.

(** One round of the loop of [upload_text], inside a transaction that sees
    the table. *)
Lemma app_run_free_filename_round (fuel : nat) (base_name : string) (k : nat)
    (candidate : string) (a : app_state) (p : process) (srv : server)
    (t : documents_table) :
  let s := engine_session engine in
  is_Some (open_txn srv !! s) →
  documents (view srv s) = Some t →
  app_run (free_filename path_stem fuel s base_name k candidate) (a, (p, srv)) =
  if has_nul_char candidate then (Throws DataError, (a, (p, srv)))
  else if decide (candidate ∈ doc_filename <$> doc_rows t) then
    match fuel with
    | O => (Responds None, (a, (p, srv)))
    | S fuel' =>
        app_run (free_filename path_stem fuel' s base_name (S k)
                   (numbered_name (path_stem base_name) (S k))) (a, (p, srv))
    end
  else (Responds (Some candidate), (a, (p, srv))).
Proof.
  intros s Hs Ht.
  destruct fuel; cbn [free_filename];
    rewrite app_run_bind, app_run_execute_query, server_query_reads by done;
    destruct Hs as [v Hs]; rewrite (server_query_in_txn _ _ _ _ Hs);
    cbn [fst exec_query]; unfold on_documents; rewrite Ht;
    destruct (has_nul_char candidate); cbn [fst]; try done;
    pose proof (filename_taken (doc_rows t) candidate) as Htk;
    destruct (head _); case_decide; try done;
    try (by destruct (proj1 Htk eq_refl));
    by (assert (Some z = None) by (by apply Htk)).
Qed.

(** The loop reads only; the name it ends with is not in use and can be
    stored, and it is the first candidate when that one is free.  The loop
    raises only on a name that cannot be stored. *)
Lemma app_run_free_filename (fuel : nat) (base_name : string) (k : nat)
    (candidate : string) (a : app_state) (p : process) (srv : server)
    (t : documents_table) :
  let s := engine_session engine in
  is_Some (open_txn srv !! s) →
  documents (view srv s) = Some t →
  ∃ r,
    app_run (free_filename path_stem fuel s base_name k candidate) (a, (p, srv))
      = (r, (a, (p, srv))) ∧
    match r with
    | Responds stored =>
        has_nul_char candidate = false ∧
        ∀ name, stored = Some name →
          (name ∉ doc_filename <$> doc_rows t) ∧ has_nul_char name = false ∧
          (candidate ∉ doc_filename <$> doc_rows t → name = candidate) ∧
          (name = candidate ∨ ∃ j, name = numbered_name (path_stem base_name) j)
    | Throws e =>
        e = DataError ∧
        (candidate ∉ doc_filename <$> doc_rows t → has_nul_char candidate = true)
    end.
Proof.
  intros s Hs Ht. revert k candidate.
  induction fuel as [|fuel IH]; intros k candidate;
    rewrite (app_run_free_filename_round _ _ _ _ _ _ _ t) by done;
    destruct (has_nul_char candidate) eqn:Hnul;
    try (by eexists; split; [done|]);
    case_decide as Hin.
  - exists (Responds None). by repeat split.
  - exists (Responds (Some candidate)). split; [done|]. split; [done|].
    intros name [= <-]. split_and!; auto.
  - destruct (IH (S k) (numbered_name (path_stem base_name) (S k)))
      as (r & Hr & Hst).
    exists r. split; [done|]. destruct r as [stored|e].
    + destruct Hst as [_ Hst]. split; [done|]. intros name Hn.
      destruct (Hst name Hn) as (Hfree & Hnn & _ & [->|Hj]).
      * split_and!; [done..|]. right. by eexists.
      * split_and!; [done..|]. by right.
    + destruct Hst as [-> _]. by split.
  - exists (Responds (Some candidate)). split; [done|]. split; [done|].
    intros name [= <-]. split_and!; auto.
Qed.

(** With one round more than there are numbered names in use, the loop comes
    to its end. *)
Lemma free_filename_ends (fuel : nat) (base_name : string) (k : nat)
    (candidate : string) (m : nat) (a : app_state) (p : process) (srv : server)
    (t : documents_table) :
  let s := engine_session engine in
  is_Some (open_txn srv !! s) →
  documents (view srv s) = Some t →
  crowded (doc_filename <$> doc_rows t) (path_stem base_name) k m →
  (candidate ∉ doc_filename <$> doc_rows t) ∨ (m < fuel)%nat →
  (app_run (free_filename path_stem fuel s base_name k candidate) (a, (p, srv))).1
  ≠ Responds None.
Proof.
  intros s Hs Ht. revert k candidate m.
  induction fuel as [|fuel IH]; intros k candidate m Hc Hor;
    rewrite (app_run_free_filename_round _ _ _ _ _ _ _ t) by done;
    destruct (has_nul_char candidate); try done;
    case_decide as Hin; try done.
  - destruct Hor as [Hor|Hor]; [done|lia].
  - destruct Hor as [Hor|Hor]; [done|].
    destruct (decide (numbered_name (path_stem base_name) (S k)
                      ∈ doc_filename <$> doc_rows t)) as [Ht1|Ht1].
    + destruct (crowded_S_taken _ _ _ _ Hc Ht1) as [Hpos Hc'].
      apply (IH (S k) _ (pred m) Hc'). right; lia.
    + apply (IH (S k) _ m); [by apply crowded_S_free|by left].
Qed.


End free_names.

(** ** Uploads *)

Lemma commit_txn_insert (s : session) (c db : database)
    (m : gmap session (option database)) (locks : gmap Z session) :
  commit_txn s {| committed := c; open_txn := <[s := Some db]> m;
                  advisory_locks := locks |}
  = {| committed := db; open_txn := delete s m; advisory_locks := locks |}.
Proof.
  unfold commit_txn. cbn [open_txn committed advisory_locks].
  by rewrite lookup_insert_eq, delete_insert_eq.
Qed.

Lemma rollback_txn_insert (s : session) (c db : database)
    (m : gmap session (option database)) (locks : gmap Z session) :
  rollback_txn s {| committed := c; open_txn := <[s := Some db]> m;
                    advisory_locks := locks |}
  = {| committed := keep_sequences c db; open_txn := delete s m;
       advisory_locks := locks |}.
Proof.
  unfold rollback_txn. cbn [open_txn committed advisory_locks].
  by rewrite lookup_insert_eq, delete_insert_eq.
Qed.

Lemma delete_begin_txn (s : session) (srv : server) :
  open_txn srv !! s = None → delete s (open_txn (begin_txn s srv)) = open_txn srv.
Proof. intros Hs. cbn [begin_txn open_txn]. by rewrite delete_insert_id. Qed.

Lemma keep_sequences_rows (db : database) (t : documents_table)
    (rows : list document) :
  documents db = Some t →
  keep_sequences db
    (with_documents {| doc_rows := rows; documents_id_seq := documents_id_seq t |} db)
  = db.
Proof.
  intros Ht. unfold keep_sequences, with_documents. cbn [documents]. rewrite Ht.
  destruct db as [d an ix]. cbn in *. subst d. by destruct t.
Qed.

Section upload_transaction.

Context (engine : AsyncEngine) (path_stem : string → string).

(** The transaction of [upload_text] once its loop has ended, on a server
    that has the table. *)
Lemma app_run_upload_insert_body (fuel : nat) (safe_filename : string)
    (content : text) (a : app_state) (p : process) (srv : server)
    (t : documents_table) (r0 : answer (option string)) :
  unreachable a = 0%nat →
  open_txn srv !! engine_session engine = None →
  documents (committed srv) = Some t →
  let s := engine_session engine in
  let base_name := rsplit_slash_last safe_filename in
  let next_id := coalesce_max_id (doc_rows t) + 1 in
  app_run (free_filename path_stem fuel s base_name 0 base_name)
          (a, (p, begin_txn s srv)) = (r0, (a, (p, begin_txn s srv))) →
  (∀ name, r0 = Responds (Some name) →
     (name ∉ doc_filename <$> doc_rows t) ∧ has_nul_char name = false) →
  app_run (engine_begin_commit engine
             (upload_insert path_stem fuel safe_filename content)) (a, (p, srv))
  = match r0 with
    | Throws e => (Throws e, (a, (p, srv)))
    | Responds None => (Responds None, (a, (p, srv)))
    | Responds (Some name) =>
        if decide (¬ int4 next_id) then (Throws DataError, (a, (p, srv)))
        else if has_nul content then (Throws DataError, (a, (p, srv)))
        else if decide (next_id < seq_min (documents_id_seq t))
        then (Throws (Exn (DBAPIError NumericValueOutOfRange)), (a, (p, srv)))
        else (Responds (Some (next_id, name)),
              (a, (p, {| committed := with_upload next_id name content t
                                        (committed srv);
                         open_txn := open_txn srv;
                         advisory_locks := advisory_locks srv |})))
    end.
Proof.
  intros Hu Hs Ht s base_name next_id Hrun Hst. subst s.
  rewrite app_run_engine_begin_commit by done. cbn zeta.
  unfold upload_insert.
  rewrite app_run_bind, app_run_execute_query.
  rewrite server_query_reads by (done || by exists None; apply begin_txn_open).
  rewrite (server_query_in_txn _ _ _ _ (begin_txn_open (engine_session engine) srv)). cbn [fst].
  rewrite view_begin_txn. cbn [exec_query]. unfold on_documents. rewrite Ht.
  cbn [fst head default from_option Datatypes.id]. fold next_id base_name.
  rewrite app_run_bind, Hrun.
  destruct r0 as [[name|]|e].
  3:{ by rewrite rollback_begin_txn. }
  2:{ cbn [app_run]. by rewrite commit_begin_txn. }
  destruct (Hst name eq_refl) as (Hfree & Hnn).
  rewrite app_run_bind, app_run_execute_query.
  rewrite (server_query_in_txn _ _ _ _ (begin_txn_open (engine_session engine) srv)).
  cbn [fst snd query_writes]. rewrite view_begin_txn.
  cbn [exec_query]. unfold on_documents. rewrite Ht. unfold insert_document.
  destruct (decide (¬ int4 next_id)) as [Hrange|Hrange]; cbn [fst snd].
  { rewrite rollback_txn_insert, delete_begin_txn by done.
    cbn [begin_txn committed advisory_locks].
    rewrite with_documents_id, keep_sequences_same by done. by destruct srv. }
  rewrite Hnn. cbn [orb].
  destruct (has_nul content) eqn:Hnc; cbn [fst snd].
  { rewrite rollback_txn_insert, delete_begin_txn by done.
    cbn [begin_txn committed advisory_locks].
    rewrite with_documents_id, keep_sequences_same by done. by destruct srv. }
  rewrite decide_False.
  2:{ intros (r & Hid & Hr)%list_elem_of_fmap.
      pose proof (coalesce_max_id_ge _ _ Hr) as Hge. unfold next_id in Hid. lia. }
  rewrite decide_False by done. cbn [fst snd].
  rewrite app_run_bind, app_run_execute_query.
  match goal with |- context [server_query (engine_session engine) (Setval next_id) ?srv1] =>
    assert (Hs1 : open_txn srv1 !! (engine_session engine)
                  = Some (Some (with_documents
                                  {| doc_rows := doc_rows t ++ [Document next_id name content];
                                     documents_id_seq := documents_id_seq t |}
                                  (committed srv))))
      by (cbn [open_txn]; apply lookup_insert_eq);
    rewrite (server_query_in_txn _ _ _ _ Hs1);
    assert (Hv1 : view srv1 (engine_session engine)
                  = with_documents
                      {| doc_rows := doc_rows t ++ [Document next_id name content];
                         documents_id_seq := documents_id_seq t |}
                      (committed srv))
      by (unfold view; by rewrite Hs1);
    rewrite Hv1
  end.
  cbn [fst snd query_writes exec_query]. unfold on_documents.
  cbn [with_documents documents doc_rows documents_id_seq]. unfold setval.
  destruct (decide (next_id < seq_min (documents_id_seq t))); cbn [fst snd app_run raised].
  - rewrite rollback_txn_insert. cbn [open_txn]. rewrite delete_insert_eq.
    rewrite delete_begin_txn by done. cbn [begin_txn committed advisory_locks].
    pose proof (keep_sequences_rows (committed srv) t
                  (doc_rows t ++ [Document next_id name content]) Ht) as Hk.
    rewrite Hk. by destruct srv.
  - rewrite commit_txn_insert. cbn [open_txn]. rewrite delete_insert_eq.
    by rewrite delete_begin_txn.
Qed.

(** The transaction of [upload_text], on a server that has the table. *)
Lemma app_run_upload_insert (fuel : nat) (safe_filename : string)
    (content : text) (a : app_state) (p : process) (srv : server)
    (t : documents_table) :
  unreachable a = 0%nat →
  open_txn srv !! engine_session engine = None →
  documents (committed srv) = Some t →
  let names := doc_filename <$> doc_rows t in
  let base_name := rsplit_slash_last safe_filename in
  let next_id := coalesce_max_id (doc_rows t) + 1 in
  ∃ r srv',
    app_run (engine_begin_commit engine
               (upload_insert path_stem fuel safe_filename content)) (a, (p, srv))
      = (r, (a, (p, srv'))) ∧
    match r with
    | Responds (Some (id, name)) =>
        id = next_id ∧ (name ∉ names) ∧ (base_name ∉ names → name = base_name) ∧
        (name = base_name ∨ ∃ j, name = numbered_name (path_stem base_name) j) ∧
        has_nul_char name = false ∧ has_nul content = false ∧
        seq_min (documents_id_seq t) ≤ next_id ∧ int4 next_id ∧
        srv' = {| committed := with_upload next_id name content t (committed srv);
                  open_txn := open_txn srv;
                  advisory_locks := advisory_locks srv |}
    | Responds None =>
        srv' = srv ∧ (fuel ≤ length (doc_rows t))%nat ∧ base_name ∈ names
    | Throws e =>
        srv' = srv ∧
        (e = DataError ∨ e = Exn (DBAPIError NumericValueOutOfRange)) ∧
        (base_name ∈ names ∨ has_nul_char base_name = true ∨ has_nul content = true
         ∨ next_id < seq_min (documents_id_seq t) ∨ ¬ int4 next_id)
    end.
Proof.
  intros Hu Hs Ht names base_name next_id.
  assert (Hopen : is_Some (open_txn (begin_txn (engine_session engine) srv) !! (engine_session engine)))
    by (exists None; apply begin_txn_open).
  assert (Hview : documents (view (begin_txn (engine_session engine) srv) (engine_session engine)) = Some t)
    by (by rewrite view_begin_txn).
  destruct (app_run_free_filename engine path_stem fuel base_name 0 base_name
              a p (begin_txn (engine_session engine) srv) t Hopen Hview) as (r0 & Hrun & Hst).
  pose proof (free_filename_ends engine path_stem fuel base_name 0 base_name
                (length (doc_filename <$> doc_rows t)) a p
                (begin_txn (engine_session engine) srv) t
                Hopen Hview (crowded_length _ _ _)) as Hends.
  rewrite Hrun in Hends. cbn [fst] in Hends.
  rewrite (app_run_upload_insert_body fuel safe_filename content a p srv t r0
             Hu Hs Ht Hrun).
  2:{ intros name ->. destruct Hst as [_ Hst].
      destruct (Hst name eq_refl) as (Hfree & Hnn & _). done. }
  destruct r0 as [[name|]|e].
  - destruct Hst as [Hbn Hst].
    destruct (Hst name eq_refl) as (Hfree & Hnn & Hbase & Hform).
    destruct (decide (¬ int4 (coalesce_max_id (doc_rows t) + 1))) as [Hrange|Hrange].
    { eexists _, _. split; [done|]. split; [done|]. split; [by left|].
      by right; right; right; right. }
    destruct (has_nul content) eqn:Hnc.
    { eexists _, _. split; [done|]. split; [done|]. split; [by left|].
      by right; right; left. }
    destruct (decide (coalesce_max_id (doc_rows t) + 1
                      < seq_min (documents_id_seq t))).
    { eexists _, _. split; [done|]. split; [done|]. split; [by right|].
      by right; right; right; left. }
    eexists _, _. split; [done|]. split_and!; try done.
    + unfold next_id. lia.
    + unfold next_id. by destruct (decide (int4 (coalesce_max_id (doc_rows t) + 1))).
  - eexists _, _. split; [done|]. split; [done|].
    destruct (decide (base_name ∈ names)) as [Hin|Hin].
    + split; [|done]. apply Nat.nlt_ge. intros Hlt.
      apply Hends; [|done]. right. by rewrite length_fmap.
    + destruct Hends; [by left|done].
  - destruct Hst as [-> Hnul]. eexists _, _. split; [done|]. split; [done|].
    split; [by left|].
    destruct (decide (base_name ∈ names)); [by left|]. right; left. by apply Hnul.
Qed.

End upload_transaction.

(** ** The names of uploads end in [.txt] *)

Lemma string_app_assoc (s1 s2 s3 : string) :
  (s1 +:+ s2) +:+ s3 = s1 +:+ (s2 +:+ s3).
Proof.
  induction s1 as [|a s1 IH]; [done|].
  change (String a ((s1 +:+ s2) +:+ s3) = String a (s1 +:+ (s2 +:+ s3))).
  by f_equal.
Qed.

Lemma string_map_length (f : Ascii.ascii → Ascii.ascii) (s : string) :
  String.length (string_map f s) = String.length s.
Proof. induction s as [|a s IH]; [done|]. cbn. by rewrite IH. Qed.

Lemma substring_length_le (n m : nat) (s : string) :
  (String.length (String.substring n m s) ≤ m)%nat.
Proof.
  revert n m. induction s as [|a s IH]; intros [|n] [|m]; cbn; try lia.
  - specialize (IH 0%nat m). lia.
  - apply (IH n 0%nat).
  - apply (IH n (S m)).
Qed.

Lemma substring_0_all (s : string) (m : nat) :
  (String.length s ≤ m)%nat → String.substring 0 m s = s.
Proof.
  revert m. induction s as [|a s IH]; intros [|m] Hm; cbn in *; try done; try lia.
  f_equal. apply IH. lia.
Qed.

Lemma substring_split (s : string) (k m : nat) :
  (String.length s ≤ k + m)%nat →
  s = String.substring 0 k s +:+ String.substring k m s.
Proof.
  revert k. induction s as [|a s IH]; intros [|k] Hm.
  - by destruct m.
  - by destruct m.
  - change (String.substring 0 0 (String a s)) with EmptyString.
    by rewrite substring_0_all.
  - change (String a s
            = String a (String.substring 0 k s +:+ String.substring k m s)).
    f_equal. apply IH. cbn in Hm. lia.
Qed.

Lemma substring_app_length (s1 s2 : string) (m : nat) :
  String.substring (String.length s1) m (s1 +:+ s2) = String.substring 0 m s2.
Proof. induction s1 as [|a s1 IH]; [done|]. by cbn. Qed.

(** A name that ends in [.txt] up to the case is a prefix followed by four
    characters that [str.lower] takes to [.txt]. *)
Lemma lower_endswith_txt_inv (s : string) :
  lower_endswith_txt s = true →
  ∃ pre suf, s = pre +:+ suf ∧ string_map lower_ascii suf = ".txt".
Proof.
  unfold lower_endswith_txt, matches_txt.
  set (suf := String.substring (String.length s - 4) 4 s).
  intros [Hlen%bool_decide_eq_true Heq%String.eqb_eq]%andb_true_iff.
  rewrite string_map_length in Hlen.
  pose proof (substring_length_le (String.length s - 4) 4 s) as Hle. fold suf in Hle.
  exists (String.substring 0 (String.length s - 4) s), suf. split.
  - apply substring_split. lia.
  - rewrite string_map_length in Heq.
    replace (String.length suf - 4)%nat with 0%nat in Heq by lia.
    rewrite substring_0_all in Heq; [done|]. rewrite string_map_length. lia.
Qed.

Lemma lower_endswith_txt_app (pre suf : string) :
  string_map lower_ascii suf = ".txt" → lower_endswith_txt (pre +:+ suf) = true.
Proof.
  intros Hs. pose proof (f_equal String.length Hs) as Hl.
  rewrite string_map_length in Hl. cbn in Hl.
  unfold lower_endswith_txt. rewrite string_length_app, Hl.
  replace (String.length pre + 4 - 4)%nat with (String.length pre) by lia.
  rewrite substring_app_length, substring_0_all by lia. by rewrite Hs.
Qed.

Lemma lower_ascii_slash (a : Ascii.ascii) :
  lower_ascii a ≠ slash → Ascii.eqb a slash = false.
Proof. intros Hn. destruct (Ascii.eqb_spec a slash) as [->|]; [|done]. by destruct Hn. Qed.

Lemma lower_txt_no_slash (suf : string) :
  string_map lower_ascii suf = ".txt" → has_slash suf = false.
Proof.
  destruct suf as [|a1 [|a2 [|a3 [|a4 [|a5 suf]]]]]; try done.
  cbn [string_map has_slash]. intros [= H1 H2 H3 H4].
  rewrite !lower_ascii_slash; [done|by rewrite ?H1, ?H2, ?H3, ?H4..].
Qed.

Lemma has_slash_app (s1 s2 : string) :
  has_slash (s1 +:+ s2) = has_slash s1 || has_slash s2.
Proof.
  induction s1 as [|a s1 IH]; [done|].
  change (Ascii.eqb a slash || has_slash (s1 +:+ s2)
          = Ascii.eqb a slash || has_slash s1 || has_slash s2).
  by rewrite IH, orb_assoc.
Qed.

Lemma rsplit_slash_last_no_slash (s : string) :
  has_slash s = false → rsplit_slash_last s = s.
Proof.
  destruct s as [|a s]; [done|]. cbn.
  intros [Ha Hs]%orb_false_iff. by rewrite Hs, Ha.
Qed.

Lemma rsplit_slash_last_app (pre suf : string) :
  has_slash suf = false →
  rsplit_slash_last (pre +:+ suf) = rsplit_slash_last pre +:+ suf.
Proof.
  intros Hs. induction pre as [|a pre IH]; [by apply rsplit_slash_last_no_slash|].
  change (String a pre +:+ suf) with (String a (pre +:+ suf)).
  cbn [rsplit_slash_last]. rewrite has_slash_app, Hs, orb_false_r.
  destruct (has_slash pre); [done|]. by destruct (Ascii.eqb a slash).
Qed.

Lemma lower_endswith_txt_rsplit (s : string) :
  lower_endswith_txt s = true → lower_endswith_txt (rsplit_slash_last s) = true.
Proof.
  intros (pre & suf & -> & Hs)%lower_endswith_txt_inv.
  rewrite rsplit_slash_last_app by (by apply lower_txt_no_slash).
  by apply lower_endswith_txt_app.
Qed.

Lemma lower_endswith_txt_numbered (stem : string) (j : nat) :
  lower_endswith_txt (numbered_name stem j) = true.
Proof.
  unfold numbered_name. rewrite <- !string_app_assoc.
  by apply lower_endswith_txt_app.
Qed.

(** ** [upload_text] *)

Section upload_requests.

Context (engine : AsyncEngine) (path_stem : string → string).

(** The name is settled without a request: it ends in [.txt], or a name
    given without that ending is refused. *)
Lemma upload_safe_filename_cases (file_filename filename : option string) :
  (∃ safe, upload_safe_filename file_filename filename = Done safe ∧
           lower_endswith_txt safe = true) ∨
  (upload_safe_filename file_filename filename
     = Fail (HTTPException 400 "Provided filename must end with .txt") ∧
   ∃ f, filename = Some f ∧ f ≠ EmptyString ∧ lower_endswith_txt f = false).
Proof.
  assert (Horig : ∀ orig,
    lower_endswith_txt (if lower_endswith_txt orig then orig else orig +:+ ".txt")
    = true).
  { intros orig. destruct (lower_endswith_txt orig) eqn:Ho; [done|].
    by apply lower_endswith_txt_app. }
  unfold upload_safe_filename.
  destruct filename as [[|c f]|]; [left; eexists; split; [done|apply Horig]| |
                                   left; eexists; split; [done|apply Horig]].
  destruct (lower_endswith_txt (String c f)) eqn:Hf.
  - left. by eexists.
  - right. split; [done|]. by exists (String c f).
Qed.

Lemma app_run_upload_text (file_filename filename : option string)
    (file_read : exn + list byte) (fuel : nat) (aw : app_world)
    (safe : string) (content_bytes : list byte) (content : text) :
  upload_safe_filename file_filename filename = Done safe →
  file_read = inr content_bytes →
  utf8_decode (Byte.to_N <$> content_bytes) = Some content →
  app_run (upload_text engine path_stem file_filename file_read filename fuel) aw
  = app_run (engine_begin_commit engine
               (upload_insert path_stem fuel safe content)) aw.
Proof.
  intros Hsafe -> Hdec. unfold upload_text.
  rewrite app_run_bind, Hsafe. cbn [app_run].
  rewrite app_run_bind. unfold upload_content. by rewrite Hdec.
Qed.

(** An upload that is not turned down at once. *)
Lemma app_run_upload_text_inv (file_filename filename : option string)
    (file_read : exn + list byte) (fuel : nat) (aw : app_world) :
  (∃ safe content_bytes content,
     upload_safe_filename file_filename filename = Done safe ∧
     lower_endswith_txt safe = true ∧
     file_read = inr content_bytes ∧
     utf8_decode (Byte.to_N <$> content_bytes) = Some content) ∨
  (∃ status detail aw',
     app_run (upload_text engine path_stem file_filename file_read filename fuel) aw
     = (Throws (HTTPException status detail), aw') ∧ aw'.2 = aw.2).
Proof.
  destruct (upload_safe_filename_cases file_filename filename)
    as [(safe & Hsafe & Htxt)|(Hfail & _)].
  2:{ right. unfold upload_text. rewrite app_run_bind, Hfail. by eexists _, _, _. }
  destruct file_read as [e|content_bytes].
  { right. unfold upload_text. rewrite app_run_bind, Hsafe. cbn [app_run].
    rewrite app_run_bind. destruct aw as [a w].
    destruct e; cbn [upload_content]; try (by eexists _, _, _);
      rewrite app_run_bind, app_run_ask; cbn [serve fst snd app_run];
      by eexists _, _, _. }
  destruct (utf8_decode (Byte.to_N <$> content_bytes)) as [content|] eqn:Hdec.
  - left. by exists safe, content_bytes, content.
  - right. unfold upload_text. rewrite app_run_bind, Hsafe. cbn [app_run].
    rewrite app_run_bind. unfold upload_content. rewrite Hdec. by eexists _, _, _.
Qed.

(** Without the table the transaction of an upload fails on its first
    statement. *)
Lemma app_run_upload_insert_no_table (fuel : nat) (safe : string) (content : text)
    (a : app_state) (p : process) (srv : server) :
  unreachable a = 0%nat →
  open_txn srv !! engine_session engine = None →
  documents (committed srv) = None →
  app_run (engine_begin_commit engine (upload_insert path_stem fuel safe content))
          (a, (p, srv))
  = (Throws (Exn (DBAPIError UndefinedTable)), (a, (p, srv))).
Proof.
  intros Hu Hs Ht. rewrite app_run_engine_begin_commit by done. cbn zeta.
  unfold upload_insert.
  rewrite app_run_bind, app_run_execute_query.
  rewrite server_query_reads by (done || by exists None; apply begin_txn_open).
  rewrite (server_query_in_txn _ _ _ _ (begin_txn_open (engine_session engine) srv)).
  cbn [fst]. rewrite view_begin_txn. cbn [exec_query]. unfold on_documents.
  rewrite Ht. cbn [fst raised]. by rewrite rollback_begin_txn.
Qed.

Lemma app_run_engine_begin_commit_unreachable {A} (body : connection → coroutine A)
    (a : app_state) (w : world) (n : nat) :
  unreachable a = S n →
  app_run (engine_begin_commit engine body) (a, w) =
  (Throws (Exn OSError),
   ({| unreachable := n; slept := slept a; app_log := app_log a |}, w)).
Proof.
  intros Hu. unfold engine_begin_commit. rewrite app_run_bind, app_run_ask.
  cbn [serve fst snd]. by rewrite Hu.
Qed.

End upload_requests.

Section upload_answers.

Context (engine : AsyncEngine) (path_stem : string → string).

(** What an upload that answers with an identifier and a name has done. *)
Lemma upload_text_responds (file_filename filename : option string)
    (file_read : exn + list byte) (fuel : nat) (a : app_state) (p : process)
    (srv : server) (t : documents_table) (id : Z) (name : string)
    (aw' : app_world) :
  open_txn srv !! engine_session engine = None →
  documents (committed srv) = Some t →
  app_run (upload_text engine path_stem file_filename file_read filename fuel)
          (a, (p, srv)) = (Responds (Some (id, name)), aw') →
  ∃ safe content_bytes content,
    upload_safe_filename file_filename filename = Done safe ∧
    lower_endswith_txt safe = true ∧
    file_read = inr content_bytes ∧
    utf8_decode (Byte.to_N <$> content_bytes) = Some content ∧
    unreachable a = 0%nat ∧
    id = coalesce_max_id (doc_rows t) + 1 ∧
    (name ∉ doc_filename <$> doc_rows t) ∧
    (name = rsplit_slash_last safe
     ∨ ∃ j, name = numbered_name (path_stem (rsplit_slash_last safe)) j) ∧
    has_nul_char name = false ∧ has_nul content = false ∧
    seq_min (documents_id_seq t) ≤ id ∧ int4 id ∧
    aw' = (a, (p, {| committed := with_upload id name content t (committed srv);
                     open_txn := open_txn srv;
                     advisory_locks := advisory_locks srv |})).
Proof.
  intros Hs Ht Hrun.
  destruct (app_run_upload_text_inv engine path_stem file_filename filename
              file_read fuel (a, (p, srv)))
    as [(safe & content_bytes & content & Hsafe & Htxt & Hread & Hdec)
       |(status & detail & aw1 & Hthrows & _)];
    [|by rewrite Hthrows in Hrun].
  rewrite (app_run_upload_text engine path_stem _ _ _ _ _ safe content_bytes content)
    in Hrun by done.
  destruct (unreachable a) as [|n] eqn:Hu.
  2:{ by rewrite (app_run_engine_begin_commit_unreachable engine _ _ _ n) in Hrun. }
  destruct (app_run_upload_insert engine path_stem fuel safe content a p srv t
              Hu Hs Ht) as (r & srv' & Hrun' & Hr).
  rewrite Hrun' in Hrun. injection Hrun as -> <-.
  destruct Hr as (-> & Hfree & _ & Hform & Hnn & Hnc & Hseq & Hrange & ->).
  by exists safe, content_bytes, content.
Qed.

End upload_answers.

(** ** Decoding and encoding *)

Lemma elem_of_bytes_from (lo hi b : N) (n : nat) :
  (hi <? lo + N.of_nat n)%N = true → in_range lo hi b = true →
  b ∈ bytes_from lo n.
Proof.
  unfold in_range. intros Hn%N.ltb_lt [Hlo Hhi]%andb_true_iff.
  apply N.leb_le in Hlo, Hhi. unfold bytes_from.
  apply list_elem_of_fmap. exists (N.to_nat b). split; [by rewrite N2Nat.id|].
  apply elem_of_seq. lia.
Qed.

Lemma forallb_elem_of {A} (f : A → bool) (l : list A) (x : A) :
  forallb f l = true → x ∈ l → f x = true.
Proof.
  intros Hf Hx. rewrite forallb_forall in Hf. apply Hf. by apply list_elem_of_In.
Qed.

(** A property of the bytes of a range, checked byte by byte. *)
Lemma in_range_forallb (lo hi : N) (n : nat) (f : N → bool) (b : N) :
  (hi <? lo + N.of_nat n)%N = true →
  forallb f (bytes_from lo n) = true →
  in_range lo hi b = true → f b = true.
Proof.
  intros Hn Hall Hb. apply (forallb_elem_of _ _ _ Hall).
  by apply (elem_of_bytes_from lo hi).
Qed.

Lemma second_byte_ok_continuation (b0 b1 : N) :
  second_byte_ok b0 b1 = true → is_continuation b1 = true.
Proof.
  unfold second_byte_ok, is_continuation, in_range.
  repeat case_match; rewrite !andb_true_iff, !N.leb_le; lia.
Qed.

(** *** Six bits more *)

Lemma low_bits_lt (n b : N) : (low_bits n b < 2 ^ n)%N.
Proof.
  unfold low_bits. rewrite N.land_ones. apply N.mod_lt.
  by apply N.pow_nonzero.
Qed.

Lemma shiftr_push6 (h b : N) : N.shiftr (push6 h b) 6 = h.
Proof.
  unfold push6. rewrite N.shiftr_lor, N.shiftr_shiftl_l by done.
  change (6 - 6)%N with 0%N. rewrite N.shiftl_0_r.
  rewrite (N.shiftr_div_pow2 (low_bits 6 b)), N.div_small by apply low_bits_lt.
  apply N.lor_0_r.
Qed.

Lemma low_bits_push6 (h b : N) : low_bits 6 (push6 h b) = low_bits 6 b.
Proof.
  unfold push6, low_bits at 1 3. rewrite N.land_lor_distr_l.
  rewrite (N.land_ones (N.shiftl h 6)), N.shiftl_mul_pow2, N.Div0.mod_mul.
  rewrite N.lor_0_l. unfold low_bits.
  by rewrite <- N.land_assoc, N.land_diag.
Qed.

Lemma push6_bounds (h b : N) : (64 * h ≤ push6 h b < 64 * h + 64)%N.
Proof.
  pose proof (shiftr_push6 h b) as Hs. rewrite N.shiftr_div_pow2 in Hs.
  change (2 ^ 6)%N with 64%N in Hs.
  pose proof (N.Div0.div_mod (push6 h b) 64) as Hd.
  pose proof (N.mod_lt (push6 h b) 64 ltac:(done)) as Hm.
  rewrite Hs in Hd. clear Hs.
  set (m := (push6 h b mod 64)%N) in *. clearbody m.
  set (c := push6 h b) in *. clearbody c. lia.
Qed.

Lemma code_point2_push6 (b0 b1 : N) :
  code_point2 b0 b1 = push6 (low_bits 5 b0) b1.
Proof. done. Qed.

Lemma code_point3_push6 (b0 b1 b2 : N) :
  code_point3 b0 b1 b2 = push6 (push6 (low_bits 4 b0) b1) b2.
Proof.
  unfold code_point3, push6.
  rewrite N.shiftl_lor, N.shiftl_shiftl. change (6 + 6)%N with 12%N.
  by rewrite N.lor_assoc.
Qed.

Lemma code_point4_push6 (b0 b1 b2 b3 : N) :
  code_point4 b0 b1 b2 b3 = push6 (push6 (push6 (low_bits 3 b0) b1) b2) b3.
Proof.
  unfold code_point4, push6.
  rewrite !N.shiftl_lor, !N.shiftl_shiftl.
  change (6 + 6 + 6)%N with 18%N. change (6 + 6)%N with 12%N.
  by rewrite !N.lor_assoc.
Qed.

(** *** The bytes of a sequence, one by one *)

Lemma continuation_back (b : N) :
  is_continuation b = true → N.lor 0x80 (low_bits 6 b) = b.
Proof.
  intros Hb. apply N.eqb_eq.
  by apply (in_range_forallb 0x80 0xBF 64
              (λ b, N.lor 0x80 (low_bits 6 b) =? b)%N).
Qed.

Lemma lead2_back (b0 : N) :
  in_range 0xC2 0xDF b0 = true →
  N.lor 0xC0 (low_bits 5 b0) = b0 ∧ (2 ≤ low_bits 5 b0 ≤ 31)%N.
Proof.
  intros Hb.
  pose proof (in_range_forallb 0xC2 0xDF 30
                (λ b, (N.lor 0xC0 (low_bits 5 b) =? b)
                      && (2 <=? low_bits 5 b) && (low_bits 5 b <=? 31))%N
                b0 eq_refl eq_refl Hb) as H.
  cbn beta in H. apply andb_true_iff in H as [[H1 H2]%andb_true_iff H3].
  apply N.eqb_eq in H1. apply N.leb_le in H2, H3. done.
Qed.

Lemma lead3_back (b0 b1 : N) :
  in_range 0xE0 0xEF b0 = true → second_byte_ok b0 b1 = true →
  N.lor 0xE0 (low_bits 4 b0) = b0 ∧
  let h := push6 (low_bits 4 b0) b1 in
  (0x20 ≤ h ≤ 0x35F ∨ 0x380 ≤ h ≤ 0x3FF)%N.
Proof.
  intros Hb0 Hb1.
  pose proof (in_range_forallb 0xE0 0xEF 16
                (λ b0, forallb (λ b1,
                   implb (second_byte_ok b0 b1)
                     ((N.lor 0xE0 (low_bits 4 b0) =? b0)
                      && (let h := push6 (low_bits 4 b0) b1 in
                          ((0x20 <=? h) && (h <=? 0x35F))
                          || ((0x380 <=? h) && (h <=? 0x3FF)))))
                   (bytes_from 0x80 64))%N
                b0 eq_refl eq_refl Hb0) as H.
  cbn beta in H.
  pose proof (forallb_elem_of _ _ b1 H
                (elem_of_bytes_from 0x80 0xBF _ 64 eq_refl
                   (second_byte_ok_continuation _ _ Hb1))) as H'.
  cbn beta in H'. rewrite Hb1 in H'. cbn [implb] in H'.
  apply andb_true_iff in H' as [H1%N.eqb_eq H2]. split; [done|]. cbn zeta.
  apply orb_true_iff in H2 as [[H2 H3]%andb_true_iff|[H2 H3]%andb_true_iff];
    apply N.leb_le in H2, H3; [by left|by right].
Qed.

Lemma lead4_back (b0 b1 : N) :
  in_range 0xF0 0xF4 b0 = true → second_byte_ok b0 b1 = true →
  N.lor 0xF0 (low_bits 3 b0) = b0 ∧
  (0x10 ≤ push6 (low_bits 3 b0) b1 ≤ 0x10F)%N.
Proof.
  intros Hb0 Hb1.
  pose proof (in_range_forallb 0xF0 0xF4 5
                (λ b0, forallb (λ b1,
                   implb (second_byte_ok b0 b1)
                     ((N.lor 0xF0 (low_bits 3 b0) =? b0)
                      && (0x10 <=? push6 (low_bits 3 b0) b1)
                      && (push6 (low_bits 3 b0) b1 <=? 0x10F)))
                   (bytes_from 0x80 64))%N
                b0 eq_refl eq_refl Hb0) as H.
  cbn beta in H.
  pose proof (forallb_elem_of _ _ b1 H
                (elem_of_bytes_from 0x80 0xBF _ 64 eq_refl
                   (second_byte_ok_continuation _ _ Hb1))) as H'.
  cbn beta in H'. rewrite Hb1 in H'. cbn [implb] in H'.
  apply andb_true_iff in H' as [[H1%N.eqb_eq H2%N.leb_le]%andb_true_iff H3%N.leb_le].
  done.
Qed.

(** *** One sequence back to its bytes *)

Lemma one_byte_back (b : N) :
  (b <? 0x80)%N = true →
  is_scalar_value b = true ∧ encode_code_point b = [b].
Proof.
  intros Hb. unfold is_scalar_value, encode_code_point. rewrite Hb.
  apply N.ltb_lt in Hb.
  by rewrite (proj2 (N.ltb_lt b 0xD800)), (proj2 (N.leb_le b 0x10FFFF)) by lia.
Qed.

Lemma two_bytes_back (b0 b1 : N) :
  in_range 0xC2 0xDF b0 = true → is_continuation b1 = true →
  is_scalar_value (code_point2 b0 b1) = true ∧
  encode_code_point (code_point2 b0 b1) = [b0; b1].
Proof.
  intros [H0 Hx]%lead2_back H1%continuation_back.
  rewrite code_point2_push6.
  pose proof (push6_bounds (low_bits 5 b0) b1) as Hc.
  unfold is_scalar_value, encode_code_point.
  rewrite (proj2 (N.ltb_lt _ 0xD800)), (proj2 (N.leb_le _ 0x10FFFF)) by lia.
  rewrite (proj2 (N.ltb_ge _ 0x80)), (proj2 (N.ltb_lt _ 0x800)) by lia.
  by rewrite shiftr_push6, low_bits_push6, H0, H1.
Qed.

Lemma three_bytes_back (b0 b1 b2 : N) :
  in_range 0xE0 0xEF b0 = true →
  second_byte_ok b0 b1 && is_continuation b2 = true →
  is_scalar_value (code_point3 b0 b1 b2) = true ∧
  encode_code_point (code_point3 b0 b1 b2) = [b0; b1; b2].
Proof.
  intros Hb0 [Hb1 H2%continuation_back]%andb_true_iff.
  destruct (lead3_back b0 b1 Hb0 Hb1) as [H0 Hh]. cbn zeta in Hh.
  pose proof (continuation_back _ (second_byte_ok_continuation _ _ Hb1)) as H1.
  rewrite code_point3_push6.
  pose proof (push6_bounds (push6 (low_bits 4 b0) b1) b2) as Hc.
  unfold is_scalar_value, encode_code_point.
  rewrite (proj2 (N.leb_le _ 0x10FFFF)) by lia.
  rewrite (proj2 (N.ltb_ge _ 0x80)), (proj2 (N.ltb_ge _ 0x800)),
    (proj2 (N.ltb_lt _ 0x10000)) by lia.
  change 12%N with (6 + 6)%N. rewrite <- N.shiftr_shiftr.
  rewrite !shiftr_push6, !low_bits_push6, H0, H1, H2. split; [|done].
  rewrite andb_true_r. apply orb_true_iff.
  destruct Hh as [Hh|Hh]; [left; apply N.ltb_lt|right; apply N.ltb_lt]; lia.
Qed.

Lemma four_bytes_back (b0 b1 b2 b3 : N) :
  in_range 0xF0 0xF4 b0 = true →
  second_byte_ok b0 b1 && is_continuation b2 && is_continuation b3 = true →
  is_scalar_value (code_point4 b0 b1 b2 b3) = true ∧
  encode_code_point (code_point4 b0 b1 b2 b3) = [b0; b1; b2; b3].
Proof.
  intros Hb0 [[Hb1 H2%continuation_back]%andb_true_iff
                H3%continuation_back]%andb_true_iff.
  destruct (lead4_back b0 b1 Hb0 Hb1) as [H0 Hh].
  pose proof (continuation_back _ (second_byte_ok_continuation _ _ Hb1)) as H1.
  rewrite code_point4_push6.
  pose proof (push6_bounds (push6 (low_bits 3 b0) b1) b2) as Hc2.
  pose proof (push6_bounds (push6 (push6 (low_bits 3 b0) b1) b2) b3) as Hc3.
  unfold is_scalar_value, encode_code_point.
  rewrite (proj2 (N.leb_le _ 0x10FFFF)), (proj2 (N.ltb_lt 0xDFFF _)) by lia.
  rewrite (proj2 (N.ltb_ge _ 0x80)), (proj2 (N.ltb_ge _ 0x800)),
    (proj2 (N.ltb_ge _ 0x10000)) by lia.
  change 18%N with (6 + (6 + 6))%N. change 12%N with (6 + 6)%N.
  rewrite <- !N.shiftr_shiftr.
  rewrite !shiftr_push6, !low_bits_push6, H0, H1, H2, H3.
  by rewrite orb_true_r.
Qed.

(** *** Whole texts *)

Lemma utf8_encode_cons (c : N) (bs rest : list N) (cs : text) :
  is_scalar_value c = true ∧ encode_code_point c = bs →
  utf8_encode cs = Some rest →
  utf8_encode (c :: cs) = Some (bs ++ rest).
Proof.
  intros [Hs Hb] Hr. cbn [utf8_encode]. rewrite Hs, Hr. cbn. by rewrite Hb.
Qed.

Lemma utf8_decode_cons (b0 : N) (t0 : list N) :
  utf8_decode (b0 :: t0) =
  if (b0 <? 0x80)%N then cons b0 <$> utf8_decode t0
  else if in_range 0xC2 0xDF b0 then
    match t0 with
    | b1 :: t1 =>
        if is_continuation b1
        then cons (code_point2 b0 b1) <$> utf8_decode t1
        else None
    | _ => None
    end
  else if in_range 0xE0 0xEF b0 then
    match t0 with
    | b1 :: b2 :: t2 =>
        if second_byte_ok b0 b1 && is_continuation b2
        then cons (code_point3 b0 b1 b2) <$> utf8_decode t2
        else None
    | _ => None
    end
  else if in_range 0xF0 0xF4 b0 then
    match t0 with
    | b1 :: b2 :: b3 :: t3 =>
        if second_byte_ok b0 b1 && is_continuation b2 && is_continuation b3
        then cons (code_point4 b0 b1 b2 b3) <$> utf8_decode t3
        else None
    | _ => None
    end
  else None.
Proof. done. Qed.

(** What decodes encodes back to the same bytes. *)
Lemma utf8_decode_encode (bs : list N) (cs : text) :
  utf8_decode bs = Some cs → utf8_encode cs = Some bs.
Proof.
  remember (length bs) as n eqn:Hn. revert bs cs Hn.
  induction n as [n IH] using lt_wf_ind. intros bs cs Hn Hd.
  destruct bs as [|b0 t0]; [by injection Hd as <-|].
  rewrite utf8_decode_cons in Hd. cbn [length] in Hn.
  destruct (b0 <? 0x80)%N eqn:H1.
  { destruct (utf8_decode t0) as [cs0|] eqn:Hd0; [|done]. injection Hd as <-.
    apply (utf8_encode_cons b0 [b0]); [by apply one_byte_back|].
    apply (IH (length t0)); [lia|done|done]. }
  destruct (in_range 0xC2 0xDF b0) eqn:H2.
  { destruct t0 as [|b1 t1]; [done|].
    destruct (is_continuation b1) eqn:Hc1; [|done].
    destruct (utf8_decode t1) as [cs0|] eqn:Hd0; [|done]. injection Hd as <-.
    apply (utf8_encode_cons _ [b0; b1]); [by apply two_bytes_back|].
    apply (IH (length t1)); [cbn [length] in Hn; lia|done|done]. }
  destruct (in_range 0xE0 0xEF b0) eqn:H3.
  { destruct t0 as [|b1 [|b2 t2]]; [done..|].
    destruct (second_byte_ok b0 b1 && is_continuation b2) eqn:Hc; [|done].
    destruct (utf8_decode t2) as [cs0|] eqn:Hd0; [|done]. injection Hd as <-.
    apply (utf8_encode_cons _ [b0; b1; b2]); [by apply three_bytes_back|].
    apply (IH (length t2)); [cbn [length] in Hn; lia|done|done]. }
  destruct (in_range 0xF0 0xF4 b0) eqn:H4; [|done].
  destruct t0 as [|b1 [|b2 [|b3 t3]]]; [done..|].
  destruct (second_byte_ok b0 b1 && is_continuation b2 && is_continuation b3) eqn:Hc;
    [|done].
  destruct (utf8_decode t3) as [cs0|] eqn:Hd0; [|done]. injection Hd as <-.
  apply (utf8_encode_cons _ [b0; b1; b2; b3]); [by apply four_bytes_back|].
  apply (IH (length t3)); [cbn [length] in Hn; lia|done|done].
Qed.

(** ** Texts that can be encoded *)

Lemma utf8_encode_Some (cs : text) :
  is_Some (utf8_encode cs) ↔ Forall (λ c, is_scalar_value c = true) cs.
Proof.
  induction cs as [|c cs IH]; [by split; [constructor|eexists]|].
  cbn [utf8_encode]. rewrite Forall_cons, <- IH.
  destruct (is_scalar_value c); [|by split; [intros []|intros []]].
  rewrite fmap_is_Some. tauto.
Qed.

Lemma utf8_encode_ascii (cs : text) (bs : list N) (c : N) :
  utf8_encode cs = Some bs → (c < 0x80)%N → c ∈ cs → c ∈ bs.
Proof.
  revert bs. induction cs as [|c0 cs IH]; intros bs Henc Hc Hin;
    [by apply elem_of_nil in Hin|].
  cbn [utf8_encode] in Henc. destruct (is_scalar_value c0); [|done].
  destruct (utf8_encode cs) as [rest|]; [|done]. injection Henc as <-.
  apply elem_of_app. apply elem_of_cons in Hin as [->|Hin].
  - left. unfold encode_code_point. rewrite (proj2 (N.ltb_lt c0 0x80)) by done.
    by left.
  - right. by apply IH.
Qed.

Lemma universal_newlines_cons (c : N) (rest : text) :
  c ≠ 13%N → universal_newlines (c :: rest) = c :: universal_newlines rest.
Proof.
  intros Hc. destruct c as [|p]; [done|].
  do 4 (try destruct p as [p|p|]); try done.
Qed.

Lemma universal_newlines_id (cs : text) :
  13%N ∉ cs → universal_newlines cs = cs.
Proof.
  induction cs as [|c cs IH]; [done|]. rewrite not_elem_of_cons. intros [Hc Hn].
  rewrite universal_newlines_cons by done. by rewrite IH.
Qed.

Lemma universal_newlines_scalar (cs : text) :
  Forall (λ c, is_scalar_value c = true) cs →
  Forall (λ c, is_scalar_value c = true) (universal_newlines cs).
Proof.
  assert (H : ∀ n cs, (length cs ≤ n)%nat →
    Forall (λ c, is_scalar_value c = true) cs →
    Forall (λ c, is_scalar_value c = true) (universal_newlines cs)).
  { intros n. induction n as [|n IH]; intros [|c rest] Hlen Hall; cbn in Hlen;
      try done; try lia.
    apply Forall_cons in Hall as [Hc Hrest].
    destruct (decide (c = 13%N)) as [->|Hne].
    - destruct rest as [|c1 rest1].
      + by repeat constructor.
      + destruct (decide (c1 = 10%N)) as [->|Hne1].
        * change (universal_newlines (13 :: 10 :: rest1)%N)
            with (10%N :: universal_newlines rest1).
          constructor; [done|]. apply Forall_cons in Hrest as [_ Hrest1].
          apply IH; [cbn in Hlen; lia|done].
        * assert (Heq : universal_newlines (13 :: c1 :: rest1)%N
                        = 10%N :: universal_newlines (c1 :: rest1)).
          { destruct c1 as [|p]; [done|].
            do 4 (try destruct p as [p|p|]); try done. }
          rewrite Heq. constructor; [done|]. apply IH; [lia|done].
    - rewrite universal_newlines_cons by done. constructor; [done|].
      apply IH; [lia|done]. }
  intros Hall. by apply (H (length cs)).
Qed.

(** ** What an upload does *)

Lemma filter_new_row (rows : list document) (id : Z) (name : string)
    (content : text) :
  (id ∉ doc_id <$> rows) →
  filter (λ r, doc_id r = id) (rows ++ [Document id name content])
  = [Document id name content].
Proof.
  intros Hn. rewrite filter_app, filter_absent_id by done.
  by rewrite filter_cons_True.
Qed.

Lemma filter_all {A} (P : A → Prop) `{!∀ x, Decision (P x)} (l : list A) :
  (∀ x, x ∈ l → P x) → filter P l = l.
Proof.
  induction l as [|x l IH]; [done|]. intros Hall.
  rewrite filter_cons_True by (apply Hall; left).
  f_equal. apply IH. intros y Hy. apply Hall. by right.
Qed.

Lemma next_id_is_new (rows : list document) :
  coalesce_max_id rows + 1 ∉ doc_id <$> rows.
Proof.
  intros (r & Hid & Hr)%list_elem_of_fmap.
  pose proof (coalesce_max_id_ge _ _ Hr). lia.
Qed.

Lemma app_run_download_text (engine : AsyncEngine) (id : Z) (a : app_state)
    (p : process) (srv : server) :
  unreachable a = 0%nat →
  open_txn srv !! engine_session engine = None →
  app_run (download_text engine id) (a, (p, srv)) =
  (match documents (committed srv) with
   | None => Throws (Exn (DBAPIError UndefinedTable))
   | Some t =>
       match head (filter (λ r, doc_id r = id) (doc_rows t)) with
       | None => Throws (HTTPException 404 "Document not found.")
       | Some r =>
           match utf8_encode (doc_content r) with
           | None => Throws UnicodeEncodeError
           | Some data =>
               if latin1_encodable (doc_filename r) then
                 Responds ([("Content-Disposition",
                             "attachment; filename=" +:+ double_quote
                             +:+ doc_filename r +:+ double_quote);
                            ("Content-Type", "text/plain; charset=utf-8")], data)
               else Throws UnicodeEncodeError
           end
       end
   end, (a, (p, srv))).
Proof.
  intros Hu Hs. unfold download_text. rewrite app_run_bind.
  rewrite (app_run_read engine (SelectFilenameContentById id) head) by done.
  cbn [exec_query]. unfold on_documents.
  destruct (documents (committed srv)) as [t|]; cbn [fst raised]; [|done].
  destruct (filter (λ r, doc_id r = id) (doc_rows t)) as [|r l];
    cbn [fmap list_fmap head]; [done|].
  destruct (utf8_encode (doc_content r)); [|done].
  by destruct (latin1_encodable (doc_filename r)).
Qed.

(** X15.  [upload_text] turns down, with status 400 and before it has asked
    for a connection, a given file name that does not end in [.txt] and a
    file that is not UTF-8; a [read] that fails is logged and answered with
    500.  Nothing is written. *)
Theorem upload_text_rejects_bad_uploads (engine : AsyncEngine)
    (path_stem : string → string) (file_filename filename : option string)
    (file_read : exn + list byte) (fuel : nat) (a : app_state) (w : world) :
  let answer :=
    app_run (upload_text engine path_stem file_filename file_read filename fuel)
            (a, w) in
  (∀ f, filename = Some f → f ≠ EmptyString → lower_endswith_txt f = false →
     answer = (Throws (HTTPException 400 "Provided filename must end with .txt"),
               (a, w))) ∧
  ((∀ f, filename = Some f → f = EmptyString ∨ lower_endswith_txt f = true) →
     (∀ content_bytes,
        file_read = inr content_bytes →
        utf8_decode (Byte.to_N <$> content_bytes) = None →
        answer = (Throws (HTTPException 400 "Uploaded file must be UTF-8 encoded .txt"),
                  (a, w))) ∧
     (file_read = inl UnicodeDecodeError →
        answer = (Throws (HTTPException 400 "Uploaded file must be UTF-8 encoded .txt"),
                  (a, w))) ∧
     (∀ e, file_read = inl e → e ≠ UnicodeDecodeError →
        answer = (Throws (HTTPException 500 "Failed to read uploaded file."),
                  ({| unreachable := unreachable a; slept := slept a;
                      app_log := app_log a ++ [ExceptionReadingUpload] |}, w)))).
Proof.
  intros answer. split.
  - intros f -> Hne Hf. destruct f as [|c f]; [done|].
    unfold answer, upload_text, upload_safe_filename.
    by rewrite app_run_bind, Hf.
  - intros Hname.
    destruct (upload_safe_filename_cases file_filename filename)
      as [(safe & Hsafe & _)|(_ & f & -> & Hne & Hf)].
    2:{ destruct (Hname f eq_refl) as [?|Ht]; [done|]. by rewrite Ht in Hf. }
    unfold answer, upload_text. rewrite app_run_bind, Hsafe. cbn [app_run].
    rewrite app_run_bind. split_and!.
    + intros content_bytes -> Hdec. unfold upload_content. by rewrite Hdec.
    + by intros ->.
    + intros e -> He. destruct e; try done; cbn [upload_content];
        by rewrite app_run_bind, app_run_ask.
Qed.

(** X16.  An upload that answers with an identifier and a name has stored
    one new document and nothing else: the identifier is the largest one plus
    one and is in the range of the column, the name was not in use and ends
    in [.txt], the text is the file decoded; the rows that were there are
    unchanged and come first, and the sequence has been set to the new
    identifier, so that, unless this is the last value of the sequence, the
    next value it hands out is the identifier plus one. *)
Theorem upload_text_stores_the_upload (engine : AsyncEngine)
    (path_stem : string → string) (file_filename filename : option string)
    (file_read : exn + list byte) (fuel : nat) (a : app_state) (p : process)
    (srv : server) (t : documents_table) (id : Z) (name : string)
    (aw' : app_world) :
  open_txn srv !! engine_session engine = None →
  documents (committed srv) = Some t →
  app_run (upload_text engine path_stem file_filename file_read filename fuel)
          (a, (p, srv)) = (Responds (Some (id, name)), aw') →
  ∃ content_bytes content t',
    file_read = inr content_bytes ∧
    utf8_decode (Byte.to_N <$> content_bytes) = Some content ∧
    id = coalesce_max_id (doc_rows t) + 1 ∧
    (∀ r, r ∈ doc_rows t → doc_id r < id ∧ doc_filename r ≠ name) ∧
    lower_endswith_txt name = true ∧
    aw'.1 = a ∧ aw'.2.1 = p ∧
    documents (committed aw'.2.2) = Some t' ∧
    doc_rows t' = doc_rows t ++ [Document id name content] ∧
    int4 id ∧
    documents_id_seq t'
      = {| seq_min := seq_min (documents_id_seq t);
           last_value := id; is_called := true |} ∧
    (id < int4_max → (nextval (documents_id_seq t')).1 = id + 1) ∧
    analyses (committed aw'.2.2) = analyses (committed srv) ∧
    idx_analyses_document_id (committed aw'.2.2)
      = idx_analyses_document_id (committed srv) ∧
    open_txn aw'.2.2 = open_txn srv ∧
    advisory_locks aw'.2.2 = advisory_locks srv.
Proof.
  intros Hs Ht Hrun.
  destruct (upload_text_responds engine path_stem _ _ _ _ _ _ _ _ _ _ _ Hs Ht Hrun)
    as (safe & content_bytes & content & Hsafe & Htxt & Hread & Hdec & Hu & Hid
        & Hfree & Hform & Hnn & Hnc & Hseq & Hrange & ->).
  exists content_bytes, content. eexists. split_and!; try done.
  - intros r Hr. split.
    + pose proof (coalesce_max_id_ge _ _ Hr). lia.
    + intros <-. apply Hfree. by apply list_elem_of_fmap_2.
  - destruct Hform as [->|[j ->]].
    + by apply lower_endswith_txt_rsplit.
    + apply lower_endswith_txt_numbered.
Qed.

Lemma upload_text_stores_the_upload_witness :
  ∃ (aw' : app_world) content t',
    documents (committed aw'.2.2) = Some t' ∧
    doc_rows t' = doc_rows seeded_table ++ [Document 2 "a_1.txt" content].
Proof.
  edestruct (upload_text_stores_the_upload sample_engine stem_of_txt
               (Some "a.txt") None (inr [x68; x69]) 1 ready_app
               (process_with Missing) seeded_server seeded_table 2 "a_1.txt")
    as (content_bytes & content & t' & _ & _ & _ & _ & _ & _ & _ & Ht' & Hrows & _).
  - reflexivity.
  - reflexivity.
  - vm_compute. reflexivity.
  - eexists _, content, t'. exact (conj Ht' Hrows).
Defined.



(** X18.  The loop of [upload_text] that looks for a free name comes to its
    end: with more rounds than there are documents, the upload is answered
    or raises. *)
Theorem upload_text_loop_ends (engine : AsyncEngine)
    (path_stem : string → string) (file_filename filename : option string)
    (file_read : exn + list byte) (fuel : nat) (a : app_state) (p : process)
    (srv : server) :
  open_txn srv !! engine_session engine = None →
  (∀ t, documents (committed srv) = Some t → (length (doc_rows t) < fuel)%nat) →
  (app_run (upload_text engine path_stem file_filename file_read filename fuel)
           (a, (p, srv))).1 ≠ Responds None.
Proof.
  intros Hs Hfuel.
  destruct (app_run_upload_text_inv engine path_stem file_filename filename
              file_read fuel (a, (p, srv)))
    as [(safe & content_bytes & content & Hsafe & Htxt & Hread & Hdec)
       |(status & detail & aw1 & -> & _)]; [|done].
  rewrite (app_run_upload_text engine path_stem _ _ _ _ _ safe content_bytes content)
    by done.
  destruct (unreachable a) as [|n] eqn:Hu.
  2:{ by rewrite (app_run_engine_begin_commit_unreachable engine _ _ _ n). }
  destruct (documents (committed srv)) as [t|] eqn:Ht.
  2:{ by rewrite app_run_upload_insert_no_table. }
  destruct (app_run_upload_insert engine path_stem fuel safe content a p srv t
              Hu Hs Ht) as (r & srv' & -> & Hr).
  cbn [fst]. intros ->. destruct Hr as (_ & Hle & _).
  specialize (Hfuel t eq_refl). lia.
Qed.

Lemma upload_text_loop_ends_witness :
  (app_run (upload_text sample_engine stem_of_txt (Some "a.txt")
              (inr [x68; x69]) None 2)
           (ready_app, (process_with Missing, seeded_server))).1
  ≠ Responds None.
Proof.
  apply (upload_text_loop_ends sample_engine stem_of_txt (Some "a.txt") None
           (inr [x68; x69]) 2 ready_app (process_with Missing) seeded_server).
  - reflexivity.
  - intros t [= <-]. cbn. lia.
Defined.

(** X19.  An upload that does not answer with an identifier has written
    nothing: whatever it raised, the server is as it was before. *)
Theorem failed_upload_changes_nothing (engine : AsyncEngine)
    (path_stem : string → string) (file_filename filename : option string)
    (file_read : exn + list byte) (fuel : nat) (a : app_state) (p : process)
    (srv : server) :
  open_txn srv !! engine_session engine = None →
  let answer :=
    app_run (upload_text engine path_stem file_filename file_read filename fuel)
            (a, (p, srv)) in
  (∀ stored, answer.1 ≠ Responds (Some stored)) →
  answer.2.2 = (p, srv).
Proof.
  intros Hs answer Hfail. unfold answer in *. clear answer.
  destruct (app_run_upload_text_inv engine path_stem file_filename filename
              file_read fuel (a, (p, srv)))
    as [(safe & content_bytes & content & Hsafe & Htxt & Hread & Hdec)
       |(status & detail & aw1 & -> & Hw)]; [|done].
  rewrite (app_run_upload_text engine path_stem _ _ _ _ _ safe content_bytes content)
    in * by done.
  destruct (unreachable a) as [|n] eqn:Hu.
  2:{ by rewrite (app_run_engine_begin_commit_unreachable engine _ _ _ n). }
  destruct (documents (committed srv)) as [t|] eqn:Ht.
  2:{ by rewrite app_run_upload_insert_no_table. }
  destruct (app_run_upload_insert engine path_stem fuel safe content a p srv t
              Hu Hs Ht) as (r & srv' & Hrun & Hr).
  rewrite Hrun in *. cbn [fst snd] in *.
  destruct r as [[[id name]|]|e].
  - by destruct (Hfail (id, name)).
  - by destruct Hr as (-> & _).
  - by destruct Hr as (-> & _).
Qed.

Lemma failed_upload_changes_nothing_witness :
  (app_run (upload_text sample_engine stem_of_txt (Some "a.txt")
              (inr [x68; x69]) None 2)
           (ready_app, (process_with Missing, fresh_server))).2.2
  = (process_with Missing, fresh_server).
Proof.
  apply (failed_upload_changes_nothing sample_engine stem_of_txt (Some "a.txt")
           None (inr [x68; x69]) 2 ready_app (process_with Missing) fresh_server).
  - reflexivity.
  - intros stored. vm_compute. discriminate.
Defined.

(** X20.  What was uploaded is what [view_text] shows: after an upload that
    answered with an identifier and a name, [view_text] of that identifier
    answers with the identifier, the name and the decoded text of the file,
    and changes nothing. *)
Theorem uploaded_document_is_served (engine : AsyncEngine)
    (path_stem : string → string) (file_filename filename : option string)
    (file_read : exn + list byte) (fuel : nat) (a : app_state) (p : process)
    (srv : server) (t : documents_table) (id : Z) (name : string)
    (aw' : app_world) :
  open_txn srv !! engine_session engine = None →
  documents (committed srv) = Some t →
  app_run (upload_text engine path_stem file_filename file_read filename fuel)
          (a, (p, srv)) = (Responds (Some (id, name)), aw') →
  ∃ content_bytes content,
    file_read = inr content_bytes ∧
    utf8_decode (Byte.to_N <$> content_bytes) = Some content ∧
    app_run (view_text engine id) aw' = (Responds (id, name, content), aw').
Proof.
  intros Hs Ht Hrun.
  destruct (upload_text_responds engine path_stem _ _ _ _ _ _ _ _ _ _ _ Hs Ht Hrun)
    as (safe & content_bytes & content & Hsafe & Htxt & Hread & Hdec & Hu & Hid
        & Hfree & Hform & Hnn & Hnc & Hseq & Hrange & ->).
  exists content_bytes, content. split; [done|]. split; [done|].
  unfold view_text, fetch_document. rewrite app_run_bind, app_run_try_except.
  rewrite (app_run_read engine (SelectDocumentById id) head) by done.
  cbn [exec_query committed]. unfold on_documents, with_upload.
  cbn [with_documents documents doc_rows fst].
  rewrite filter_new_row by (rewrite Hid; apply next_id_is_new).
  done.
Qed.

Lemma uploaded_document_is_served_witness :
  ∃ (aw' : app_world) content,
    app_run (view_text sample_engine 2) aw' = (Responds (2, "b.txt", content), aw').
Proof.
  edestruct (uploaded_document_is_served sample_engine stem_of_txt
               (Some "b.txt") None (inr [x68; x69]) 1 ready_app
               (process_with Missing) seeded_server seeded_table 2 "b.txt")
    as (content_bytes & content & _ & _ & Hview).
  - reflexivity.
  - reflexivity.
  - vm_compute. reflexivity.
  - eexists _, content. exact Hview.
Defined.

(** X21.  What was uploaded is what [download_text] returns, when the name
    can go into a header: after an upload that answered with an identifier
    and a name, the download of that identifier has the bytes of the uploaded
    file as its body and the name in its [Content-Disposition] header if
    every character of the name is in latin-1; if not, the download raises
    [UnicodeEncodeError].  In both cases it changes nothing. *)
Theorem download_returns_uploaded_bytes (engine : AsyncEngine)
    (path_stem : string → string) (file_filename filename : option string)
    (file_read : exn + list byte) (fuel : nat) (a : app_state) (p : process)
    (srv : server) (t : documents_table) (id : Z) (name : string)
    (aw' : app_world) :
  open_txn srv !! engine_session engine = None →
  documents (committed srv) = Some t →
  app_run (upload_text engine path_stem file_filename file_read filename fuel)
          (a, (p, srv)) = (Responds (Some (id, name)), aw') →
  ∃ content_bytes,
    file_read = inr content_bytes ∧
    app_run (download_text engine id) aw'
    = (if latin1_encodable name
       then Responds ([("Content-Disposition",
                        "attachment; filename=" +:+ double_quote +:+ name
                        +:+ double_quote);
                       ("Content-Type", "text/plain; charset=utf-8")],
                      Byte.to_N <$> content_bytes)
       else Throws UnicodeEncodeError, aw').
Proof.
  intros Hs Ht Hrun.
  destruct (upload_text_responds engine path_stem _ _ _ _ _ _ _ _ _ _ _ Hs Ht Hrun)
    as (safe & content_bytes & content & Hsafe & Htxt & Hread & Hdec & Hu & Hid
        & Hfree & Hform & Hnn & Hnc & Hseq & Hrange & ->).
  exists content_bytes. split; [done|].
  rewrite app_run_download_text by done.
  cbn [committed]. unfold with_upload. cbn [with_documents documents doc_rows].
  rewrite filter_new_row by (rewrite Hid; apply next_id_is_new).
  cbn [head doc_content doc_filename].
  by rewrite (utf8_decode_encode _ _ Hdec).
Qed.

Lemma download_returns_uploaded_bytes_witness :
  ∃ (aw' : app_world) headers content_bytes,
    app_run (download_text sample_engine 2) aw'
    = (Responds (headers, Byte.to_N <$> content_bytes), aw').
Proof.
  edestruct (download_returns_uploaded_bytes sample_engine stem_of_txt
               (Some "b.txt") None (inr [xc3; xa9]) 1 ready_app
               (process_with Missing) seeded_server seeded_table 2 "b.txt")
    as (content_bytes & _ & Hdown).
  - reflexivity.
  - reflexivity.
  - vm_compute. reflexivity.
  - eexists _, _, content_bytes. exact Hdown.
Defined.

(** X22.  [delete_text] undoes an upload for the rows: after an upload that
    answered with an identifier, deleting that identifier leaves the rows of
    [documents] that were there before the upload; the sequence is not set
    back: it stays where the upload has set it, at the deleted identifier. *)
Theorem delete_text_undoes_upload (engine : AsyncEngine)
    (path_stem : string → string) (file_filename filename : option string)
    (file_read : exn + list byte) (fuel : nat) (a : app_state) (p : process)
    (srv : server) (t : documents_table) (id : Z) (name : string)
    (aw' : app_world) :
  open_txn srv !! engine_session engine = None →
  documents (committed srv) = Some t →
  app_run (upload_text engine path_stem file_filename file_read filename fuel)
          (a, (p, srv)) = (Responds (Some (id, name)), aw') →
  ∃ msg t',
    (app_run (delete_text engine id) aw').1 = Responds msg ∧
    documents (committed (app_run (delete_text engine id) aw').2.2.2) = Some t' ∧
    doc_rows t' = doc_rows t ∧
    documents_id_seq t'
      = {| seq_min := seq_min (documents_id_seq t);
           last_value := id; is_called := true |}.
Proof.
  intros Hs Ht Hrun.
  destruct (upload_text_responds engine path_stem _ _ _ _ _ _ _ _ _ _ _ Hs Ht Hrun)
    as (safe & content_bytes & content & Hsafe & Htxt & Hread & Hdec & Hu & Hid
        & Hfree & Hform & Hnn & Hnc & Hseq & Hrange & ->).
  erewrite app_run_delete_text; [|done|done|done].
  unfold with_upload. cbn [doc_rows].
  rewrite filter_new_row by (rewrite Hid; apply next_id_is_new).
  cbn [head fst snd committed without_document with_documents documents
       fmap option_fmap option_map doc_rows].
  eexists _, _. split; [done|]. split; [done|]. cbn [doc_rows documents_id_seq].
  split; [|done].
  rewrite filter_app, filter_cons_False, app_nil_r by (cbn; auto).
  apply filter_all. intros r Hr Heq.
  apply (next_id_is_new (doc_rows t)). rewrite <- Hid, <- Heq.
  by apply list_elem_of_fmap_2.
Qed.

Lemma delete_text_undoes_upload_witness :
  ∃ (aw' : app_world) t',
    documents (committed (app_run (delete_text sample_engine 2) aw').2.2.2) = Some t' ∧
    doc_rows t' = doc_rows seeded_table.
Proof.
  edestruct (delete_text_undoes_upload sample_engine stem_of_txt
               (Some "b.txt") None (inr [x68; x69]) 1 ready_app
               (process_with Missing) seeded_server seeded_table 2 "b.txt")
    as (msg & t' & _ & Ht' & Hrows & _).
  - reflexivity.
  - reflexivity.
  - vm_compute. reflexivity.
  - eexists _, t'. exact (conj Ht' Hrows).
Defined.

(** ** The codecs and the downloads *)

(** X23.  The two codecs agree: whatever the strict decoder accepts, the
    encoder takes back to the same bytes, and no code point the decoder
    yields is a surrogate or lies above 10FFFF. *)
Theorem decoded_text_encodes_back (bs : list N) (cs : text) :
  utf8_decode bs = Some cs →
  utf8_encode cs = Some bs ∧ Forall (λ c, is_scalar_value c = true) cs.
Proof.
  intros Hd%utf8_decode_encode. split; [done|].
  apply utf8_encode_Some. by eexists.
Qed.

Lemma decoded_text_encodes_back_witness :
  utf8_encode [233%N] = Some [195%N; 169%N].
Proof.
  apply (proj1 (decoded_text_encodes_back [195%N; 169%N] [233%N] eq_refl)).
Defined.

(** X24.  The text the loader reads from a corpus file can always be
    encoded for a download, and it encodes to the bytes of the file when the
    file has no carriage return (text mode replaces CR LF and CR by LF). *)
Theorem corpus_text_encodes (data : list byte) (cs : text) :
  read_text (Some (RegularFile data)) = inr cs →
  ∃ bs, utf8_encode cs = Some bs ∧
        (13%N ∉ Byte.to_N <$> data → bs = Byte.to_N <$> data).
Proof.
  unfold read_text.
  destruct (utf8_decode (Byte.to_N <$> data)) as [cs0|] eqn:Hd; [|done].
  intros [= <-]. pose proof (utf8_decode_encode _ _ Hd) as Henc.
  assert (Hsome : is_Some (utf8_encode (universal_newlines cs0))).
  { apply utf8_encode_Some, universal_newlines_scalar, utf8_encode_Some.
    by eexists. }
  destruct Hsome as [bs Hbs]. exists bs. split; [done|]. intros Hcr.
  rewrite universal_newlines_id in Hbs.
  - rewrite Henc in Hbs. by injection Hbs.
  - intros Hin. apply Hcr. by apply (utf8_encode_ascii cs0).
Qed.

Lemma corpus_text_encodes_witness :
  ∃ bs, utf8_encode [104%N; 10%N] = Some bs ∧
        (13%N ∉ Byte.to_N <$> [x68; x0d; x0a] → bs = Byte.to_N <$> [x68; x0d; x0a]).
Proof.
  apply (corpus_text_encodes [x68; x0d; x0a] [104%N; 10%N] eq_refl).
Defined.

(** X25.  [download_text], for an identifier in the range of the column:
    404 when there is no document of that identifier; otherwise the text of
    the document, encoded, with its file name in the [Content-Disposition]
    header, or [UnicodeEncodeError] when the file name has a character
    outside latin-1; an error of the database is not caught.  The server is
    left as it is. *)
Theorem download_text_answers (engine : AsyncEngine) (id : Z) (a : app_state)
    (p : process) (srv : server) :
  unreachable a = 0%nat →
  open_txn srv !! engine_session engine = None →
  match documents (committed srv) with
  | Some t =>
      (int4 id → id ∉ doc_id <$> doc_rows t →
         app_run (download_text engine id) (a, (p, srv))
         = (Throws (HTTPException 404 "Document not found."), (a, (p, srv)))) ∧
      (∀ r data, NoDup (doc_id <$> doc_rows t) → r ∈ doc_rows t → doc_id r = id →
         utf8_encode (doc_content r) = Some data →
         app_run (download_text engine id) (a, (p, srv))
         = (if latin1_encodable (doc_filename r)
            then Responds ([("Content-Disposition",
                             "attachment; filename=" +:+ double_quote
                             +:+ doc_filename r +:+ double_quote);
                            ("Content-Type", "text/plain; charset=utf-8")], data)
            else Throws UnicodeEncodeError,
            (a, (p, srv))))
  | None =>
      app_run (download_text engine id) (a, (p, srv))
      = (Throws (Exn (DBAPIError UndefinedTable)), (a, (p, srv)))
  end.
Proof.
  intros Hu Hs. rewrite app_run_download_text by done.
  destruct (documents (committed srv)) as [t|]; [|done]. split.
  - intros _ Hn. by rewrite filter_absent_id.
  - intros r data Hnd Hr <- Henc. rewrite filter_by_id by done.
    cbn [head]. rewrite Henc. by destruct (latin1_encodable (doc_filename r)).
Qed.

Lemma download_text_answers_witness :
  app_run (download_text sample_engine 7)
          (ready_app, (process_with Missing, seeded_server))
  = (Throws (HTTPException 404 "Document not found."),
     (ready_app, (process_with Missing, seeded_server))).
Proof.
  pose proof (download_text_answers sample_engine 7 ready_app
                (process_with Missing) seeded_server eq_refl eq_refl) as H.
  hnf in H. destruct H as [H _]. apply H.
  - unfold int4, int4_min, int4_max. lia.
  - compute_done.
Defined.

(** ** [delete_analysis] *)

(** X26.  [delete_analysis] removes the analyses of that document and
    nothing else: the documents and the other analyses are what they were;
    when the document has no analysis, and the identifier is in the range of
    the column, it answers 404 and leaves the server as it is. *)
Theorem delete_analysis_removes_the_analysis (engine : AsyncEngine) (id : Z)
    (a : app_state) (p : process) (srv : server) (rows : list analysis) :
  unreachable a = 0%nat →
  open_txn srv !! engine_session engine = None →
  analyses (committed srv) = Some rows →
  (int4 id → id ∉ document_id <$> rows →
     app_run (delete_analysis engine id) (a, (p, srv))
     = (Throws (HTTPException 404 "Analysis not found for this document"),
        (a, (p, srv)))) ∧
  (id ∈ document_id <$> rows →
     ∃ srv',
       app_run (delete_analysis engine id) (a, (p, srv))
       = (Responds ("Analysis for document " +:+ pretty id
                    +:+ " deleted successfully."), (a, (p, srv'))) ∧
       analyses (committed srv')
       = Some (filter (λ x, document_id x ≠ id) rows) ∧
       documents (committed srv') = documents (committed srv) ∧
       idx_analyses_document_id (committed srv')
       = idx_analyses_document_id (committed srv) ∧
       open_txn srv' = open_txn srv ∧
       advisory_locks srv' = advisory_locks srv).
Proof.
  intros Hu Hs Hrows. unfold delete_analysis.
  rewrite app_run_bind, app_run_engine_begin_commit by done. cbn zeta.
  rewrite app_run_bind, app_run_execute_query.
  rewrite server_query_reads by (done || by exists None; apply begin_txn_open).
  rewrite (server_query_in_txn _ _ _ _ (begin_txn_open (engine_session engine) srv)).
  cbn [fst]. rewrite view_begin_txn. cbn [exec_query]. rewrite Hrows. cbn [fst snd].
  split.
  - intros _ Hn. rewrite filter_none.
    + cbn [fmap list_fmap head app_run]. by rewrite rollback_begin_txn.
    + intros x Hx Heq. apply Hn. rewrite <- Heq. by apply list_elem_of_fmap_2.
  - intros (x & -> & Hx)%list_elem_of_fmap.
    destruct (filter (λ x', document_id x' = document_id x) rows) as [|x1 l] eqn:Hf.
    { exfalso. by eapply (filter_nil_not_elem_of _ _ x Hf). }
    cbn [fmap list_fmap head].
    rewrite app_run_bind, app_run_execute_query.
    rewrite (server_query_in_txn _ _ _ _ (begin_txn_open (engine_session engine) srv)).
    cbn [fst snd query_writes]. rewrite view_begin_txn. cbn [exec_query].
    rewrite Hrows. cbn [fst snd app_run]. rewrite commit_after_write by done.
    eexists. split; [done|]. by cbn.
Qed.

Lemma delete_analysis_removes_the_analysis_witness :
  ∃ srv',
    (app_run (delete_analysis sample_engine 1)
             (ready_app, (process_with Missing, analysed_server))).2.2.2 = srv' ∧
    analyses (committed srv') = Some [].
Proof.
  destruct (proj2 (delete_analysis_removes_the_analysis sample_engine 1 ready_app
                     (process_with Missing) analysed_server [Analysis 1 1]
                     eq_refl eq_refl eq_refl))
    as (srv' & Hrun & Han & _).
  - apply list_elem_of_here.
  - exists srv'. split; [by rewrite Hrun|exact Han].
Defined.

(** ** After a deletion *)

Lemma app_run_view_text (engine : AsyncEngine) (id : Z) (a : app_state)
    (p : process) (srv : server) (t : documents_table) :
  unreachable a = 0%nat →
  open_txn srv !! engine_session engine = None →
  documents (committed srv) = Some t →
  app_run (view_text engine id) (a, (p, srv)) =
  (match head (filter (λ r, doc_id r = id) (doc_rows t)) with
   | None => Throws (HTTPException 404 "Document not found.")
   | Some r => Responds (doc_id r, doc_filename r, doc_content r)
   end, (a, (p, srv))).
Proof.
  intros Hu Hs Ht. unfold view_text, fetch_document.
  rewrite app_run_bind, app_run_try_except.
  rewrite (app_run_read engine (SelectDocumentById id) head) by done.
  cbn [exec_query]. unfold on_documents. rewrite Ht. cbn [fst app_run].
  by destruct (filter (λ r, doc_id r = id) (doc_rows t)).
Qed.

Lemma app_run_list_txt_files (engine : AsyncEngine) (a : app_state)
    (p : process) (srv : server) (t : documents_table) :
  unreachable a = 0%nat →
  open_txn srv !! engine_session engine = None →
  documents (committed srv) = Some t →
  app_run (list_txt_files engine) (a, (p, srv)) =
  (Responds (row_keys (order_by_id (doc_rows t))), (a, (p, srv))).
Proof.
  intros Hu Hs Ht. unfold list_txt_files, fetch_all_files.
  rewrite app_run_try_except.
  rewrite (app_run_read engine SelectIdFilenameOrderById (λ rows, rows)) by done.
  cbn [exec_query]. unfold on_documents. by rewrite Ht.
Qed.

(** X27.  A deleted document is gone: after [delete_text] has answered for
    an identifier, [view_text] and [download_text] of that identifier answer
    404, and [list_txt_files] does not list it. *)
Theorem deleted_document_is_gone (engine : AsyncEngine) (id : Z)
    (a : app_state) (p : process) (srv : server) (t : documents_table) :
  unreachable a = 0%nat →
  open_txn srv !! engine_session engine = None →
  documents (committed srv) = Some t →
  id ∈ doc_id <$> doc_rows t →
  let aw' := (app_run (delete_text engine id) (a, (p, srv))).2 in
  app_run (view_text engine id) aw'
    = (Throws (HTTPException 404 "Document not found."), aw') ∧
  app_run (download_text engine id) aw'
    = (Throws (HTTPException 404 "Document not found."), aw') ∧
  ∃ l, app_run (list_txt_files engine) aw' = (Responds l, aw') ∧ id ∉ l.*1.
Proof.
  intros Hu Hs Ht (r & -> & Hr)%list_elem_of_fmap aw'. subst aw'.
  rewrite (app_run_delete_text _ _ _ _ _ t) by done.
  destruct (filter (λ r', doc_id r' = doc_id r) (doc_rows t)) as [|r1 l] eqn:Hf.
  { exfalso. by eapply (filter_nil_not_elem_of _ _ r Hf). }
  cbn [head snd].
  assert (Ht' : documents (without_document (doc_id r) (committed srv))
                = Some {| doc_rows := filter (λ r', doc_id r' ≠ doc_id r) (doc_rows t);
                          documents_id_seq := documents_id_seq t |}).
  { unfold without_document. cbn [documents]. by rewrite Ht. }
  assert (Hgone : filter (λ r', doc_id r' = doc_id r)
                    (filter (λ r', doc_id r' ≠ doc_id r) (doc_rows t)) = []).
  { apply filter_none. by intros r' [Hne _]%list_elem_of_filter. }
  split_and!.
  - erewrite app_run_view_text; [|done|done|exact Ht'].
    cbn [doc_rows]. by rewrite Hgone.
  - rewrite app_run_download_text by done. cbn [committed]. rewrite Ht'.
    cbn [doc_rows]. by rewrite Hgone.
  - eexists. split; [by erewrite app_run_list_txt_files; [|done|done|exact Ht']|].
    cbn [doc_rows]. unfold row_keys, order_by_id.
    rewrite <- list_fmap_compose.
    intros (r' & Hid & Hin)%list_elem_of_fmap. cbn in Hid.
    rewrite merge_sort_Permutation in Hin.
    by apply list_elem_of_filter in Hin as [Hne _].
Qed.

Lemma deleted_document_is_gone_witness :
  app_run (view_text sample_engine 1)
          (app_run (delete_text sample_engine 1)
                   (ready_app, (process_with Missing, seeded_server))).2
  = (Throws (HTTPException 404 "Document not found."),
     (app_run (delete_text sample_engine 1)
              (ready_app, (process_with Missing, seeded_server))).2).
Proof.
  apply (deleted_document_is_gone sample_engine 1 ready_app
           (process_with Missing) seeded_server seeded_table).
  - reflexivity.
  - reflexivity.
  - reflexivity.
  - apply list_elem_of_here.
Defined.
